(** * NFL fantasy insights: a shallow embedding of [insights.py]

    The insight functions of [insights.py] are sequences of dataframe
    operations (group-by, aggregate, filter, sort, merge, shift) followed by
    scalar arithmetic.  Tables are modelled as lists of records, one record
    type per table shape; the dataframe operations are modelled once, in
    [Module Frame], and the insight functions are written on top of them in
    the order of the source.

    Numbers.  A numeric cell is an exact rational or one of the three
    special values of the dataframe library's float columns: [NaN] (the
    missing value), [PInf] and [NInf].  Arithmetic on the special values is
    the IEEE one (x/0 is an infinity, 0/0 and inf-inf are [NaN], every
    comparison with [NaN] is false).  Rounding is not modelled, and the
    square root is a parameter of the development.  The statements about
    means, sums and rates therefore say which games or rows enter them and
    when they are numbers; they claim no order between a mean and the
    values it is taken from, nor between sums of rates, which rounding can
    break in the last digit. *)

From Stdlib Require Import List Bool Arith ZArith QArith Lia Lqa.
From Stdlib Require Import String Ascii.
From Stdlib Require Import Permutation Sorted.
Import ListNotations.

Local Open Scope Q_scope.

(* ------------------------------------------------------------------ *)
(** ** Numeric cells *)

Module Cell.

Inductive fval : Type :=
| Fin (q : Q)
| PInf
| NInf
| NaN.

Definition of_nat (n : nat) : fval := Fin (inject_Z (Z.of_nat n)).

(** A cell read from the delimited text input: a decimal or empty. *)
Definition of_cell (c : option Q) : fval :=
  match c with Some q => Fin q | None => NaN end.

Definition isna (x : fval) : bool :=
  match x with NaN => true | _ => false end.

Definition notna (x : fval) : bool := negb (isna x).

Definition Qltb (a b : Q) : bool := negb (Qle_bool b a).

Definition fneg (x : fval) : fval :=
  match x with
  | Fin q => Fin (- q)
  | PInf => NInf
  | NInf => PInf
  | NaN => NaN
  end.

Definition fadd (x y : fval) : fval :=
  match x, y with
  | NaN, _ | _, NaN => NaN
  | Fin a, Fin b => Fin (a + b)
  | PInf, NInf | NInf, PInf => NaN
  | PInf, _ | _, PInf => PInf
  | NInf, _ | _, NInf => NInf
  end.

Definition fsub (x y : fval) : fval := fadd x (fneg y).

(** The infinity with the sign of [a], [NaN] when [a] is zero. *)
Definition signed_inf (a : Q) (pos neg : fval) : fval :=
  match a ?= 0 with
  | Eq => NaN
  | Gt => pos
  | Lt => neg
  end.

Definition fmul (x y : fval) : fval :=
  match x, y with
  | NaN, _ | _, NaN => NaN
  | Fin a, Fin b => Fin (a * b)
  | Fin a, PInf | PInf, Fin a => signed_inf a PInf NInf
  | Fin a, NInf | NInf, Fin a => signed_inf a NInf PInf
  | PInf, PInf | NInf, NInf => PInf
  | PInf, NInf | NInf, PInf => NInf
  end.

(** Division never raises: a zero divisor gives an infinity of the sign of
    the dividend, and [NaN] for 0/0. *)
Definition fdiv (x y : fval) : fval :=
  match x, y with
  | NaN, _ | _, NaN => NaN
  | Fin a, Fin b =>
      if Qeq_bool b 0 then signed_inf a PInf NInf else Fin (a / b)
  | Fin _, PInf | Fin _, NInf => Fin 0
  | PInf, Fin b => if Qle_bool 0 b then PInf else NInf
  | NInf, Fin b => if Qle_bool 0 b then NInf else PInf
  | PInf, PInf | PInf, NInf | NInf, PInf | NInf, NInf => NaN
  end.

(** [fltb x y] is [x < y]; false as soon as one side is [NaN]. *)
Definition fltb (x y : fval) : bool :=
  match x, y with
  | NaN, _ | _, NaN => false
  | Fin a, Fin b => Qltb a b
  | NInf, Fin _ | NInf, PInf | Fin _, PInf => true
  | NInf, NInf | PInf, _ | Fin _, NInf => false
  end.

Definition fgtb (x y : fval) : bool := fltb y x.

Definition fleb (x y : fval) : bool :=
  match x, y with
  | NaN, _ | _, NaN => false
  | Fin a, Fin b => Qle_bool a b
  | NInf, _ | Fin _, PInf | PInf, PInf => true
  | PInf, Fin _ | PInf, NInf | Fin _, NInf => false
  end.

(** Equality of cells up to the representation of the rational. *)
Definition feq (x y : fval) : Prop :=
  match x, y with
  | Fin a, Fin b => a == b
  | PInf, PInf | NInf, NInf | NaN, NaN => True
  | _, _ => False
  end.

Definition fmin (x y : fval) : fval := if fltb y x then y else x.
Definition fmax (x y : fval) : fval := if fltb x y then y else x.

End Cell.
Import Cell.

Declare Scope cell_scope.
Delimit Scope cell_scope with cell.
Infix "+" := fadd : cell_scope.
Infix "-" := fsub : cell_scope.
Infix "*" := fmul : cell_scope.
Infix "/" := fdiv : cell_scope.
Infix "<?" := fltb : cell_scope.
Infix ">?" := fgtb (at level 70) : cell_scope.

(* ------------------------------------------------------------------ *)
(** ** Dataframe operations on lists of rows *)

Module Frame.

Section Rows.
Context {A : Type}.

(** Stable insertion sort: among rows that compare equal the earlier row
    stays first. *)
Fixpoint insert_row (leb : A -> A -> bool) (x : A) (l : list A) : list A :=
  match l with
  | [] => [x]
  | y :: t => if leb x y then x :: y :: t else y :: insert_row leb x t
  end.

Definition sort_rows (leb : A -> A -> bool) (l : list A) : list A :=
  fold_right (insert_row leb) [] l.

(** Orders on a float column, missing values last in both directions. *)
Definition asc (x y : fval) : bool := isna y || (notna x && fleb x y).
Definition desc (x y : fval) : bool := isna y || (notna x && fleb y x).

(** [sort_values(col, ascending=False)].  Rows with equal values are kept
    in table order here; the library's sort on a single column promises no
    order among them, and what is proved of a ranking below holds for every
    such order. *)
Definition sort_values_desc (col : A -> fval) (l : list A) : list A :=
  sort_rows (fun a b => desc (col a) (col b)) l.

(** [nlargest n col] and [nsmallest n col]: the [n] rows with the largest
    (smallest) value of the column, best first, the first occurrence
    winning a tie; rows with a missing value come after all others. *)
Definition nlargest (n : nat) (col : A -> fval) (l : list A) : list A :=
  firstn n (sort_rows (fun a b => desc (col a) (col b)) l).

Definition nsmallest (n : nat) (col : A -> fval) (l : list A) : list A :=
  firstn n (sort_rows (fun a b => asc (col a) (col b)) l).

Definition head (n : nat) (l : list A) : list A := firstn n l.

Definition empty (l : list A) : bool :=
  match l with [] => true | _ => false end.

(** [iloc i] with a non-negative position. *)
Definition iloc (i : nat) (l : list A) : option A := nth_error l i.

(** [iloc[-1]]: the last row. *)
Definition iloc_last (l : list A) : option A :=
  match rev l with [] => None | x :: _ => Some x end.
End Rows.

Section GroupBy.
Context {A K : Type}.
Variable key : A -> K.
Variable keqb : K -> K -> bool.
Variable kleb : K -> K -> bool.

(** Distinct keys, first occurrences kept. *)
Fixpoint unique (l : list K) : list K :=
  match l with
  | [] => []
  | k :: t => k :: filter (fun k' => negb (keqb k k')) (unique t)
  end.

Definition group_rows (k : K) (l : list A) : list A :=
  filter (fun r => keqb (key r) k) l.

(** One group per distinct key, groups in key order, rows of a group in
    table order. *)
Definition groupby (l : list A) : list (K * list A) :=
  map (fun k => (k, group_rows k l)) (sort_rows kleb (unique (map key l))).
End GroupBy.

Section Merge.
Context {A B K : Type}.
Variable keyl : A -> K.
Variable keyr : B -> K.
Variable keqb : K -> K -> bool.

(** Left join: every left row is kept, in order, once per matching right
    row, and once with a missing right side when nothing matches. *)
Definition merge_left (l : list A) (r : list B) : list (A * option B) :=
  flat_map
    (fun a =>
       match filter (fun b => keqb (keyl a) (keyr b)) r with
       | [] => [(a, None)]
       | ms => map (fun b => (a, Some b)) ms
       end) l.
End Merge.

Section Shift.
Context {A K : Type}.
Variable key : A -> K.
Variable keqb : K -> K -> bool.
Variable col : A -> fval.

(** [groupby(key)[col].shift(1)]: for every row, the value of the column
    in the previous row of the same group, missing for the first row of
    a group.  [seen] holds the rows already passed, latest first. *)
Fixpoint group_shift (seen l : list A) : list fval :=
  match l with
  | [] => []
  | r :: t =>
      match find (fun p => keqb (key p) (key r)) seen with
      | Some p => col p
      | None => NaN
      end :: group_shift (r :: seen) t
  end.
End Shift.

(** Series reductions; missing values are skipped. *)
Definition dropna (l : list fval) : list fval := filter notna l.

Definition sum (l : list fval) : fval := fold_left fadd (dropna l) (Fin 0).

Definition count (l : list fval) : nat := List.length (dropna l).

Definition mean (l : list fval) : fval := (sum l / of_nat (count l))%cell.

Definition min (l : list fval) : fval :=
  match dropna l with
  | [] => NaN
  | x :: t => fold_left fmin t x
  end.

Definition max (l : list fval) : fval :=
  match dropna l with
  | [] => NaN
  | x :: t => fold_left fmax t x
  end.

Definition fsqrt (sqrtQ : Q -> Q) (x : fval) : fval :=
  match x with
  | Fin q => Fin (sqrtQ q)
  | PInf => PInf
  | NInf | NaN => NaN
  end.

(** Sample standard deviation (one degree of freedom removed): missing
    when fewer than two values are present. *)
Definition std (sqrtQ : Q -> Q) (l : list fval) : fval :=
  let v := dropna l in
  if (List.length v <=? 1)%nat then NaN
  else
    let m := mean v in
    let sq := map (fun x => ((x - m) * (x - m))%cell) v in
    fsqrt sqrtQ (fold_left fadd sq (Fin 0) / of_nat (List.length v - 1))%cell.

(** Integer series. *)
Definition min_int (l : list Z) : option Z :=
  match l with
  | [] => None
  | x :: t => Some (fold_left Z.min t x)
  end.

Definition nunique_int (l : list Z) : nat :=
  List.length (unique Z.eqb l).

End Frame.

(** Keys of the group-by calls. *)
Module Key.

Definition opt_eqb (a b : option Z) : bool :=
  match a, b with
  | Some x, Some y => (x =? y)%Z
  | None, None => true
  | _, _ => false
  end.

Definition opt_leb (a b : option Z) : bool :=
  match a, b with
  | Some x, Some y => (x <=? y)%Z
  | _, None => true
  | None, Some _ => false
  end.

(** Lexicographic order on pairs from the orders of the components. *)
Definition pair_eqb {A B} (ea : A -> A -> bool) (eb : B -> B -> bool)
  (x y : A * B) : bool :=
  ea (fst x) (fst y) && eb (snd x) (snd y).

Definition pair_leb {A B} (ea la : A -> A -> bool) (lb : B -> B -> bool)
  (x y : A * B) : bool :=
  if ea (fst x) (fst y) then lb (snd x) (snd y) else la (fst x) (fst y).

End Key.

(* ------------------------------------------------------------------ *)
(** ** Data model *)

Local Open Scope string_scope.

(** One row of the weekly observation table. *)
Record Observation : Type := mkObs {
  player_id : string;
  player_display_name : string;
  position : string;
  season : Z;
  week : Z;
  fantasy_points_ppr : option Q
}.

Definition points (r : Observation) : fval := of_cell (fantasy_points_ppr r).

Definition positions : list string := ["QB"; "RB"; "WR"; "TE"].

(** *** Tables of [calculate_rookie_insights] *)

Record RookieRow : Type := mkRookieRow {
  obs :> Observation;
  rookie_season : option Z;
  is_rookie : bool
}.

Record TopRookie : Type := mkTopRookie {
  tr_player_display_name : string;
  tr_rookie_season : option Z;
  tr_fantasy_points_ppr : fval
}.

Record RookieInsight : Type := mkRookieInsight {
  rookie_avg : fval;
  veteran_avg : fval;
  performance_gap : fval;
  gap_percentage : fval;
  top_rookies : list TopRookie;
  early_season_avg : fval;
  late_season_avg : fval;
  adaptation_improvement : fval
}.

(** *** Tables of [calculate_consistency_insights] *)

Record PlayerConsistency : Type := mkPlayerConsistency {
  player : string;
  avg_points : fval;
  std_points : fval;
  games : nat;
  min_points : fval;
  max_points : fval
}.

Record ConsistencyRow : Type := mkConsistencyRow {
  agg :> PlayerConsistency;
  cv : fval;
  floor : fval;
  ceiling : fval
}.

Record ConsistencyInsight : Type := mkConsistencyInsight {
  avg_cv : fval;
  most_consistent : list ConsistencyRow;
  highest_ceiling : list ConsistencyRow;
  highest_floor : list ConsistencyRow;
  total_players_analyzed : nat
}.

(** *** Per-player-season totals, shared by the trend and value insights *)

Record SeasonStat : Type := mkSeasonStat {
  s_player_id : string;
  s_player_display_name : string;
  s_position : string;
  s_season : Z;
  s_fantasy_points_ppr : fval
}.

Record YoYRow : Type := mkYoYRow {
  stat :> SeasonStat;
  prev_season_points : fval;
  yoy_change : fval;
  yoy_change_pct : fval
}.

Record BreakoutInsight : Type := mkBreakoutInsight {
  breakouts : list YoYRow;
  busts : list YoYRow;
  avg_yoy_change : fval;
  yoy_volatility : fval;
  breakout_rate : fval;
  bust_rate : fval
}.

Record VbdRow : Type := mkVbdRow {
  vstat :> SeasonStat;
  vbd : fval
}.

Record PositionValue : Type := mkPositionValue {
  replacement_value : fval;
  top_vbd_players : list VbdRow;
  position_depth : nat;
  avg_starter_points : fval;
  scarcity_score : fval
}.

(** *** Tables of [generate_draft_recommendations] *)

Record PlayerMetrics : Type := mkPlayerMetrics {
  dplayer : string;
  avg_ppg : fval;
  std_ppg : fval;
  total_points : fval;
  seasons_played : nat
}.

Record ScoredPlayer : Type := mkScoredPlayer {
  metrics :> PlayerMetrics;
  consistency_score : fval;
  draft_score : fval
}.

Record Recommendation : Type := mkRecommendation {
  safe_picks : list (string * fval * fval * fval);
  upside_picks : list (string * fval * fval);
  overall_rankings : list (string * fval * fval)
}.

(** *** Errors raised by the dataframe library *)

Inductive exn : Type :=
| KeyError (column : string)
| IndexError.

Definition result (A : Type) : Type := (exn + A)%type.
Definition Ok {A} (a : A) : result A := inr a.
Definition Err {A} (e : exn) : result A := inl e.

Definition bind {A B} (m : result A) (k : A -> result B) : result B :=
  match m with
  | inl e => inl e
  | inr a => k a
  end.

Notation "x <- m ;; k" := (bind m (fun x => k))
  (at level 61, m at next level, right associativity).
Notation "m ;;; k" := (bind m (fun _ => k))
  (at level 61, right associativity).

(** Row lookups that raise when the position is out of range. *)
Definition iloc_exn {A} (i : nat) (l : list A) : result A :=
  match Frame.iloc i l with Some r => Ok r | None => Err IndexError end.

Definition iloc_last_exn {A} (l : list A) : result A :=
  match Frame.iloc_last l with Some r => Ok r | None => Err IndexError end.

(* ------------------------------------------------------------------ *)
(** ** The insight functions *)

Section Insights.

(** The square root used by the standard deviation. *)
Variable sqrtQ : Q -> Q.

(** *** [calculate_rookie_insights] *)

Definition player_first_season (df : list Observation)
  : list (string * option Z) :=
  map (fun g => (fst g, Frame.min_int (map season (snd g))))
      (Frame.groupby player_id String.eqb String.leb df).

Definition df_with_rookie (df : list Observation) : list RookieRow :=
  map (fun ab =>
         let rs := match snd ab with
                   | Some b => snd b
                   | None => None
                   end in
         mkRookieRow (fst ab) rs
           (match rs with
            | Some s => (season (fst ab) =? s)%Z
            | None => false
            end))
      (Frame.merge_left player_id fst String.eqb df (player_first_season df)).

Definition rookie_position_insight (dfr : list RookieRow) (pos : string)
  : RookieInsight :=
  let pos_data := filter (fun r : RookieRow => position r =? pos) dfr in
  let r_avg := Frame.mean (map (fun r : RookieRow => points r) (filter is_rookie pos_data)) in
  let v_avg :=
    Frame.mean (map (fun r : RookieRow => points r) (filter (fun r : RookieRow => negb (is_rookie r)) pos_data)) in
  let top :=
    Frame.nlargest 5 tr_fantasy_points_ppr
      (map (fun g => mkTopRookie (fst (fst g)) (snd (fst g))
                       (Frame.sum (map (fun r : RookieRow => points r) (snd g))))
           (Frame.groupby
              (fun r : RookieRow => (player_display_name r, rookie_season r))
              (Key.pair_eqb String.eqb Key.opt_eqb)
              (Key.pair_leb String.eqb String.leb Key.opt_leb)
              (filter is_rookie pos_data))) in
  let early :=
    Frame.mean
      (map (fun r : RookieRow => points r)
           (filter (fun r : RookieRow => is_rookie r && (week r <=? 4)%Z)
                   pos_data)) in
  let late :=
    Frame.mean
      (map (fun r : RookieRow => points r)
           (filter (fun r : RookieRow => is_rookie r && (4 <? week r)%Z)
                   pos_data)) in
  {| rookie_avg := r_avg;
     veteran_avg := v_avg;
     performance_gap := (v_avg - r_avg)%cell;
     gap_percentage :=
       if (v_avg >? Fin 0)%cell
       then ((v_avg - r_avg) / v_avg * Fin 100)%cell
       else Fin 0;
     top_rookies := top;
     early_season_avg := early;
     late_season_avg := late;
     adaptation_improvement :=
       if notna late && notna early then (late - early)%cell else Fin 0 |}.

Definition calculate_rookie_insights (df : list Observation)
  : list (string * RookieInsight) :=
  let dfr := df_with_rookie df in
  map (fun pos => (pos, rookie_position_insight dfr pos)) positions.

(** *** [calculate_consistency_insights] *)

Definition player_consistency (df : list Observation) (pos : string)
  : list PlayerConsistency :=
  map (fun g =>
         let v := map points (snd g) in
         mkPlayerConsistency (fst g) (Frame.mean v) (Frame.std sqrtQ v)
           (Frame.count v) (Frame.min v) (Frame.max v))
      (Frame.groupby player_display_name String.eqb String.leb
         (filter (fun r => position r =? pos) df)).

Definition consistency_row (p : PlayerConsistency) : ConsistencyRow :=
  {| agg := p;
     cv := (std_points p / avg_points p)%cell;
     floor := (avg_points p - std_points p)%cell;
     ceiling := (avg_points p + std_points p)%cell |}.

Definition consistency_position_insight (df : list Observation)
  (pos : string) : option ConsistencyInsight :=
  let pc := filter (fun p => (16 <=? games p)%nat) (player_consistency df pos) in
  if Frame.empty pc then None
  else
    let pcx := map consistency_row pc in
    Some {| avg_cv := Frame.mean (map cv pcx);
            most_consistent := Frame.nsmallest 5 cv pcx;
            highest_ceiling := Frame.nlargest 5 ceiling pcx;
            highest_floor := Frame.nlargest 5 floor pcx;
            total_players_analyzed := List.length pcx |}.

(** A dictionary filled in the fixed order of the positions; a position
    whose computation is skipped gets no entry. *)
Definition by_position {A} (f : string -> option A) : list (string * A) :=
  flat_map (fun pos => match f pos with
                       | Some a => [(pos, a)]
                       | None => []
                       end) positions.

Definition calculate_consistency_insights (df : list Observation)
  : list (string * ConsistencyInsight) :=
  by_position (consistency_position_insight df).

(** *** Season totals per (player, name, position, season) *)

Definition stat_key (r : Observation) : string * (string * (string * Z)) :=
  (player_id r, (player_display_name r, (position r, season r))).

Definition stat_key_eqb :=
  Key.pair_eqb String.eqb
    (Key.pair_eqb String.eqb (Key.pair_eqb String.eqb Z.eqb)).

Definition stat_key_leb :=
  Key.pair_leb String.eqb String.leb
    (Key.pair_leb String.eqb String.leb
       (Key.pair_leb String.eqb String.leb Z.leb)).

Definition season_totals (df : list Observation) : list SeasonStat :=
  map (fun g =>
         let k := fst g in
         mkSeasonStat (fst k) (fst (snd k)) (fst (snd (snd k)))
           (snd (snd (snd k))) (Frame.sum (map points (snd g))))
      (Frame.groupby stat_key stat_key_eqb stat_key_leb df).

(** *** [calculate_breakout_insights] *)

Definition multi_season_players (df : list Observation) : list string :=
  map fst
      (filter (fun g => (2 <=? Frame.nunique_int (map season (snd g)))%nat)
              (Frame.groupby player_id String.eqb String.leb df)).

Definition multi_season_data (df : list Observation) : list Observation :=
  filter (fun r => existsb (String.eqb (player_id r)) (multi_season_players df))
         df.

Definition by_player_season (a b : SeasonStat) : bool :=
  Key.pair_leb String.eqb String.leb Z.leb
    (s_player_id a, s_season a) (s_player_id b, s_season b).

Definition player_season_stats (df : list Observation) : list SeasonStat :=
  Frame.sort_rows by_player_season (season_totals (multi_season_data df)).

Definition yoy_row (s : SeasonStat) (prev : fval) : YoYRow :=
  let change := (s_fantasy_points_ppr s - prev)%cell in
  mkYoYRow s prev change (change / prev * Fin 100)%cell.

Definition with_yoy (stats : list SeasonStat) : list YoYRow :=
  map (fun sp => yoy_row (fst sp) (snd sp))
      (combine stats
         (Frame.group_shift s_player_id String.eqb s_fantasy_points_ppr
            [] stats)).

Definition valid_changes (df : list Observation) : list YoYRow :=
  filter (fun r => notna (yoy_change r)) (with_yoy (player_season_stats df)).

Definition breakout_mask (r : YoYRow) : bool :=
  (yoy_change r >? Fin 50)%cell && (yoy_change_pct r >? Fin 25)%cell.

Definition bust_mask (r : YoYRow) : bool :=
  (yoy_change r <? Fin (-50))%cell && (yoy_change_pct r <? Fin (-25))%cell.

Definition rate (part whole : nat) : fval :=
  if (0 <? whole)%nat
  then (of_nat part / of_nat whole * Fin 100)%cell
  else Fin 0.

Definition breakout_position_insight (valid : list YoYRow) (pos : string)
  : option BreakoutInsight :=
  let pos_data := filter (fun r : YoYRow => s_position r =? pos) valid in
  if Frame.empty pos_data then None
  else
    let bo := Frame.nlargest 10 yoy_change_pct (filter breakout_mask pos_data) in
    let bu := Frame.nsmallest 10 yoy_change_pct (filter bust_mask pos_data) in
    Some {| breakouts := bo;
            busts := bu;
            avg_yoy_change := Frame.mean (map yoy_change pos_data);
            yoy_volatility := Frame.std sqrtQ (map yoy_change pos_data);
            breakout_rate := rate (List.length bo) (List.length pos_data);
            bust_rate := rate (List.length bu) (List.length pos_data) |}.

Definition calculate_breakout_insights (df : list Observation)
  : list (string * BreakoutInsight) :=
  by_position (breakout_position_insight (valid_changes df)).

(** *** [calculate_positional_value_insights] *)

(** [replacement_ranks.get(position, 12)]. *)
Definition replacement_ranks (pos : string) : nat :=
  if pos =? "QB" then 12
  else if pos =? "RB" then 24
  else if pos =? "WR" then 24
  else if pos =? "TE" then 12
  else 12.

(** The row the replacement value is read from: position [rank - 1] when
    the table is long enough, the last row otherwise. *)
Definition replacement_row (rank : nat) (pos_data : list SeasonStat)
  : result SeasonStat :=
  if (rank <=? List.length pos_data)%nat
  then iloc_exn (rank - 1) pos_data
  else iloc_last_exn pos_data.

Definition value_position_insight (season_data : list SeasonStat)
  (pos : string) : result (option PositionValue) :=
  let pos_data :=
    Frame.sort_values_desc s_fantasy_points_ppr
      (filter (fun s => s_position s =? pos) season_data) in
  if Frame.empty pos_data then Ok None
  else
    let replacement_rank := replacement_ranks pos in
    r <- replacement_row replacement_rank pos_data ;;
    let value := s_fantasy_points_ppr r in
    let scored :=
      map (fun s => mkVbdRow s (s_fantasy_points_ppr s - value)%cell)
          pos_data in
    let pts := fun v : VbdRow => s_fantasy_points_ppr v in
    Ok (Some
          {| replacement_value := value;
             top_vbd_players := Frame.head 10 scored;
             position_depth :=
               List.length (filter (fun v => (pts v >? value)%cell) scored);
             avg_starter_points :=
               Frame.mean (map pts (Frame.head replacement_rank scored));
             scarcity_score :=
               Frame.std sqrtQ (map pts (Frame.head 5 scored)) |}).

(** The loop over the positions, stopping at the first error. *)
Fixpoint collect_positions {A} (f : string -> result (option A))
  (ps : list string) : result (list (string * A)) :=
  match ps with
  | [] => Ok []
  | p :: t =>
      o <- f p ;;
      rest <- collect_positions f t ;;
      Ok (match o with
          | Some a => (p, a) :: rest
          | None => rest
          end)
  end.

Fixpoint collect_seasons {A} (f : Z -> result A) (ss : list Z)
  : result (list (Z * A)) :=
  match ss with
  | [] => Ok []
  | s :: t =>
      a <- f s ;;
      rest <- collect_seasons f t ;;
      Ok ((s, a) :: rest)
  end.

Definition sorted_seasons (df : list Observation) : list Z :=
  Frame.sort_rows Z.leb (Frame.unique Z.eqb (map season df)).

Definition calculate_positional_value_insights (df : list Observation)
  : result (list (Z * list (string * PositionValue))) :=
  let totals := season_totals df in
  collect_seasons
    (fun s =>
       let season_data := filter (fun t => (s_season t =? s)%Z) totals in
       collect_positions (value_position_insight season_data) positions)
    (sorted_seasons df).

(** *** [generate_draft_recommendations] *)

Definition recent_data (df : list Observation) (current_season : Z)
  : list Observation :=
  filter (fun r =>
            existsb (Z.eqb (season r))
              [current_season - 2; current_season - 1; current_season]%Z)
         df.

Definition player_metrics (recent : list Observation) (pos : string)
  : list PlayerMetrics :=
  map (fun g =>
         let v := map points (snd g) in
         mkPlayerMetrics (fst g) (Frame.mean v) (Frame.std sqrtQ v)
           (Frame.sum v) (List.length (map season (snd g))))
      (Frame.groupby player_display_name String.eqb String.leb
         (filter (fun r => position r =? pos) recent)).

Definition experienced_players (recent : list Observation) (pos : string)
  : list PlayerMetrics :=
  filter (fun p => (2 <=? seasons_played p)%nat) (player_metrics recent pos).

Definition score_player (p : PlayerMetrics) : ScoredPlayer :=
  let c := (avg_ppg p / (std_ppg p + Fin 1))%cell in
  mkScoredPlayer p c (avg_ppg p * Fin (7 # 10) + c * Fin (3 # 10))%cell.

Definition draft_position_recommendation (recent : list Observation)
  (pos : string) : option Recommendation :=
  let experienced := experienced_players recent pos in
  if Frame.empty experienced then None
  else
    let scored := map score_player experienced in
    Some
      {| safe_picks :=
           map (fun p : ScoredPlayer =>
                  (dplayer p, avg_ppg p, std_ppg p, consistency_score p))
               (Frame.nlargest 5 consistency_score scored);
         upside_picks :=
           map (fun p : ScoredPlayer => (dplayer p, avg_ppg p, total_points p))
               (Frame.nlargest 5 (fun p : ScoredPlayer => avg_ppg p) scored);
         overall_rankings :=
           map (fun p : ScoredPlayer => (dplayer p, draft_score p, avg_ppg p))
               (Frame.nlargest 10 draft_score scored) |}.

(** [current_season] defaults to 2024 in the source. *)
Definition generate_draft_recommendations (df : list Observation)
  (current_season : Z) : list (string * Recommendation) :=
  by_position (draft_position_recommendation (recent_data df current_season)).

End Insights.

(* ------------------------------------------------------------------ *)
(** ** Tables whose columns may be absent

    The functions above read a table that has every column they name.  A
    table handed to the dashboard may lack a column; reading it raises
    [KeyError], which nothing in [insights.py] catches. *)

Record DataFrame : Type := mkDataFrame {
  columns : list string;
  rows : list Observation
}.

Definition require (df : DataFrame) (col : string) : result unit :=
  if existsb (String.eqb col) (columns df) then Ok tt else Err (KeyError col).

Fixpoint require_all (df : DataFrame) (cols : list string) : result unit :=
  match cols with
  | [] => Ok tt
  | c :: t => require df c ;;; require_all df t
  end.

Record Summary : Type := mkSummary {
  tab_rookies : list (string * RookieInsight);
  tab_consistency : list (string * ConsistencyInsight);
  tab_breakouts : list (string * BreakoutInsight)
}.

Module Raw.

(** Columns in the order the function first reads them.  The rookie
    computation reads two columns, merges the first seasons into the table
    and reads the other four from the merged table. *)
Definition rookie_columns_before_merge : list string :=
  ["player_id"; "season"].

Definition rookie_columns_after_merge : list string :=
  ["position"; "fantasy_points_ppr"; "player_display_name"; "week"].

(** The merge adds the column [rookie_season].  When the table already has
    a column of that name the merge keeps both under the names
    [rookie_season_x] and [rookie_season_y], and the read of
    [rookie_season] that follows raises. *)
Definition read_merged_rookie_season (df : DataFrame) : result unit :=
  if existsb (String.eqb "rookie_season") (columns df)
  then Err (KeyError "rookie_season")
  else Ok tt.

Definition consistency_columns : list string :=
  ["position"; "player_display_name"; "fantasy_points_ppr"].

Definition breakout_columns : list string :=
  ["player_id"; "season"; "player_display_name"; "position";
   "fantasy_points_ppr"].

Definition calculate_rookie_insights (df : DataFrame)
  : result (list (string * RookieInsight)) :=
  require_all df rookie_columns_before_merge ;;;
  read_merged_rookie_season df ;;;
  require_all df rookie_columns_after_merge ;;;
  Ok (calculate_rookie_insights (rows df)).

Definition calculate_consistency_insights (sqrtQ : Q -> Q) (df : DataFrame)
  : result (list (string * ConsistencyInsight)) :=
  require_all df consistency_columns ;;;
  Ok (calculate_consistency_insights sqrtQ (rows df)).

Definition calculate_breakout_insights (sqrtQ : Q -> Q) (df : DataFrame)
  : result (list (string * BreakoutInsight)) :=
  require_all df breakout_columns ;;;
  Ok (calculate_breakout_insights sqrtQ (rows df)).

(** The three computations run one after the other before any tab is
    drawn; the summary is what the tabs are then drawn from. *)
Definition display_insights_summary (sqrtQ : Q -> Q) (df : DataFrame)
  : result Summary :=
  rookie_insights <- calculate_rookie_insights df ;;
  consistency_insights <- calculate_consistency_insights sqrtQ df ;;
  breakout_insights <- calculate_breakout_insights sqrtQ df ;;
  Ok (mkSummary rookie_insights consistency_insights breakout_insights).

End Raw.

(** A square root for running the functions on concrete tables: exact on
    the squares of rationals, rounded down on the numerator otherwise. *)
Definition sqrt_sq (q : Q) : Q :=
  Z.sqrt (Qnum q * Zpos (Qden q)) # Qden q.

(* ------------------------------------------------------------------ *)
(** ** [calculate_weekly_trends_insights] *)

Inductive trend_error : Type :=
| ValueError.

Record WeeklyInsight : Type := mkWeeklyInsight {
  weekly_averages : list (Z * fval);
  peak_week : Z;
  valley_week : Z;
  seasonal_trend : string;
  playoff_boost : fval;
  top_playoff_performers : list (string * fval)
}.

(** [idxmax] and [idxmin] of a series indexed by week: the index of the
    first best value among the values present.  A series that holds no
    value, because it is empty or because every entry is missing, raises
    a value error (releases of the library before 3.0 returned a missing
    index, with a deprecation warning, when every entry was missing). *)
Definition arg_best (better : fval -> fval -> bool) (s : list (Z * fval))
  : trend_error + Z :=
  match filter (fun kv => notna (snd kv)) s with
  | [] => inl ValueError
  | kv :: t =>
      inr (fst (fold_left
                  (fun best kv' =>
                     if better (snd kv') (snd best) then kv' else best)
                  t kv))
  end.

Definition idxmax : list (Z * fval) -> trend_error + Z :=
  arg_best fgtb.

Definition idxmin : list (Z * fval) -> trend_error + Z :=
  arg_best fltb.

Definition fclip (lo hi x : fval) : fval :=
  if (x <? lo)%cell then lo else if (x >? hi)%cell then hi else x.

(** Pearson correlation of two columns over the rows where both values are
    present: the covariance divided by both standard deviations, brought
    back into [-1, 1]. *)
Definition corr (sqrtQ : Q -> Q) (xs ys : list fval) : fval :=
  let pairs :=
    filter (fun p => notna (fst p) && notna (snd p)) (combine xs ys) in
  match pairs with
  | [] => NaN
  | _ =>
      let n := of_nat (List.length pairs) in
      let dof := of_nat (List.length pairs - 1) in
      let mx := (fold_left fadd (map fst pairs) (Fin 0) / n)%cell in
      let my := (fold_left fadd (map snd pairs) (Fin 0) / n)%cell in
      let total f := fold_left fadd (map f pairs) (Fin 0) in
      let cov :=
        (total (fun p => (fst p - mx) * (snd p - my)) / dof)%cell in
      let vx := (total (fun p => (fst p - mx) * (fst p - mx)) / dof)%cell in
      let vy := (total (fun p => (snd p - my) * (snd p - my)) / dof)%cell in
      fclip (Fin (-1)) (Fin 1)
            (cov / Frame.fsqrt sqrtQ vx / Frame.fsqrt sqrtQ vy)%cell
  end.

Definition playoff_week (r : Observation) : bool :=
  existsb (Z.eqb (week r)) [15; 16; 17]%Z.

(** [range(1, 15)]: weeks 1 to 14. *)
Definition regular_week (r : Observation) : bool :=
  (1 <=? week r)%Z && (week r <? 15)%Z.

Definition playoff_minus_regular (l : list Observation) : fval :=
  (Frame.mean (map points (filter playoff_week l))
   - Frame.mean (map points (filter regular_week l)))%cell.

Definition weekly_position_insight (sqrtQ : Q -> Q)
  (df : list Observation) (pos : string) : trend_error + WeeklyInsight :=
  let pos_data := filter (fun r => position r =? pos) df in
  let weekly_avg :=
    map (fun g => (fst g, Frame.mean (map points (snd g))))
        (Frame.groupby week Z.eqb Z.leb pos_data) in
  match idxmax weekly_avg with
  | inl e => inl e
  | inr peak =>
      match idxmin weekly_avg with
      | inl e => inl e
      | inr valley =>
          let correlation :=
            corr sqrtQ (map (fun r => Fin (inject_Z (week r))) pos_data)
                 (map points pos_data) in
          let player_playoff_performance :=
            Frame.sort_rows
              (fun a b => Frame.desc (snd a) (snd b))
              (map (fun g => (fst g, playoff_minus_regular (snd g)))
                   (Frame.groupby player_display_name String.eqb String.leb
                      pos_data)) in
          inr {| weekly_averages := weekly_avg;
                 peak_week := peak;
                 valley_week := valley;
                 seasonal_trend :=
                   if (correlation >? Fin (1 # 10))%cell then "increasing"
                   else if (correlation <? Fin (- (1 # 10)))%cell
                        then "decreasing"
                        else "stable";
                 playoff_boost := playoff_minus_regular pos_data;
                 top_playoff_performers :=
                   Frame.head 5 player_playoff_performance |}
      end
  end.

(** The loop over the positions, ended by the first error. *)
Fixpoint weekly_trends_loop (f : string -> trend_error + WeeklyInsight)
  (ps : list string) : trend_error + list (string * WeeklyInsight) :=
  match ps with
  | [] => inr []
  | p :: t =>
      match f p with
      | inl e => inl e
      | inr a =>
          match weekly_trends_loop f t with
          | inl e => inl e
          | inr rest => inr ((p, a) :: rest)
          end
      end
  end.

Definition calculate_weekly_trends_insights (sqrtQ : Q -> Q)
  (df : list Observation) : trend_error + list (string * WeeklyInsight) :=
  weekly_trends_loop (weekly_position_insight sqrtQ df) positions.

(* ------------------------------------------------------------------ *)
(** ** Vocabulary of the statements and sample tables *)

(** The label the classifier gives to one observation of the table. *)
Definition rookie_label (df : list Observation) (o : Observation) : RookieRow :=
  let m :=
    Frame.min_int
      (map season (Frame.group_rows player_id String.eqb (player_id o) df)) in
  mkRookieRow o m
    (match m with Some s => (season o =? s)%Z | None => false end).

(** The numbers present in a column. *)
Definition present (l : list fval) : list Q :=
  flat_map (fun x => match x with Fin q => [q] | _ => [] end) l.

Definition Qsum (l : list Q) : Q := fold_left Qplus l 0.

(** A column without infinities: every cell is a number or missing. *)
Definition no_inf (l : list fval) : Prop :=
  Forall (fun x => match x with PInf | NInf => False | _ => True end) l.

(** A table with one rookie quarterback and no veteran, and a table whose
    only veteran game scored zero. *)
Definition rookies_only : list Observation :=
  [mkObs "00-01" "Ann" "QB" 2024 1 (Some 10)].

Definition veteran_scoring_zero : list Observation :=
  [mkObs "00-01" "Ann" "QB" 2023 1 (Some 10);
   mkObs "00-01" "Ann" "QB" 2024 1 (Some 0)].

(** A table in which one tight end played a single game. *)
Definition one_game_table : list Observation :=
  [mkObs "00-07" "Dee" "TE" 2024 1 (Some 12);
   mkObs "00-08" "Eli" "TE" 2024 1 (Some 7);
   mkObs "00-08" "Eli" "TE" 2024 2 (Some 9)].

(** A table in which one running back scored 16, 20 and 24 points: mean
    20, sample standard deviation 4. *)
Definition steady_back : list Observation :=
  [mkObs "00-03" "Cy" "RB" 2023 1 (Some 16);
   mkObs "00-03" "Cy" "RB" 2024 1 (Some 20);
   mkObs "00-03" "Cy" "RB" 2024 2 (Some 24)].

(** A quarterback with two weekly games, both in season 2024. *)
Definition two_games_one_season : list Observation :=
  [mkObs "00-01" "Ann" "QB" 2024 1 (Some 20);
   mkObs "00-01" "Ann" "QB" 2024 2 (Some 30)].

(** A table that has every column but [week]. *)
Definition frame_without_week : DataFrame :=
  mkDataFrame
    ["player_id"; "player_display_name"; "position"; "season";
     "fantasy_points_ppr"]
    one_game_table.

(** Eleven quarterbacks who each went from 10 to 100 points. *)
Definition eleven_breakouts : list Observation :=
  flat_map
    (fun id => [mkObs id id "QB" 2023 1 (Some 10);
                mkObs id id "QB" 2024 1 (Some 100)])
    ["a01"; "a02"; "a03"; "a04"; "a05"; "a06"; "a07"; "a08"; "a09"; "a10";
     "a11"].



(** The players of one season and position, with their season totals. *)
Definition players_of (df : list Observation) (s : Z) (pos : string)
  : list SeasonStat :=
  filter (fun t => s_position t =? pos)
         (filter (fun t => (s_season t =? s)%Z) (season_totals df)).

(** Descending order of two season totals, both numbers. *)
Definition total_ge (a b : SeasonStat) : Prop :=
  exists qa qb,
    s_fantasy_points_ppr a = Fin qa /\ s_fantasy_points_ppr b = Fin qb /\
    qb <= qa.

(** A player is kept when the table holds two of the player's rows with
    different seasons. *)
Definition multi_season (df : list Observation) (p : string) : Prop :=
  exists o1 o2,
    In o1 df /\ In o2 df /\ player_id o1 = p /\ player_id o2 = p /\
    season o1 <> season o2.

(** The season total a row is compared with, given the rows placed before
    it, latest first. *)
Definition prev_of (before : list SeasonStat) (t : SeasonStat) : fval :=
  match find (fun p => s_player_id p =? s_player_id t) before with
  | Some p => s_fantasy_points_ppr p
  | None => NaN
  end.

Fixpoint yoy_from (seen l : list SeasonStat) : list YoYRow :=
  match l with
  | [] => []
  | r :: t => yoy_row r (prev_of seen r) :: yoy_from (r :: seen) t
  end.

(** What is above or below a threshold: a number on the right side of
    it, or the infinity of that side; a missing value is neither. *)
Definition exceeds (x : fval) (c : Q) : Prop :=
  match x with Fin q => c < q | PInf => True | _ => False end.

Definition below (x : fval) (c : Q) : Prop :=
  match x with Fin q => q < c | NInf => True | _ => False end.

(** The place of a row with an infinite percentage in a list of ten: the
    row is listed unless ten rows with that infinite percentage fill the
    list, and only rows with that percentage are listed ahead of it. *)
Definition ranked_with_infinity (inf : fval) (y : YoYRow)
  (l : list YoYRow) : Prop :=
  (In y l \/
   (List.length l = 10%nat /\
    forall z, In z l -> yoy_change_pct z = inf)) /\
  forall l1 l2, l = (l1 ++ y :: l2)%list ->
    forall z, In z l1 -> yoy_change_pct z = inf.

(** Ann goes from 100 to 160 points; Bob scored nothing in 2023 and 60
    points in 2024. *)
Definition zero_base : list Observation :=
  [mkObs "00-01" "Ann" "QB" 2023 1 (Some 100);
   mkObs "00-01" "Ann" "QB" 2024 1 (Some 160);
   mkObs "00-02" "Bob" "QB" 2023 1 (Some 0);
   mkObs "00-02" "Bob" "QB" 2024 1 (Some 60)].

Definition bob_2024 : YoYRow :=
  yoy_row (mkSeasonStat "00-02" "Bob" "QB" 2024 (Fin 60)) (Fin 0).

(** One player with three weekly games: two in 2022, listed as wide
    receiver in week 1 (10 points) and as running back in week 2 (100
    points), and one in 2023 as running back (120 points).  The season
    totals of the player are 110 and 120. *)
Definition position_change : list Observation :=
  [mkObs "00-01" "Ann" "WR" 2022 1 (Some 10);
   mkObs "00-01" "Ann" "RB" 2022 2 (Some 100);
   mkObs "00-01" "Ann" "RB" 2023 1 (Some 120)].

(** Season totals 100 then 160, and 200 then 90. *)
Definition riser_and_faller : list Observation :=
  [mkObs "00-01" "Ann" "WR" 2022 1 (Some 100);
   mkObs "00-01" "Ann" "WR" 2023 1 (Some 160);
   mkObs "00-02" "Bob" "WR" 2022 1 (Some 200);
   mkObs "00-02" "Bob" "WR" 2023 1 (Some 90)].

(** Ten running backs with totals 10, 20, ..., 100 in one season. *)
Definition ten_backs : list Observation :=
  map (fun n : Z =>
         mkObs (String (ascii_of_nat (Z.to_nat (64 + n))) "") "back" "RB"
               2024 1 (Some (inject_Z (10 * n))))
      [1; 2; 3; 4; 5; 6; 7; 8; 9; 10]%Z.

(** [picks] is a selection of the best rows of [all]: it is in descending
    order of the score, missing scores last, and a row of [all] that was
    not picked is ranked no better than any pick. *)
Definition best_first {A B} (all : list A) (key : A -> fval)
  (proj : A -> B) (score : B -> fval) (picks : list B) : Prop :=
  StronglySorted (fun x y => Frame.desc (score x) (score y) = true) picks /\
  forall a, In a all ->
    In (proj a) picks \/
    forall x, In x picks -> Frame.desc (score x) (key a) = true.

(** One wide receiver with sixteen weekly games of 10 and 14 points in
    turn, and one with a single game. *)
Definition full_season : list Observation :=
  (map (fun w : Z =>
          mkObs "00-05" "Flo" "WR" 2024 w
                (Some (if Z.even w then 14 else 10)))
       [1; 2; 3; 4; 5; 6; 7; 8; 9; 10; 11; 12; 13; 14; 15; 16]%Z
   ++ [mkObs "00-06" "Gus" "WR" 2024 1 (Some 30)])%list.

(** A table with rows at each of the four positions: a quarterback with
    games in weeks 1, 2, 15 and 18, and a tight end whose only game has no
    points recorded. *)
Definition four_positions : list Observation :=
  [mkObs "00-01" "Ann" "QB" 2024 1 (Some 10);
   mkObs "00-01" "Ann" "QB" 2024 2 (Some 20);
   mkObs "00-01" "Ann" "QB" 2024 15 (Some 30);
   mkObs "00-01" "Ann" "QB" 2024 18 (Some 100);
   mkObs "00-02" "Bob" "RB" 2024 1 (Some 5);
   mkObs "00-03" "Cy" "WR" 2024 1 (Some 5);
   mkObs "00-04" "Dee" "TE" 2024 1 None].

(** The first column of a list that the table lacks. *)
Definition first_missing (df : DataFrame) (cols : list string)
  : option string :=
  find (fun c => negb (existsb (String.eqb c) (columns df))) cols.

(* ------------------------------------------------------------------ *)
(** ** Properties of the dataframe operations *)

Section SortFacts.
Context {A : Type}.
Variable leb : A -> A -> bool.

Lemma insert_row_perm (x : A) (l : list A) :
  Permutation (Frame.insert_row leb x l) (x :: l).
Proof.
  induction l as [|y t IH]; simpl.
  - apply Permutation_refl.
  - destruct (leb x y).
    + apply Permutation_refl.
    + eapply perm_trans; [apply perm_skip, IH | apply perm_swap].
Qed.

Lemma sort_rows_perm (l : list A) : Permutation (Frame.sort_rows leb l) l.
Proof.
  induction l as [|x t IH]; simpl.
  - constructor.
  - eapply perm_trans; [apply insert_row_perm | now apply perm_skip].
Qed.

Lemma sort_rows_In (l : list A) (x : A) :
  In x (Frame.sort_rows leb l) <-> In x l.
Proof.
  split; apply Permutation_in;
    [apply sort_rows_perm | apply Permutation_sym, sort_rows_perm].
Qed.

Lemma sort_rows_length (l : list A) :
  List.length (Frame.sort_rows leb l) = List.length l.
Proof. apply Permutation_length, sort_rows_perm. Qed.

Hypothesis leb_total : forall x y, leb x y = true \/ leb y x = true.
Hypothesis leb_trans :
  forall x y z, leb x y = true -> leb y z = true -> leb x z = true.

Let le (x y : A) : Prop := leb x y = true.

Lemma insert_row_sorted (x : A) (l : list A) :
  StronglySorted le l -> StronglySorted le (Frame.insert_row leb x l).
Proof.
  induction 1 as [|y t Hs IH Hall]; simpl.
  - constructor; constructor.
  - destruct (leb x y) eqn:E.
    + constructor.
      * now constructor.
      * constructor; [exact E|].
        eapply Forall_impl; [|exact Hall].
        intros z Hz. eapply leb_trans; eauto.
    + constructor; [exact IH|].
      assert (Hyx : le y x) by (destruct (leb_total x y); [congruence|auto]).
      rewrite Forall_forall in *. intros z Hz.
      apply (Permutation_in _ (insert_row_perm x t)) in Hz.
      destruct Hz as [<-|Hz]; auto.
Qed.

Lemma sort_rows_sorted (l : list A) :
  StronglySorted le (Frame.sort_rows leb l).
Proof.
  induction l as [|x t IH]; simpl.
  - constructor.
  - now apply insert_row_sorted.
Qed.
End SortFacts.

(** In a sorted table a row placed before another one is below it. *)
Lemma sorted_app_le {A} (R : A -> A -> Prop) (l1 l2 : list A) (x y : A) :
  StronglySorted R (l1 ++ x :: l2) -> In y l2 -> R x y.
Proof.
  induction l1 as [|a t IH]; simpl; intros Hs Hy.
  - inversion Hs as [|? ? _ Hall]; subst.
    rewrite Forall_forall in Hall. auto.
  - inversion Hs; subst. auto.
Qed.

Section KeyFacts.
Context {K : Type}.
Variable keqb : K -> K -> bool.
Hypothesis keqb_spec : forall a b, keqb a b = true <-> a = b.

Lemma keqb_refl (a : K) : keqb a a = true.
Proof. now apply keqb_spec. Qed.

Lemma unique_In (l : list K) (k : K) : In k (Frame.unique keqb l) <-> In k l.
Proof.
  induction l as [|a t IH]; simpl; [tauto|].
  rewrite filter_In, IH.
  destruct (keqb a k) eqn:E.
  - apply keqb_spec in E. subst. simpl. intuition discriminate.
  - simpl. split.
    + intros [H|[H _]]; auto.
    + intros [H|H]; [subst; rewrite keqb_refl in E; discriminate|auto].
Qed.

Lemma unique_NoDup (l : list K) : NoDup (Frame.unique keqb l).
Proof.
  induction l as [|a t IH]; simpl; constructor.
  - rewrite filter_In. intros [_ H]. now rewrite keqb_refl in H.
  - now apply NoDup_filter.
Qed.

(** Looking a key up in a table without duplicate keys. *)
Lemma filter_key_NoDup {B} (f : K -> B) (ks : list K) (k : K) :
  NoDup ks -> In k ks ->
  filter (fun b => keqb k (fst b)) (map (fun x => (x, f x)) ks) = [(k, f k)].
Proof.
  induction ks as [|a t IH]; simpl; intros Hnd Hin; [tauto|].
  inversion Hnd as [|? ? Hna Hnt]; subst.
  destruct (keqb k a) eqn:E.
  - apply keqb_spec in E. subst a. f_equal.
    clear IH Hin Hnd Hnt. induction t as [|b u IHu]; simpl; auto.
    destruct (keqb k b) eqn:E.
    + apply keqb_spec in E. subst. exfalso. apply Hna. now left.
    + apply IHu. intro H. apply Hna. now right.
  - destruct Hin as [->|Hin].
    + now rewrite keqb_refl in E.
    + now apply IH.
Qed.
End KeyFacts.

Lemma group_rows_In {A K} (key : A -> K) (keqb : K -> K -> bool)
  (keqb_spec : forall a b, keqb a b = true <-> a = b)
  (l : list A) (k : K) (r : A) :
  In r (Frame.group_rows key keqb k l) <-> In r l /\ key r = k.
Proof.
  unfold Frame.group_rows. rewrite filter_In, keqb_spec. tauto.
Qed.

Section GroupFacts.
Context {A K : Type}.
Variable key : A -> K.
Variable keqb : K -> K -> bool.
Variable kleb : K -> K -> bool.
Hypothesis keqb_spec : forall a b, keqb a b = true <-> a = b.

Lemma group_keys_In (l : list A) (k : K) :
  In k (Frame.sort_rows kleb (Frame.unique keqb (map key l)))
  <-> exists r, In r l /\ key r = k.
Proof.
  rewrite sort_rows_In, (unique_In keqb keqb_spec), in_map_iff.
  split; intros [r [H1 H2]]; exists r; auto.
Qed.

Lemma group_keys_NoDup (l : list A) :
  NoDup (Frame.sort_rows kleb (Frame.unique keqb (map key l))).
Proof.
  eapply Permutation_NoDup.
  - apply Permutation_sym, sort_rows_perm.
  - now apply unique_NoDup.
Qed.

Lemma groupby_In (l : list A) (k : K) (g : list A) :
  In (k, g) (Frame.groupby key keqb kleb l)
  <-> (exists r, In r l /\ key r = k) /\ g = Frame.group_rows key keqb k l.
Proof.
  unfold Frame.groupby. rewrite in_map_iff. split.
  - intros [k' [E Hin]]. inversion E; subst.
    split; [now apply group_keys_In|reflexivity].
  - intros [Hk ->]. exists k. split; [reflexivity|now apply group_keys_In].
Qed.

(** The group table has one row per key: looking up the key of a row of
    the table finds exactly the group of that row. *)
Lemma groupby_lookup {B} (f : K * list A -> B) (l : list A) (r : A) :
  In r l ->
  filter (fun b => keqb (key r) (fst b))
         (map (fun g => (fst g, f g)) (Frame.groupby key keqb kleb l))
  = [(key r, f (key r, Frame.group_rows key keqb (key r) l))].
Proof.
  intro Hin. unfold Frame.groupby. rewrite map_map. simpl.
  apply (filter_key_NoDup keqb keqb_spec
           (fun k => f (k, Frame.group_rows key keqb k l))).
  - apply group_keys_NoDup.
  - apply group_keys_In. now exists r.
Qed.
End GroupFacts.

Lemma pair_eqb_spec {A B} (ea : A -> A -> bool) (eb : B -> B -> bool) :
  (forall x y, ea x y = true <-> x = y) ->
  (forall x y, eb x y = true <-> x = y) ->
  forall x y, Key.pair_eqb ea eb x y = true <-> x = y.
Proof.
  intros Ha Hb [a b] [a' b']. unfold Key.pair_eqb. simpl.
  rewrite andb_true_iff, Ha, Hb. split.
  - intros [-> ->]. reflexivity.
  - intro E. inversion E. auto.
Qed.

Lemma stat_key_eqb_spec (x y : string * (string * (string * Z))) :
  stat_key_eqb x y = true <-> x = y.
Proof.
  unfold stat_key_eqb.
  apply pair_eqb_spec; [apply String.eqb_eq|].
  apply pair_eqb_spec; [apply String.eqb_eq|].
  apply pair_eqb_spec; [apply String.eqb_eq|apply Z.eqb_eq].
Qed.

Lemma flat_map_singleton {A B} (f : A -> list B) (g : A -> B) (l : list A) :
  (forall a, In a l -> f a = [g a]) -> flat_map f l = map g l.
Proof.
  induction l as [|a t IH]; simpl; intro H; [reflexivity|].
  rewrite (H a) by now left. simpl. f_equal. apply IH. intros; apply H; now right.
Qed.

Lemma fold_min_le (l : list Z) (x : Z) :
  (fold_left Z.min l x <= x)%Z /\
  (forall y, In y l -> (fold_left Z.min l x <= y)%Z) /\
  (fold_left Z.min l x = x \/ In (fold_left Z.min l x) l).
Proof.
  revert x. induction l as [|a t IH]; simpl; intro x.
  - split; [lia|]. split; [tauto|now left].
  - destruct (IH (Z.min x a)) as [H1 [H2 H3]].
    split; [lia|]. split.
    + intros y [<-|Hy]; [lia|auto].
    + destruct H3 as [H3|H3]; [|auto].
      rewrite H3. destruct (Z.min_spec x a) as [[_ ->]|[_ ->]]; auto.
Qed.

Lemma min_int_spec (l : list Z) (x : Z) :
  In x l ->
  exists m, Frame.min_int l = Some m /\ In m l /\
            forall y, In y l -> (m <= y)%Z.
Proof.
  destruct l as [|a t]; simpl; [tauto|]. intros _.
  destruct (fold_min_le t a) as [H1 [H2 H3]].
  exists (fold_left Z.min t a). split; [reflexivity|]. split.
  - destruct H3 as [->|H3]; auto.
  - intros y [<-|Hy]; auto.
Qed.

(* ------------------------------------------------------------------ *)
(** ** Rookie classifier *)

Lemma df_with_rookie_unfold (df : list Observation) :
  df_with_rookie df = map (rookie_label df) df.
Proof.
  unfold df_with_rookie, Frame.merge_left, player_first_season.
  rewrite (flat_map_singleton _
             (fun a => (a, Some (player_id a,
                Frame.min_int (map season
                  (Frame.group_rows player_id String.eqb (player_id a) df)))))).
  - rewrite map_map. reflexivity.
  - intros a Ha.
    rewrite (groupby_lookup player_id String.eqb String.leb String.eqb_eq
               (fun g => Frame.min_int (map season (snd g))) df a Ha).
    reflexivity.
Qed.

Lemma rookie_label_min (df : list Observation) (o : Observation) :
  In o df ->
  exists m,
    rookie_season (rookie_label df o) = Some m /\
    is_rookie (rookie_label df o) = (season o =? m)%Z /\
    (exists o', In o' df /\ player_id o' = player_id o /\ season o' = m) /\
    (forall o', In o' df -> player_id o' = player_id o -> (m <= season o')%Z).
Proof.
  intro Ho. unfold rookie_label.
  destruct (min_int_spec
              (map season
                 (Frame.group_rows player_id String.eqb (player_id o) df))
              (season o)) as [m [Hm [Hin Hle]]].
  { apply in_map. apply (group_rows_In _ _ String.eqb_eq). auto. }
  exists m. simpl. rewrite Hm. repeat split; auto.
  - apply in_map_iff in Hin. destruct Hin as [o' [E Ho']].
    apply (group_rows_In _ _ String.eqb_eq) in Ho'. exists o'. tauto.
  - intros o' Ho' Hp. apply Hle. apply in_map.
    apply (group_rows_In _ _ String.eqb_eq). auto.
Qed.

(** C1. Every observation of the working table is labelled once; it is
    marked rookie exactly when its season is the minimum season over all
    the rows of the same player in that table.  Hence each player has one
    rookie season, the minimum, every row of that season being marked and
    every row of another season unmarked; a player observed in a single
    season has all rows marked. *)
Theorem rookie_iff_minimum_season (df : list Observation) :
  map obs (df_with_rookie df) = df /\
  (forall r : RookieRow, In r (df_with_rookie df) ->
     (is_rookie r = true <->
      forall o, In o df -> player_id o = player_id r ->
                (season r <= season o)%Z)) /\
  (forall p, (exists o, In o df /\ player_id o = p) ->
     exists s0,
       (exists o, In o df /\ player_id o = p /\ season o = s0) /\
       (forall o, In o df -> player_id o = p -> (s0 <= season o)%Z) /\
       (forall r : RookieRow, In r (df_with_rookie df) -> player_id r = p ->
          (is_rookie r = true <-> season r = s0))) /\
  (forall p s, (forall o, In o df -> player_id o = p -> season o = s) ->
     forall r : RookieRow, In r (df_with_rookie df) -> player_id r = p ->
       is_rookie r = true).
Proof.
  rewrite df_with_rookie_unfold.
  assert (Hrow : forall r : RookieRow, In r (map (rookie_label df) df) ->
            In (obs r) df /\
            exists m, is_rookie r = (season r =? m)%Z /\
              (exists o', In o' df /\ player_id o' = player_id r /\
                          season o' = m) /\
              (forall o', In o' df -> player_id o' = player_id r ->
                          (m <= season o')%Z)).
  { intros r Hr. apply in_map_iff in Hr. destruct Hr as [o [<- Ho]].
    split; [exact Ho|].
    destruct (rookie_label_min df o Ho) as [m [_ [H2 [H3 H4]]]].
    exists m. auto. }
  split; [|split; [|split]].
  - rewrite map_map. simpl. apply map_id.
  - intros r Hr. destruct (Hrow r Hr) as [Ho [m [Hi [[o' [Ho' [Hp Hs]]] Hmin]]]].
    rewrite Hi, Z.eqb_eq. split.
    + intros -> o Hin Hpo. auto.
    + intros H. specialize (H o' Ho' Hp). specialize (Hmin (obs r) Ho eq_refl).
      lia.
  - intros p [o [Ho Hp]].
    destruct (rookie_label_min df o Ho) as [m [_ [_ [H3 H4]]]].
    exists m. rewrite Hp in *. split; [exact H3|]. split; [exact H4|].
    intros r Hr Hpr.
    destruct (Hrow r Hr) as [Hor [m' [Hi [[o' [Ho' [Hp' Hs']]] Hmin']]]].
    rewrite Hi, Z.eqb_eq.
    assert (m = m'); [|subst; tauto].
    destruct H3 as [o3 [Ho3 [Hp3 Hs3]]].
    assert ((m <= m')%Z) by (rewrite <- Hs'; apply H4; congruence).
    assert ((m' <= m)%Z) by (rewrite <- Hs3; apply Hmin'; congruence).
    lia.
  - intros p s Hone r Hr Hpr.
    destruct (Hrow r Hr) as [Hor [m [Hi [[o' [Ho' [Hp' Hs']]] _]]]].
    rewrite Hi, Z.eqb_eq.
    rewrite <- Hs'. rewrite (Hone (obs r) Hor Hpr).
    symmetry. apply Hone; congruence.
Qed.

(* ------------------------------------------------------------------ *)
(** ** Reductions over columns read from the input *)

Lemma no_inf_points {A} (f : A -> Observation) (l : list A) :
  no_inf (map (fun r => points (f r)) l).
Proof.
  unfold no_inf. rewrite Forall_forall. intros x Hx.
  apply in_map_iff in Hx. destruct Hx as [r [<- _]].
  unfold points. now destruct (fantasy_points_ppr (f r)).
Qed.

Lemma no_inf_points_obs (l : list Observation) : no_inf (map points l).
Proof. exact (no_inf_points (fun r => r) l). Qed.

Lemma dropna_present (l : list fval) :
  no_inf l -> Frame.dropna l = map Fin (present l).
Proof.
  induction 1 as [|x t Hx _ IH]; simpl; [reflexivity|].
  destruct x; simpl; try tauto; now rewrite IH.
Qed.

Lemma fold_fadd_Fin (l : list Q) (a : Q) :
  fold_left fadd (map Fin l) (Fin a) = Fin (fold_left Qplus l a).
Proof.
  revert a. induction l as [|x t IH]; simpl; intro a; [reflexivity|apply IH].
Qed.

Lemma sum_present (l : list fval) :
  no_inf l -> Frame.sum l = Fin (Qsum (present l)).
Proof.
  intro H. unfold Frame.sum. rewrite (dropna_present l H).
  apply fold_fadd_Fin.
Qed.

Lemma count_present (l : list fval) :
  no_inf l -> Frame.count l = List.length (present l).
Proof.
  intro H. unfold Frame.count. rewrite (dropna_present l H).
  apply length_map.
Qed.

Lemma inject_nat_pos (n : nat) : (0 < n)%nat -> 0 < inject_Z (Z.of_nat n).
Proof.
  intro H. unfold Qlt. simpl. lia.
Qed.

Lemma Qeq_bool_false_pos (q : Q) : 0 < q -> Qeq_bool q 0 = false.
Proof.
  intro H. destruct (Qeq_bool q 0) eqn:E; [|reflexivity].
  apply Qeq_bool_eq in E. rewrite E in H. exfalso. now apply (Qlt_irrefl 0).
Qed.

(** The mean of a column without infinities is missing when no number is
    present and the exact average otherwise. *)
Lemma mean_present (l : list fval) :
  no_inf l ->
  Frame.mean l =
  match present l with
  | [] => NaN
  | v => Fin (Qsum v / inject_Z (Z.of_nat (List.length v)))
  end.
Proof.
  intro H. unfold Frame.mean.
  rewrite (sum_present l H), (count_present l H).
  destruct (present l) as [|x t] eqn:E.
  - reflexivity.
  - unfold fdiv, of_nat.
    rewrite Qeq_bool_false_pos; [reflexivity|].
    apply inject_nat_pos. simpl. lia.
Qed.

Lemma mean_fin_or_na (l : list fval) :
  no_inf l -> Frame.mean l = NaN \/ exists q, Frame.mean l = Fin q.
Proof.
  intro H. rewrite (mean_present l H).
  destruct (present l); [now left|right; eauto].
Qed.

(* ------------------------------------------------------------------ *)
(** ** Rookie-versus-veteran gap *)

Lemma calculate_rookie_insights_In (df : list Observation) (pos : string)
  (ins : RookieInsight) :
  In (pos, ins) (calculate_rookie_insights df) ->
  In pos positions /\ ins = rookie_position_insight (df_with_rookie df) pos.
Proof.
  unfold calculate_rookie_insights. intro H.
  apply in_map_iff in H. destruct H as [p [E Hp]].
  inversion E; subst. auto.
Qed.

Lemma Qltb_true (a b : Q) : Qltb a b = true <-> a < b.
Proof.
  unfold Qltb. rewrite negb_true_iff.
  destruct (Qle_bool b a) eqn:E.
  - apply Qle_bool_iff in E. split; [discriminate|].
    intro H. exfalso. apply (Qlt_irrefl a). eapply Qlt_le_trans; eauto.
  - split; [intros _|reflexivity].
    apply Qnot_le_lt. intro H. apply Qle_bool_iff in H. congruence.
Qed.

Lemma Qltb_false (a b : Q) : Qltb a b = false <-> b <= a.
Proof.
  unfold Qltb. rewrite negb_false_iff. apply Qle_bool_iff.
Qed.

Lemma fgtb_Fin (a b : Q) : (Fin a >? Fin b)%cell = true <-> b < a.
Proof. unfold fgtb, fltb. apply Qltb_true. Qed.

(** C6, as stated, fails: with no veteran row the veteran average is
    missing, and with a single veteran game of zero points it is zero; in
    both tables the gap percentage is reported as 0, not as missing. *)
Lemma gap_percentage_coerced_to_zero :
  (let ins := rookie_position_insight (df_with_rookie rookies_only) "QB" in
   In ("QB", ins) (calculate_rookie_insights rookies_only) /\
   veteran_avg ins = NaN /\
   gap_percentage ins = Fin 0 /\ gap_percentage ins <> NaN) /\
  (let ins :=
     rookie_position_insight (df_with_rookie veteran_scoring_zero) "QB" in
   In ("QB", ins) (calculate_rookie_insights veteran_scoring_zero) /\
   feq (veteran_avg ins) (Fin 0) /\
   gap_percentage ins = Fin 0 /\ gap_percentage ins <> NaN).
Proof.
  split; cbv zeta.
  - split; [left; reflexivity|].
    split; [vm_compute; reflexivity|].
    split; [vm_compute; reflexivity|vm_compute; discriminate].
  - split; [left; reflexivity|].
    split; [vm_compute; reflexivity|].
    split; [vm_compute; reflexivity|vm_compute; discriminate].
Qed.

(** C6, amended.  The gap percentage of a position is guarded: it is 0
    whenever the veteran average is missing, zero or negative; when the
    veteran average [v] is positive it is [(v - r) / v * 100] for a rookie
    average [r], and missing when the rookie average is missing.  Averages
    of the input column are never infinite. *)
Theorem gap_percentage_guarded (df : list Observation) (pos : string)
  (ins : RookieInsight) :
  In (pos, ins) (calculate_rookie_insights df) ->
  match veteran_avg ins, rookie_avg ins with
  | NaN, _ => gap_percentage ins = Fin 0
  | Fin v, Fin r =>
      (v <= 0 -> gap_percentage ins = Fin 0) /\
      (0 < v -> gap_percentage ins = Fin ((v - r) / v * 100))
  | Fin v, NaN =>
      (v <= 0 -> gap_percentage ins = Fin 0) /\
      (0 < v -> gap_percentage ins = NaN)
  | _, _ => False
  end.
Proof.
  intro H. apply calculate_rookie_insights_In in H. destruct H as [_ ->].
  unfold rookie_position_insight. cbv zeta. simpl.
  set (pd := filter _ (df_with_rookie df)).
  pose proof (mean_fin_or_na _
                (no_inf_points (fun r : RookieRow => obs r)
                   (filter (fun r : RookieRow => negb (is_rookie r)) pd)))
    as Hv.
  pose proof (mean_fin_or_na _
                (no_inf_points (fun r : RookieRow => obs r)
                   (filter is_rookie pd))) as Hr.
  simpl in Hv, Hr.
  set (va := Frame.mean _) in Hv |- *.
  set (ra := Frame.mean _) in Hr |- *.
  clearbody va ra.
  destruct Hv as [->|[v ->]]; destruct Hr as [->|[r ->]]; try reflexivity.
  - split; intro Hs.
    + apply Qltb_false in Hs. now rewrite Hs.
    + pose proof Hs as Hg. apply Qltb_true in Hg. rewrite Hg. reflexivity.
  - split; intro Hs.
    + apply Qltb_false in Hs. now rewrite Hs.
    + pose proof Hs as Hg. apply Qltb_true in Hg. rewrite Hg.
      unfold fsub, fneg, fadd, fdiv. rewrite (Qeq_bool_false_pos v Hs).
      reflexivity.
Qed.

Lemma gap_percentage_guarded_witness :
  let ins :=
    rookie_position_insight (df_with_rookie veteran_scoring_zero) "QB" in
  In ("QB", ins) (calculate_rookie_insights veteran_scoring_zero) /\
  match veteran_avg ins, rookie_avg ins with
  | NaN, _ => gap_percentage ins = Fin 0
  | Fin v, Fin r =>
      (v <= 0 -> gap_percentage ins = Fin 0) /\
      (0 < v -> gap_percentage ins = Fin ((v - r) / v * 100))
  | Fin v, NaN =>
      (v <= 0 -> gap_percentage ins = Fin 0) /\
      (0 < v -> gap_percentage ins = NaN)
  | _, _ => False
  end.
Proof.
  intro ins. split.
  - left; reflexivity.
  - apply (gap_percentage_guarded veteran_scoring_zero "QB" ins).
    left; reflexivity.
Defined.

(* ------------------------------------------------------------------ *)
(** ** Aggregator: standard deviation of a group of one *)

Lemma dropna_length (l : list fval) :
  (List.length (Frame.dropna l) <= List.length l)%nat.
Proof. apply filter_length_le. Qed.

Lemma std_short (sqrtQ : Q -> Q) (l : list fval) :
  (List.length l <= 1)%nat -> Frame.std sqrtQ l = NaN.
Proof.
  intro H. unfold Frame.std. cbv zeta.
  pose proof (dropna_length l) as Hd.
  destruct (Nat.leb_spec (List.length (Frame.dropna l)) 1); [reflexivity|lia].
Qed.

Lemma player_consistency_In (sqrtQ : Q -> Q) (df : list Observation)
  (pos : string) (p : PlayerConsistency) :
  In p (player_consistency sqrtQ df pos) ->
  let v :=
    map points
        (Frame.group_rows player_display_name String.eqb (player p)
           (filter (fun r => position r =? pos) df)) in
  p = mkPlayerConsistency (player p) (Frame.mean v) (Frame.std sqrtQ v)
        (Frame.count v) (Frame.min v) (Frame.max v).
Proof.
  unfold player_consistency. intro H.
  apply in_map_iff in H. destruct H as [[k g] [<- Hg]].
  apply (groupby_In _ _ _ String.eqb_eq) in Hg. destruct Hg as [_ ->].
  reflexivity.
Qed.

(** C8. In the per-player aggregate of a position, a player whose group
    holds exactly one observation has a missing standard deviation: the
    cell is [NaN], hence neither 0 nor an error.  Such a row has at most
    one game counted and is dropped by the sixteen-game filter. *)
Theorem std_of_single_observation_missing (sqrtQ : Q -> Q)
  (df : list Observation) (pos : string) (p : PlayerConsistency) :
  In p (player_consistency sqrtQ df pos) ->
  List.length
    (Frame.group_rows player_display_name String.eqb (player p)
       (filter (fun r => position r =? pos) df)) = 1%nat ->
  std_points p = NaN /\ std_points p <> Fin 0 /\
  (games p <= 1)%nat /\ (16 <=? games p)%nat = false.
Proof.
  intros Hin Hlen. apply player_consistency_In in Hin. cbv zeta in Hin.
  set (v := map points _) in Hin.
  assert (Hv : List.length v = 1%nat) by (unfold v; now rewrite length_map).
  assert (Hs : std_points p = NaN).
  { rewrite Hin. simpl. apply std_short. lia. }
  assert (Hg : (games p <= 1)%nat).
  { rewrite Hin. simpl. unfold Frame.count.
    pose proof (dropna_length v). lia. }
  split; [exact Hs|]. split; [rewrite Hs; discriminate|].
  split; [exact Hg|]. apply Nat.leb_gt. lia.
Qed.

Lemma std_of_single_observation_missing_witness :
  let p := mkPlayerConsistency "Dee" (Fin (12 # 1)) NaN 1 (Fin 12) (Fin 12) in
  In p (player_consistency sqrt_sq one_game_table "TE") /\
  List.length
    (Frame.group_rows player_display_name String.eqb (player p)
       (filter (fun r => position r =? "TE") one_game_table)) = 1%nat /\
  (std_points p = NaN /\ std_points p <> Fin 0 /\
   (games p <= 1)%nat /\ (16 <=? games p)%nat = false).
Proof.
  intro p.
  assert (Hin : In p (player_consistency sqrt_sq one_game_table "TE"))
    by (left; reflexivity).
  assert (Hlen : List.length
            (Frame.group_rows player_display_name String.eqb (player p)
               (filter (fun r => position r =? "TE") one_game_table)) = 1%nat)
    by reflexivity.
  split; [exact Hin|]. split; [exact Hlen|].
  exact (std_of_single_observation_missing sqrt_sq one_game_table "TE" p
           Hin Hlen).
Defined.

(* ------------------------------------------------------------------ *)
(** ** Recommendation scorer *)

Lemma feq_refl (x : fval) : feq x x.
Proof. destruct x; simpl; auto. reflexivity. Qed.

Lemma fmul_comm (x y : fval) : feq (x * y)%cell (y * x)%cell.
Proof.
  destruct x, y; simpl; auto; try apply feq_refl.
  apply Qmult_comm.
Qed.

Lemma fadd_feq (a a' b b' : fval) :
  feq a a' -> feq b b' -> feq (a + b)%cell (a' + b')%cell.
Proof.
  destruct a, a', b, b'; simpl; auto; try tauto.
  intros H1 H2. now rewrite H1, H2.
Qed.

Lemma player_metrics_In (sqrtQ : Q -> Q) (recent : list Observation)
  (pos : string) (p : PlayerMetrics) :
  In p (player_metrics sqrtQ recent pos) ->
  let g :=
    Frame.group_rows player_display_name String.eqb (dplayer p)
      (filter (fun r => position r =? pos) recent) in
  p = mkPlayerMetrics (dplayer p) (Frame.mean (map points g))
        (Frame.std sqrtQ (map points g)) (Frame.sum (map points g))
        (List.length g).
Proof.
  unfold player_metrics. intro H.
  apply in_map_iff in H. destruct H as [[k g] [<- Hg]].
  apply (groupby_In _ _ _ String.eqb_eq) in Hg. destruct Hg as [_ ->].
  simpl. now rewrite length_map.
Qed.

Lemma In_firstn {A} (n : nat) (l : list A) (x : A) :
  In x (firstn n l) -> In x l.
Proof.
  intro H. rewrite <- (firstn_skipn n l). apply in_or_app. now left.
Qed.

(** Every pick of a recommendation is a scored player of the filtered
    table. *)
Lemma recommendation_from_scored (sqrtQ : Q -> Q) (df : list Observation)
  (current_season : Z) (pos : string) (rec : Recommendation) :
  In (pos, rec) (generate_draft_recommendations sqrtQ df current_season) ->
  forall name score avg, In (name, score, avg) (overall_rankings rec) ->
  exists p,
    In p (experienced_players sqrtQ (recent_data df current_season) pos) /\
    name = dplayer p /\ score = draft_score (score_player p) /\
    avg = avg_ppg p.
Proof.
  unfold generate_draft_recommendations, by_position. intro H.
  apply in_flat_map in H. destruct H as [pos' [_ H]].
  unfold draft_position_recommendation in H.
  destruct (Frame.empty _); [destruct H|].
  destruct H as [H|[]]. inversion H; subst. clear H.
  intros name score avg Hin. simpl in Hin.
  apply in_map_iff in Hin. destruct Hin as [sp [E Hsp]].
  unfold Frame.nlargest in Hsp. apply In_firstn, sort_rows_In in Hsp.
  apply in_map_iff in Hsp. destruct Hsp as [p [<- Hp]].
  inversion E; subst. exists p. auto.
Qed.

(** The filter of the scorer counts the rows of a player in the window,
    not the distinct seasons. *)
Lemma experienced_players_row_count (sqrtQ : Q -> Q)
  (recent : list Observation) (pos : string) (p : PlayerMetrics) :
  In p (experienced_players sqrtQ recent pos) <->
  In p (player_metrics sqrtQ recent pos) /\
  (2 <= List.length
          (Frame.group_rows player_display_name String.eqb (dplayer p)
             (filter (fun r => (position r =? pos)%string) recent)))%nat.
Proof.
  unfold experienced_players. rewrite filter_In. split.
  - intros [Hin Hn]. split; [exact Hin|].
    apply Nat.leb_le in Hn. pose proof (player_metrics_In _ _ _ _ Hin) as E.
    cbv zeta in E. rewrite E in Hn. exact Hn.
  - intros [Hin Hn]. split; [exact Hin|].
    apply Nat.leb_le. pose proof (player_metrics_In _ _ _ _ Hin) as E.
    cbv zeta in E. rewrite E. exact Hn.
Qed.

(** C7 on the code.  The player has a single distinct season in the
    window, yet the column [seasons_played] holds 2 (the number of rows),
    the player passes the filter and is recommended in every list. *)
Lemma single_season_player_recommended :
  Frame.nunique_int (map season (recent_data two_games_one_season 2024))
  = 1%nat /\
  map (fun p => (dplayer p, seasons_played p))
      (experienced_players sqrt_sq (recent_data two_games_one_season 2024) "QB")
  = [("Ann", 2%nat)] /\
  exists rec,
    generate_draft_recommendations sqrt_sq two_games_one_season 2024
    = [("QB", rec)] /\
    map (fun x => fst (fst (fst x))) (safe_picks rec) = ["Ann"] /\
    map (fun x => fst (fst x)) (upside_picks rec) = ["Ann"] /\
    map (fun x => fst (fst x)) (overall_rankings rec) = ["Ann"].
Proof.
  split; [reflexivity|]. split; [reflexivity|].
  eexists. split; [vm_compute; reflexivity|].
  repeat split.
Qed.

(* ------------------------------------------------------------------ *)
(** ** Errors in the summary *)

(** C9, as stated, fails.  On a table without the [week] column only the
    rookie computation fails; the consistency and breakout computations
    succeed on their own, yet the summary as a whole ends with the rookie
    error and none of them is delivered. *)
Lemma missing_week_aborts_summary :
  Raw.calculate_rookie_insights frame_without_week = Err (KeyError "week") /\
  (exists c,
     Raw.calculate_consistency_insights sqrt_sq frame_without_week = Ok c) /\
  (exists b,
     Raw.calculate_breakout_insights sqrt_sq frame_without_week = Ok b) /\
  Raw.display_insights_summary sqrt_sq frame_without_week
  = Err (KeyError "week") /\
  ~ exists s, Raw.display_insights_summary sqrt_sq frame_without_week = Ok s.
Proof.
  split; [reflexivity|].
  split; [eexists; reflexivity|].
  split; [eexists; reflexivity|].
  split; [reflexivity|].
  intros [s Hs]. discriminate Hs.
Qed.

(** C9, amended.  Nothing catches the error of an insight computation:
    the summary ends with the error of the first computation that fails,
    in the order rookie, consistency, breakout, and then delivers no
    category at all; the three categories are delivered exactly when all
    three computations succeed. *)
Theorem summary_stops_at_first_error (sqrtQ : Q -> Q) (df : DataFrame) :
  match Raw.calculate_rookie_insights df with
  | inl e => Raw.display_insights_summary sqrtQ df = Err e
  | inr r =>
      match Raw.calculate_consistency_insights sqrtQ df with
      | inl e => Raw.display_insights_summary sqrtQ df = Err e
      | inr c =>
          match Raw.calculate_breakout_insights sqrtQ df with
          | inl e => Raw.display_insights_summary sqrtQ df = Err e
          | inr b =>
              Raw.display_insights_summary sqrtQ df = Ok (mkSummary r c b)
          end
      end
  end.
Proof.
  unfold Raw.display_insights_summary.
  destruct (Raw.calculate_rookie_insights df) as [e|r]; [reflexivity|].
  simpl.
  destruct (Raw.calculate_consistency_insights sqrtQ df) as [e|c];
    [reflexivity|].
  simpl.
  destruct (Raw.calculate_breakout_insights sqrtQ df) as [e|b]; reflexivity.
Qed.

(* ------------------------------------------------------------------ *)
(** ** Breakout and bust rates *)

Lemma by_position_In {A} (f : string -> option A) (pos : string) (a : A) :
  In (pos, a) (by_position f) <-> In pos positions /\ f pos = Some a.
Proof.
  unfold by_position. rewrite in_flat_map. split.
  - intros [p [Hp H]]. destruct (f p) eqn:E; [|destruct H].
    destruct H as [H|[]]. inversion H; subst. auto.
  - intros [Hp H]. exists pos. split; [exact Hp|]. rewrite H. now left.
Qed.

Lemma nlargest_length {A} (n : nat) (col : A -> fval) (l : list A) :
  List.length (Frame.nlargest n col l) = Nat.min n (List.length l).
Proof.
  unfold Frame.nlargest. now rewrite length_firstn, sort_rows_length.
Qed.

Lemma nsmallest_length {A} (n : nat) (col : A -> fval) (l : list A) :
  List.length (Frame.nsmallest n col l) = Nat.min n (List.length l).
Proof.
  unfold Frame.nsmallest. now rewrite length_firstn, sort_rows_length.
Qed.

Lemma rate_positive (part whole : nat) :
  (0 < whole)%nat ->
  rate part whole
  = Fin (inject_Z (Z.of_nat part) / inject_Z (Z.of_nat whole) * 100).
Proof.
  intro H. unfold rate.
  destruct (Nat.ltb_spec 0 whole) as [_|Hw]; [|lia].
  unfold of_nat, fdiv.
  rewrite (Qeq_bool_false_pos _ (inject_nat_pos whole H)). reflexivity.
Qed.

Lemma rate_bound (part whole : nat) :
  (part <= 10)%nat -> (0 < whole)%nat ->
  inject_Z (Z.of_nat part) / inject_Z (Z.of_nat whole) * 100
  <= 10 / inject_Z (Z.of_nat whole) * 100.
Proof.
  intros Hp Hw.
  apply Qmult_le_compat_r; [|discriminate].
  apply Qmult_le_compat_r.
  - change 10 with (inject_Z 10). rewrite <- Zle_Qle. lia.
  - apply Qinv_le_0_compat. apply Qlt_le_weak. now apply inject_nat_pos.
Qed.

(** C10. For a position that has valid year-over-year changes, the lists
    of breakouts and busts hold at most ten rows, and each reported rate is
    the length of the truncated list, that is the smaller of 10 and the
    number of qualifying rows, divided by the number of valid changes,
    times 100; hence a rate never exceeds 10 / (valid changes) * 100. *)
Theorem rates_from_truncated_lists (sqrtQ : Q -> Q) (df : list Observation)
  (pos : string) (ins : BreakoutInsight) :
  In (pos, ins) (calculate_breakout_insights sqrtQ df) ->
  let pos_data :=
    filter (fun r : YoYRow => s_position r =? pos) (valid_changes df) in
  let n := List.length pos_data in
  let up := List.length (filter breakout_mask pos_data) in
  let down := List.length (filter bust_mask pos_data) in
  (0 < n)%nat /\
  List.length (breakouts ins) = Nat.min up 10 /\
  List.length (busts ins) = Nat.min down 10 /\
  breakout_rate ins
  = Fin (inject_Z (Z.of_nat (Nat.min up 10)) / inject_Z (Z.of_nat n) * 100) /\
  bust_rate ins
  = Fin (inject_Z (Z.of_nat (Nat.min down 10)) / inject_Z (Z.of_nat n) * 100) /\
  inject_Z (Z.of_nat (Nat.min up 10)) / inject_Z (Z.of_nat n) * 100
  <= 10 / inject_Z (Z.of_nat n) * 100 /\
  inject_Z (Z.of_nat (Nat.min down 10)) / inject_Z (Z.of_nat n) * 100
  <= 10 / inject_Z (Z.of_nat n) * 100.
Proof.
  intros Hin pos_data n up down.
  apply by_position_In in Hin. destruct Hin as [_ Hin].
  unfold breakout_position_insight in Hin. fold pos_data in Hin.
  assert (Hn : (0 < n)%nat).
  { unfold n. destruct pos_data; [discriminate Hin|simpl; lia]. }
  destruct (Frame.empty pos_data); [discriminate Hin|].
  inversion Hin as [E]. clear Hin. simpl.
  rewrite !nlargest_length, !nsmallest_length.
  fold up down n. rewrite (Nat.min_comm 10 up), (Nat.min_comm 10 down).
  split; [exact Hn|]. split; [reflexivity|]. split; [reflexivity|].
  split; [now apply rate_positive|]. split; [now apply rate_positive|].
  split; apply rate_bound; auto; lia.
Qed.

Lemma rates_from_truncated_lists_witness :
  exists ins,
    In ("QB", ins) (calculate_breakout_insights sqrt_sq eleven_breakouts) /\
    List.length
      (filter breakout_mask
         (filter (fun r : YoYRow => s_position r =? "QB")
            (valid_changes eleven_breakouts))) = 11%nat /\
    List.length (breakouts ins) = 10%nat /\
    feq (breakout_rate ins) (Fin (1000 # 11)).
Proof.
  eexists. split; [left; vm_compute; reflexivity|].
  split; [vm_compute; reflexivity|].
  match goal with
  | |- List.length (breakouts ?i) = _ /\ _ =>
      destruct (rates_from_truncated_lists sqrt_sq eleven_breakouts "QB" i
                  (or_introl eq_refl)) as [_ [Hb [_ [Hr _]]]]
  end.
  split.
  - rewrite Hb. vm_compute. reflexivity.
  - rewrite Hr. vm_compute. reflexivity.
Defined.

(* ------------------------------------------------------------------ *)
(** ** Value ranker *)

Lemma desc_total (x y : fval) :
  Frame.desc x y = true \/ Frame.desc y x = true.
Proof.
  destruct x as [a| | |], y as [b| | |]; simpl; auto.
  unfold Frame.desc. simpl.
  destruct (Qle_bool b a) eqn:E; [now left|right].
  apply Qle_bool_iff. apply Qlt_le_weak. apply Qnot_le_lt.
  intro H. apply Qle_bool_iff in H. congruence.
Qed.

Lemma desc_trans (x y z : fval) :
  Frame.desc x y = true -> Frame.desc y z = true -> Frame.desc x z = true.
Proof.
  destruct x as [a| | |], y as [b| | |], z as [c| | |];
    unfold Frame.desc; simpl; auto; try discriminate.
  rewrite !Qle_bool_iff. intros H1 H2. eapply Qle_trans; eauto.
Qed.

Lemma sort_values_desc_sorted {A} (col : A -> fval) (l : list A) :
  StronglySorted (fun a b => Frame.desc (col a) (col b) = true)
                 (Frame.sort_values_desc col l).
Proof.
  unfold Frame.sort_values_desc.
  apply (sort_rows_sorted (fun a b => Frame.desc (col a) (col b))).
  - intros x y. apply desc_total.
  - intros x y z. apply desc_trans.
Qed.

Lemma StronglySorted_weaken {A} (R R' : A -> A -> Prop) (P : A -> Prop)
  (l : list A) :
  (forall a b, P a -> P b -> R a b -> R' a b) ->
  Forall P l -> StronglySorted R l -> StronglySorted R' l.
Proof.
  intros HR HP Hs. induction Hs as [|a t Hs IH Hall]; constructor.
  - apply IH. now inversion HP.
  - inversion HP as [|? ? Pa Pt]; subst.
    rewrite Forall_forall in *. intros b Hb. apply HR; auto.
Qed.

(** The last row of a non-empty table is the row at position length - 1. *)
Lemma iloc_last_nth {A} (l : list A) :
  Frame.iloc_last l = nth_error l (List.length l - 1).
Proof.
  unfold Frame.iloc_last.
  destruct (rev l) as [|x r] eqn:E.
  - assert (l = []) by (rewrite <- (rev_involutive l), E; reflexivity).
    subst. reflexivity.
  - assert (Hl : l = (rev r ++ [x])%list)
      by (rewrite <- (rev_involutive l), E; reflexivity).
    rewrite Hl, length_app. simpl.
    replace (List.length (rev r) + 1 - 1)%nat with (List.length (rev r)) by lia.
    rewrite nth_error_app2 by lia. now rewrite Nat.sub_diag.
Qed.

(** Every season total is a number: the sum skips missing points. *)
Lemma season_totals_finite (df : list Observation) (t : SeasonStat) :
  In t (season_totals df) -> exists q, s_fantasy_points_ppr t = Fin q.
Proof.
  unfold season_totals. intro H.
  apply in_map_iff in H. destruct H as [g [<- _]]. simpl.
  rewrite (sum_present _ (no_inf_points_obs (snd g))). eauto.
Qed.

Lemma replacement_ranks_positive (pos : string) :
  (1 <= replacement_ranks pos)%nat.
Proof.
  unfold replacement_ranks.
  repeat match goal with |- context [if ?b then _ else _] => destruct b end;
    lia.
Qed.

(** The row the replacement value is read from always exists in a
    non-empty table. *)
Lemma replacement_row_ok (rank : nat) (l : list SeasonStat) :
  (1 <= rank)%nat -> l <> [] ->
  exists r,
    replacement_row rank l = Ok r /\
    Some r = if (rank <=? List.length l)%nat
             then nth_error l (rank - 1)
             else nth_error l (List.length l - 1).
Proof.
  intros Hr Hl. unfold replacement_row, iloc_exn, iloc_last_exn, Frame.iloc.
  rewrite iloc_last_nth.
  assert (Hlen : (0 < List.length l)%nat)
    by (destruct l; [congruence|simpl; lia]).
  destruct (Nat.leb_spec rank (List.length l)).
  - destruct (nth_error l (rank - 1)) as [r|] eqn:E; [eauto|].
    apply nth_error_None in E. lia.
  - destruct (nth_error l (List.length l - 1)) as [r|] eqn:E; [eauto|].
    apply nth_error_None in E. lia.
Qed.

Lemma value_position_insight_ok (sqrtQ : Q -> Q)
  (season_data : list SeasonStat) (pos : string) :
  let ranked :=
    Frame.sort_values_desc s_fantasy_points_ppr
      (filter (fun s => s_position s =? pos) season_data) in
  (ranked = [] /\ value_position_insight sqrtQ season_data pos = Ok None) \/
  (ranked <> [] /\
   exists v,
     value_position_insight sqrtQ season_data pos = Ok (Some v) /\
     Some (replacement_value v)
     = if (replacement_ranks pos <=? List.length ranked)%nat
       then nth_error (map s_fantasy_points_ppr ranked)
                      (replacement_ranks pos - 1)
       else nth_error (map s_fantasy_points_ppr ranked)
                      (List.length ranked - 1)).
Proof.
  intro ranked. unfold value_position_insight. fold ranked.
  clearbody ranked.
  destruct ranked as [|x t]; [left; auto|right].
  split; [discriminate|].
  destruct (replacement_row_ok (replacement_ranks pos) (x :: t)
              (replacement_ranks_positive pos)) as [r [Hr Hn]];
    [discriminate|].
  cbn [Frame.empty]. rewrite Hr. cbn [bind].
  eexists. split; [reflexivity|]. cbn [replacement_value].
  rewrite !nth_error_map.
  destruct (replacement_ranks pos <=? List.length (x :: t))%nat;
    rewrite <- Hn; reflexivity.
Qed.

Lemma collect_positions_ok {A} (f : string -> result (option A))
  (ps : list string) :
  (forall p, In p ps -> exists o, f p = Ok o) ->
  exists l,
    collect_positions f ps = Ok l /\
    forall p a, In (p, a) l <-> In p ps /\ f p = Ok (Some a).
Proof.
  induction ps as [|p t IH]; intro H.
  - exists []. split; [reflexivity|]. simpl. tauto.
  - destruct (H p (or_introl eq_refl)) as [o Ho].
    destruct IH as [l [Hl Hin]]; [intros; apply H; now right|].
    simpl. rewrite Ho, Hl. simpl.
    eexists. split; [reflexivity|].
    intros q a. unfold Ok in *.
    destruct o as [b|]; simpl; rewrite ?Hin; split.
    + intros [E|[Hq Hf]]; [inversion E; subst; auto|auto].
    + intros [[->|Hq] Hf]; [left; congruence|right; auto].
    + intros [Hq Hf]. auto.
    + intros [[->|Hq] Hf]; [congruence|auto].
Qed.

Lemma collect_seasons_ok {A} (f : Z -> result A) (ss : list Z) :
  (forall s, In s ss -> exists a, f s = Ok a) ->
  exists l,
    collect_seasons f ss = Ok l /\ map fst l = ss /\
    forall s a, In (s, a) l -> f s = Ok a.
Proof.
  induction ss as [|s t IH]; intro H.
  - exists []. repeat split. intros s a [].
  - destruct (H s (or_introl eq_refl)) as [a Ha].
    destruct IH as [l [Hl [Hm Hin]]]; [intros; apply H; now right|].
    simpl. rewrite Ha, Hl. simpl.
    eexists. split; [reflexivity|]. split; [simpl; now f_equal|].
    intros s' a' [E|Hi]; [inversion E; subst; auto|auto].
Qed.






(* ------------------------------------------------------------------ *)
(** ** Trend detector: order of the per-season table *)

Lemma string_leb_trans (a b c : string) :
  String.leb a b = true -> String.leb b c = true -> String.leb a c = true.
Proof.
  unfold String.leb. revert b c.
  induction a as [|x a IH]; intros [|y b] [|z c]; simpl; auto;
    try discriminate.
  unfold Ascii.compare.
  destruct (N.compare_spec (N_of_ascii x) (N_of_ascii y)) as [Exy|Lxy|Gxy];
    destruct (N.compare_spec (N_of_ascii y) (N_of_ascii z)) as [Eyz|Lyz|Gyz];
    destruct (N.compare_spec (N_of_ascii x) (N_of_ascii z)) as [Exz|Lxz|Gxz];
    auto; try discriminate; try lia.
  apply IH.
Qed.

Section PairOrder.
Context {A B : Type}.
Variable ea la : A -> A -> bool.
Variable lb : B -> B -> bool.
Hypothesis ea_spec : forall x y, ea x y = true <-> x = y.
Hypothesis la_total : forall x y, la x y = true \/ la y x = true.
Hypothesis la_trans :
  forall x y z, la x y = true -> la y z = true -> la x z = true.
Hypothesis la_antisym : forall x y, la x y = true -> la y x = true -> x = y.
Hypothesis lb_total : forall x y, lb x y = true \/ lb y x = true.
Hypothesis lb_trans :
  forall x y z, lb x y = true -> lb y z = true -> lb x z = true.

Lemma pair_leb_total (x y : A * B) :
  Key.pair_leb ea la lb x y = true \/ Key.pair_leb ea la lb y x = true.
Proof.
  unfold Key.pair_leb.
  destruct (ea (fst x) (fst y)) eqn:E.
  - apply ea_spec in E. rewrite E.
    replace (ea (fst y) (fst y)) with true
      by (symmetry; now apply ea_spec).
    apply lb_total.
  - destruct (ea (fst y) (fst x)) eqn:E'.
    + apply ea_spec in E'. rewrite E' in E.
      replace (ea (fst x) (fst x)) with true in E
        by (symmetry; now apply ea_spec).
      discriminate.
    + apply la_total.
Qed.

Lemma pair_leb_trans (x y z : A * B) :
  Key.pair_leb ea la lb x y = true -> Key.pair_leb ea la lb y z = true ->
  Key.pair_leb ea la lb x z = true.
Proof.
  unfold Key.pair_leb.
  destruct (ea (fst x) (fst y)) eqn:Exy;
    destruct (ea (fst y) (fst z)) eqn:Eyz;
    destruct (ea (fst x) (fst z)) eqn:Exz;
    try (apply ea_spec in Exy); try (apply ea_spec in Eyz);
    try (apply ea_spec in Exz); intros H1 H2.
  - eapply lb_trans; eauto.
  - exfalso. rewrite Exy, Eyz in Exz.
    assert (ea (fst z) (fst z) = true) by now apply ea_spec. congruence.
  - exfalso. rewrite <- Exy, Exz in Eyz.
    assert (ea (fst z) (fst z) = true) by now apply ea_spec. congruence.
  - now rewrite Exy.
  - exfalso. rewrite Exz, Eyz in Exy.
    assert (ea (fst z) (fst z) = true) by now apply ea_spec. congruence.
  - now rewrite <- Eyz.
  - exfalso. rewrite Exz in H1.
    assert (fst z = fst y) by now apply la_antisym.
    assert (ea (fst y) (fst z) = true) by now apply ea_spec.
    congruence.
  - eapply la_trans; eauto.
Qed.
End PairOrder.

Lemma by_player_season_total (a b : SeasonStat) :
  by_player_season a b = true \/ by_player_season b a = true.
Proof.
  unfold by_player_season.
  apply (pair_leb_total String.eqb String.leb Z.leb String.eqb_eq
           String.leb_total).
  intros x y. rewrite !Z.leb_le. lia.
Qed.

Lemma by_player_season_trans (a b c : SeasonStat) :
  by_player_season a b = true -> by_player_season b c = true ->
  by_player_season a c = true.
Proof.
  unfold by_player_season.
  apply (pair_leb_trans String.eqb String.leb Z.leb String.eqb_eq
           string_leb_trans String.leb_antisym).
  intros x y z. rewrite !Z.leb_le. lia.
Qed.

Lemma player_season_stats_sorted (df : list Observation) :
  StronglySorted (fun a b => by_player_season a b = true)
                 (player_season_stats df).
Proof.
  unfold player_season_stats.
  apply (sort_rows_sorted by_player_season by_player_season_total
           by_player_season_trans).
Qed.

Lemma by_player_season_same (a b : SeasonStat) :
  s_player_id a = s_player_id b -> by_player_season a b = true ->
  (s_season a <= s_season b)%Z.
Proof.
  unfold by_player_season, Key.pair_leb. simpl. intros ->.
  rewrite String.eqb_refl. apply Z.leb_le.
Qed.

(* ------------------------------------------------------------------ *)
(** ** Trend detector: the players kept *)

(** Two or more distinct values in an integer column. *)
Lemma nunique_two (l : list Z) :
  (2 <= Frame.nunique_int l)%nat <-> exists a b, In a l /\ In b l /\ a <> b.
Proof.
  unfold Frame.nunique_int.
  pose proof (unique_NoDup Z.eqb Z.eqb_eq l) as Hnd.
  pose proof (unique_In Z.eqb Z.eqb_eq l) as Hin.
  split.
  - destruct (Frame.unique Z.eqb l) as [|a [|b u]] eqn:E; simpl; try lia.
    intros _. exists a, b. split; [apply Hin; now left|].
    split; [apply Hin; right; now left|].
    inversion Hnd as [|? ? Hna _]; subst. intros ->. apply Hna. now left.
  - intros [a [b [Ha [Hb Hab]]]].
    apply Hin in Ha. apply Hin in Hb.
    assert (Hincl : incl [a; b] (Frame.unique Z.eqb l)).
    { intros x [<-|[<-|[]]]; assumption. }
    apply (NoDup_incl_length (l := [a; b])) in Hincl; [exact Hincl|].
    constructor; [intros [E|[]]; congruence|].
    constructor; [intros []|constructor].
Qed.

Lemma multi_season_players_In (df : list Observation) (p : string) :
  In p (multi_season_players df) <-> multi_season df p.
Proof.
  unfold multi_season_players, multi_season. rewrite in_map_iff. split.
  - intros [[k g] [<- Hg]]. apply filter_In in Hg. destruct Hg as [Hg Hn].
    apply (groupby_In _ _ _ String.eqb_eq) in Hg. destruct Hg as [_ ->].
    cbn [fst snd] in *. apply Nat.leb_le, nunique_two in Hn.
    destruct Hn as [a [b [Ha [Hb Hab]]]].
    apply in_map_iff in Ha. destruct Ha as [o1 [<- Ho1]].
    apply in_map_iff in Hb. destruct Hb as [o2 [<- Ho2]].
    apply (group_rows_In _ _ String.eqb_eq) in Ho1.
    apply (group_rows_In _ _ String.eqb_eq) in Ho2.
    exists o1, o2. tauto.
  - intros [o1 [o2 [H1 [H2 [P1 [P2 Hs]]]]]].
    exists (p, Frame.group_rows player_id String.eqb p df).
    split; [reflexivity|]. apply filter_In. split.
    + apply (groupby_In _ _ _ String.eqb_eq). split; [eauto|reflexivity].
    + cbn [fst snd]. apply Nat.leb_le, nunique_two.
      exists (season o1), (season o2).
      split; [|split; [|exact Hs]];
        apply in_map; apply (group_rows_In _ _ String.eqb_eq); auto.
Qed.

Lemma multi_season_data_In (df : list Observation) (o : Observation) :
  In o (multi_season_data df) <-> In o df /\ multi_season df (player_id o).
Proof.
  unfold multi_season_data. rewrite filter_In, <- multi_season_players_In.
  rewrite existsb_exists. split.
  - intros [Ho [p [Hp E]]]. apply String.eqb_eq in E. subst. auto.
  - intros [Ho Hp]. split; [exact Ho|].
    exists (player_id o). split; [exact Hp|apply String.eqb_refl].
Qed.

Lemma filter_filter_absorb {A} (f g : A -> bool) (l : list A) :
  (forall x, In x l -> g x = true -> f x = true) ->
  filter g (filter f l) = filter g l.
Proof.
  induction l as [|a t IH]; simpl; intro H; [reflexivity|].
  destruct (f a) eqn:Ef; simpl.
  - destruct (g a); [f_equal|]; apply IH; intros; apply H; auto.
  - destruct (g a) eqn:Eg.
    + rewrite H in Ef; auto. discriminate.
    + apply IH. intros; apply H; auto.
Qed.

(** The per-season table of the trend detector holds exactly the season
    totals of the players that have two or more seasons of data. *)
Lemma player_season_stats_In (df : list Observation) (t : SeasonStat) :
  In t (player_season_stats df) <->
  In t (season_totals df) /\ multi_season df (s_player_id t).
Proof.
  unfold player_season_stats. rewrite sort_rows_In.
  unfold season_totals. rewrite !in_map_iff. split.
  - intros [[k g] [<- Hg]].
    apply (groupby_In _ _ _ stat_key_eqb_spec) in Hg.
    destruct Hg as [[r [Hr Hk]] ->].
    apply multi_season_data_In in Hr. destruct Hr as [Hr Hm].
    assert (Hp : fst k = player_id r) by (rewrite <- Hk; reflexivity).
    simpl. rewrite Hp. split; [|exact Hm].
    exists (k, Frame.group_rows stat_key stat_key_eqb k df). split.
    + simpl. rewrite Hp. do 3 f_equal.
      unfold Frame.group_rows, multi_season_data.
      first [apply filter_filter_absorb
            |symmetry; apply filter_filter_absorb].
      intros x Hx E. apply stat_key_eqb_spec in E.
      apply existsb_exists. exists (player_id x).
      split; [|apply String.eqb_refl].
      apply multi_season_players_In.
      replace (player_id x) with (player_id r); [exact Hm|].
      change (player_id x) with (fst (stat_key x)). now rewrite E.
    + apply (groupby_In _ _ _ stat_key_eqb_spec). split; [eauto|reflexivity].
  - intros [[[k g] [<- Hg]] Hm].
    apply (groupby_In _ _ _ stat_key_eqb_spec) in Hg.
    destruct Hg as [[r [Hr Hk]] ->]. simpl in Hm.
    assert (Hp : fst k = player_id r) by (rewrite <- Hk; reflexivity).
    exists (k, Frame.group_rows stat_key stat_key_eqb k (multi_season_data df)).
    split.
    + simpl. do 3 f_equal.
      unfold Frame.group_rows, multi_season_data.
      first [apply filter_filter_absorb
            |symmetry; apply filter_filter_absorb].
      intros x Hx E. apply stat_key_eqb_spec in E.
      apply existsb_exists. exists (player_id x).
      split; [|apply String.eqb_refl].
      apply multi_season_players_In.
      replace (player_id x) with (fst k); [exact Hm|].
      change (player_id x) with (fst (stat_key x)). now rewrite E.
    + apply (groupby_In _ _ _ stat_key_eqb_spec). split; [|reflexivity].
      exists r. split; [|exact Hk].
      apply multi_season_data_In. split; [exact Hr|]. now rewrite <- Hp.
Qed.

(* ------------------------------------------------------------------ *)
(** ** Trend detector: year-over-year rows *)

Lemma with_yoy_from (seen l : list SeasonStat) :
  map (fun sp => yoy_row (fst sp) (snd sp))
      (combine l
         (Frame.group_shift s_player_id String.eqb s_fantasy_points_ppr
            seen l))
  = yoy_from seen l.
Proof.
  revert seen. induction l as [|r t IH]; intro seen; simpl; [reflexivity|].
  f_equal. apply IH.
Qed.

Lemma yoy_from_stat (seen l : list SeasonStat) :
  map stat (yoy_from seen l) = l.
Proof.
  revert seen. induction l as [|r t IH]; intro seen; simpl; [reflexivity|].
  f_equal. apply IH.
Qed.

Lemma yoy_from_length (seen l : list SeasonStat) :
  List.length (yoy_from seen l) = List.length l.
Proof. rewrite <- (yoy_from_stat seen l) at 2. now rewrite length_map. Qed.

Lemma yoy_from_app (seen l1 l2 : list SeasonStat) (r : SeasonStat) :
  yoy_from seen (l1 ++ r :: l2)
  = (yoy_from seen l1
     ++ yoy_row r (prev_of (rev l1 ++ seen) r)
     :: yoy_from (r :: rev l1 ++ seen) l2)%list.
Proof.
  revert seen. induction l1 as [|a t IH]; intro seen; simpl; [reflexivity|].
  f_equal. rewrite IH. now rewrite <- !app_assoc.
Qed.

Lemma with_yoy_nth (l1 l2 : list SeasonStat) (r : SeasonStat) :
  nth_error (with_yoy (l1 ++ r :: l2)) (List.length l1)
  = Some (yoy_row r (prev_of (rev l1) r)).
Proof.
  unfold with_yoy. rewrite with_yoy_from, yoy_from_app.
  rewrite nth_error_app2 by (rewrite yoy_from_length; lia).
  rewrite yoy_from_length, Nat.sub_diag, app_nil_r. reflexivity.
Qed.

Lemma with_yoy_In (l : list SeasonStat) (y : YoYRow) :
  In y (with_yoy l) ->
  In (stat y) l /\ y = yoy_row (stat y) (prev_season_points y) /\
  (prev_season_points y = NaN \/
   exists p, In p l /\ s_player_id p = s_player_id y /\
             prev_season_points y = s_fantasy_points_ppr p).
Proof.
  unfold with_yoy. rewrite with_yoy_from. intro H.
  apply In_nth_error in H. destruct H as [n Hn].
  assert (Hlt : (n < List.length l)%nat).
  { rewrite <- (yoy_from_length [] l). apply nth_error_Some. congruence. }
  destruct (nth_error l n) as [r|] eqn:Er;
    [|apply nth_error_None in Er; lia].
  apply nth_error_split in Er. destruct Er as [l1 [l2 [-> Hl]]].
  rewrite yoy_from_app in Hn.
  rewrite nth_error_app2 in Hn by (rewrite yoy_from_length; lia).
  rewrite yoy_from_length, Hl, Nat.sub_diag in Hn. simpl in Hn.
  inversion Hn. subst y. simpl. split; [apply in_elt|].
  split; [reflexivity|].
  unfold prev_of. rewrite app_nil_r.
  destruct (find _ (rev l1)) as [p|] eqn:Ef; [right|now left].
  apply find_some in Ef. destruct Ef as [Hp E].
  apply String.eqb_eq in E. exists p. split; [|auto].
  apply in_or_app. left. now apply in_rev.
Qed.

Lemma find_all_false {A} (f : A -> bool) (l : list A) :
  (forall x, In x l -> f x = false) -> find f l = None.
Proof.
  induction l as [|a t IH]; simpl; intro H; [reflexivity|].
  rewrite (H a) by now left. apply IH. intros; apply H; now right.
Qed.

Lemma find_skip {A} (f : A -> bool) (l1 l2 : list A) :
  (forall x, In x l1 -> f x = false) -> find f (l1 ++ l2) = find f l2.
Proof.
  induction l1 as [|a t IH]; simpl; intro H; [reflexivity|].
  rewrite (H a) by now left. apply IH. intros; apply H; now right.
Qed.

(** A row with no earlier row of the same player has nothing to be
    compared with. *)
Lemma prev_of_first (l1 : list SeasonStat) (t : SeasonStat) :
  (forall p, In p l1 -> s_player_id p <> s_player_id t) ->
  prev_of (rev l1) t = NaN.
Proof.
  intro H. unfold prev_of. rewrite find_all_false; [reflexivity|].
  intros p Hp. apply in_rev in Hp. apply String.eqb_neq. auto.
Qed.

(** Otherwise it is compared with the latest earlier row of the player. *)
Lemma prev_of_latest (l0 l' : list SeasonStat) (p t : SeasonStat) :
  s_player_id p = s_player_id t ->
  (forall x, In x l' -> s_player_id x <> s_player_id t) ->
  prev_of (rev (l0 ++ p :: l')) t = s_fantasy_points_ppr p.
Proof.
  intros Hp H. unfold prev_of.
  rewrite rev_app_distr. simpl. rewrite <- !app_assoc.
  rewrite find_skip.
  - simpl. rewrite Hp, String.eqb_refl. reflexivity.
  - intros x Hx. apply in_rev in Hx. apply String.eqb_neq. auto.
Qed.

Lemma fsub_NaN (x : fval) : (x - NaN)%cell = NaN.
Proof. now destruct x. Qed.

Lemma fgtb_exceeds (x : fval) (c : Q) :
  (x >? Fin c)%cell = true <-> exceeds x c.
Proof.
  destruct x as [q| | |]; simpl.
  - apply Qltb_true.
  - tauto.
  - split; [discriminate|tauto].
  - split; [discriminate|tauto].
Qed.

Lemma fltb_below (x : fval) (c : Q) :
  (x <? Fin c)%cell = true <-> below x c.
Proof.
  destruct x as [q| | |]; simpl.
  - apply Qltb_true.
  - split; [discriminate|tauto].
  - tauto.
  - split; [discriminate|tauto].
Qed.

Lemma player_season_stats_finite (df : list Observation) (t : SeasonStat) :
  In t (player_season_stats df) -> exists q, s_fantasy_points_ppr t = Fin q.
Proof.
  intro H. apply player_season_stats_In in H. destruct H as [H _].
  now apply season_totals_finite in H.
Qed.

Lemma nlargest_all {A} (n : nat) (col : A -> fval) (l : list A) (x : A) :
  In x (Frame.nlargest n col l) -> In x l.
Proof. unfold Frame.nlargest. intro H. now apply In_firstn, sort_rows_In in H. Qed.

Lemma nsmallest_all {A} (n : nat) (col : A -> fval) (l : list A) (x : A) :
  In x (Frame.nsmallest n col l) -> In x l.
Proof. unfold Frame.nsmallest. intro H. now apply In_firstn, sort_rows_In in H. Qed.

Lemma nlargest_short {A} (n : nat) (col : A -> fval) (l : list A) (x : A) :
  (List.length l <= n)%nat -> In x l -> In x (Frame.nlargest n col l).
Proof.
  intros Hn Hx. unfold Frame.nlargest.
  rewrite firstn_all2 by (now rewrite sort_rows_length).
  now apply sort_rows_In.
Qed.

Lemma nsmallest_short {A} (n : nat) (col : A -> fval) (l : list A) (x : A) :
  (List.length l <= n)%nat -> In x l -> In x (Frame.nsmallest n col l).
Proof.
  intros Hn Hx. unfold Frame.nsmallest.
  rewrite firstn_all2 by (now rewrite sort_rows_length).
  now apply sort_rows_In.
Qed.

(** The rows the trend detector compares.  The per-season table holds
    the totals of exactly the players with two or more seasons, one row
    per player, name, position and season, ordered by player and season.
    The first row of a player has no comparator: its delta is missing and
    the row is left out of the valid changes, so it is neither breakout nor
    bust.  Every other row is compared with the row just before it among
    the player's rows, which belongs to an earlier season or to the same
    one: its delta is the difference of the two totals, it is a valid
    change, it is a breakout exactly when the delta exceeds 50 and the
    percentage exceeds 25, a bust exactly when the delta is below -50 and
    the percentage below -25, and never both.  The reported lists hold only
    rows that pass the respective test, and all of them when at most ten
    do. *)
Lemma yoy_rows_compared (sqrtQ : Q -> Q) (df : list Observation) :
  let T := player_season_stats df in
  let Y := with_yoy T in
  map stat Y = T /\
  (forall t, In t T <->
             In t (season_totals df) /\ multi_season df (s_player_id t)) /\
  (forall l1 t l2, T = (l1 ++ t :: l2)%list ->
     (forall p, In p l1 -> s_player_id p <> s_player_id t) ->
     exists y,
       nth_error Y (List.length l1) = Some y /\ stat y = t /\
       prev_season_points y = NaN /\ yoy_change y = NaN /\
       ~ In y (valid_changes df) /\
       breakout_mask y = false /\ bust_mask y = false) /\
  (forall l0 p l' t l2, T = (l0 ++ p :: l' ++ t :: l2)%list ->
     s_player_id p = s_player_id t ->
     (forall x, In x l' -> s_player_id x <> s_player_id t) ->
     exists y qp qt,
       nth_error Y (List.length (l0 ++ p :: l')) = Some y /\ stat y = t /\
       s_fantasy_points_ppr p = Fin qp /\ s_fantasy_points_ppr t = Fin qt /\
       (s_season p <= s_season t)%Z /\
       prev_season_points y = Fin qp /\
       yoy_change y = Fin (qt - qp) /\
       yoy_change_pct y = (Fin (qt - qp) / Fin qp * Fin 100)%cell /\
       (~ qp == 0 -> yoy_change_pct y = Fin ((qt - qp) / qp * 100)) /\
       In y (valid_changes df) /\
       (breakout_mask y = true <->
        50 < qt - qp /\ exceeds (yoy_change_pct y) 25) /\
       (bust_mask y = true <->
        qt - qp < -50 /\ below (yoy_change_pct y) (-25)) /\
       (breakout_mask y = true -> bust_mask y = false)) /\
  (forall pos ins, In (pos, ins) (calculate_breakout_insights sqrtQ df) ->
     let pos_data :=
       filter (fun r : YoYRow => s_position r =? pos) (valid_changes df) in
     (forall y, In y (breakouts ins) ->
                In y pos_data /\ breakout_mask y = true) /\
     (forall y, In y (busts ins) -> In y pos_data /\ bust_mask y = true) /\
     ((List.length (filter breakout_mask pos_data) <= 10)%nat ->
      forall y, In y pos_data -> breakout_mask y = true ->
                In y (breakouts ins)) /\
     ((List.length (filter bust_mask pos_data) <= 10)%nat ->
      forall y, In y pos_data -> bust_mask y = true -> In y (busts ins))).
Proof.
  intros T Y.
  split; [unfold Y, with_yoy; rewrite with_yoy_from; apply yoy_from_stat|].
  split; [intro t; apply player_season_stats_In|].
  split; [|split].
  - intros l1 t l2 HT Hfirst.
    exists (yoy_row t NaN).
    assert (Hn : nth_error Y (List.length l1) = Some (yoy_row t NaN)).
    { unfold Y. rewrite HT, with_yoy_nth. now rewrite prev_of_first. }
    split; [exact Hn|]. split; [reflexivity|]. split; [reflexivity|].
    assert (Hc : yoy_change (yoy_row t NaN) = NaN) by apply fsub_NaN.
    split; [exact Hc|]. split.
    + unfold valid_changes. rewrite filter_In, Hc. simpl.
      intros [_ H]. discriminate.
    + unfold breakout_mask, bust_mask. rewrite Hc. auto.
  - intros l0 p l' t l2 HT Hsame Hbetween.
    assert (Hp : In p T) by (rewrite HT; apply in_elt).
    assert (Ht : In t T).
    { rewrite HT. apply in_or_app. right. right. apply in_elt. }
    destruct (player_season_stats_finite df p Hp) as [qp Hqp].
    destruct (player_season_stats_finite df t Ht) as [qt Hqt].
    assert (HT' : T = ((l0 ++ p :: l') ++ t :: l2)%list)
      by (rewrite HT, <- app_assoc; reflexivity).
    assert (Hn : nth_error Y (List.length (l0 ++ p :: l'))
                 = Some (yoy_row t (Fin qp))).
    { unfold Y. rewrite HT', with_yoy_nth.
      now rewrite (prev_of_latest l0 l' p t Hsame Hbetween), Hqp. }
    assert (Hc : yoy_change (yoy_row t (Fin qp)) = Fin (qt - qp)).
    { unfold yoy_row. simpl. rewrite Hqt. reflexivity. }
    assert (Hpct : yoy_change_pct (yoy_row t (Fin qp))
                   = (Fin (qt - qp) / Fin qp * Fin 100)%cell).
    { unfold yoy_row. simpl. rewrite Hqt. reflexivity. }
    exists (yoy_row t (Fin qp)), qp, qt.
    split; [exact Hn|]. split; [reflexivity|].
    split; [exact Hqp|]. split; [exact Hqt|]. split.
    { apply by_player_season_same; [exact Hsame|].
      pose proof (player_season_stats_sorted df) as Hs.
      fold T in Hs. rewrite HT in Hs.
      apply (sorted_app_le _ _ _ _ _ Hs).
      apply in_or_app. right. now left. }
    split; [reflexivity|]. split; [exact Hc|]. split; [exact Hpct|].
    split.
    { intro Hnz. rewrite Hpct. unfold fdiv.
      destruct (Qeq_bool qp 0) eqn:E; [|reflexivity].
      apply Qeq_bool_eq in E. contradiction. }
    split.
    { unfold valid_changes. apply filter_In. split.
      - eapply nth_error_In. exact Hn.
      - now rewrite Hc. }
    assert (Hup : breakout_mask (yoy_row t (Fin qp)) = true <->
                  50 < qt - qp /\
                  exceeds (yoy_change_pct (yoy_row t (Fin qp))) 25).
    { unfold breakout_mask. rewrite andb_true_iff, Hc.
      now rewrite fgtb_Fin, fgtb_exceeds. }
    assert (Hdown : bust_mask (yoy_row t (Fin qp)) = true <->
                    qt - qp < -50 /\
                    below (yoy_change_pct (yoy_row t (Fin qp))) (-25)).
    { unfold bust_mask. rewrite andb_true_iff, Hc.
      rewrite !fltb_below. reflexivity. }
    split; [exact Hup|]. split; [exact Hdown|].
    intro Hb. apply Hup in Hb. destruct Hb as [Hb _].
    apply not_true_is_false. intro E.
    apply Hdown in E. destruct E as [E _].
    apply (Qlt_irrefl 50).
    eapply Qlt_trans; [exact Hb|]. eapply Qlt_trans; [exact E|reflexivity].
  - intros pos ins Hin pos_data.
    apply by_position_In in Hin. destruct Hin as [_ Hin].
    unfold breakout_position_insight in Hin. fold pos_data in Hin.
    destruct (Frame.empty pos_data); [discriminate Hin|].
    inversion Hin as [E]. clear Hin. simpl.
    split; [|split; [|split]].
    + intros y Hy. apply nlargest_all, filter_In in Hy. exact Hy.
    + intros y Hy. apply nsmallest_all, filter_In in Hy. exact Hy.
    + intros Hlen y Hy Hm. apply nlargest_short; [exact Hlen|].
      apply filter_In. auto.
    + intros Hlen y Hy Hm. apply nsmallest_short; [exact Hlen|].
      apply filter_In. auto.
Qed.

(** C4 on the code.  The table [position_change] holds one player with
    the seasons 2022 and 2023, whose season totals are 110 and 120: the
    first season has no earlier season and the second is 10 points above
    it, so neither is a breakout or a bust.  The per-season table, though,
    is grouped by name and position as well and has two rows for 2022.
    The row of the first season at wide receiver is compared with the
    other row of the same season, gets a delta of -90 and is reported as a
    bust; the row of 2023 is compared with the wide-receiver row alone
    (10 points, not the season total of 110), gets a delta of +110 and is
    reported as a breakout. *)
Lemma first_season_row_classified :
  (forall o, In o position_change ->
     player_id o = "00-01" /\ (season o = 2022 \/ season o = 2023)%Z) /\
  map (fun t => (s_position t, s_season t, s_fantasy_points_ppr t))
      (player_season_stats position_change)
  = [("RB", 2022%Z, Fin 100); ("WR", 2022%Z, Fin 10);
     ("RB", 2023%Z, Fin 120)] /\
  map (fun y : YoYRow =>
         (s_position y, s_season y, prev_season_points y,
          breakout_mask y, bust_mask y))
      (valid_changes position_change)
  = [("WR", 2022%Z, Fin 100, false, true);
     ("RB", 2023%Z, Fin 10, true, false)] /\
  Forall2 (fun (y : YoYRow) d => feq (yoy_change y) (Fin d))
          (valid_changes position_change) [-90; 110] /\
  exists rb wr,
    calculate_breakout_insights sqrt_sq position_change
    = [("RB", rb); ("WR", wr)] /\
    map (fun y : YoYRow => (s_player_display_name y, s_season y))
        (breakouts rb) = [("Ann", 2023%Z)] /\
    map (fun y : YoYRow => (s_player_display_name y, s_season y))
        (busts wr) = [("Ann", 2022%Z)].
Proof.
  split.
  { intros o [<-|[<-|[<-|[]]]]; simpl; auto. }
  split; [vm_compute; reflexivity|].
  split; [vm_compute; reflexivity|].
  split; [vm_compute; repeat constructor|].
  eexists. eexists. split; [vm_compute; reflexivity|].
  split; reflexivity.
Qed.

(* ------------------------------------------------------------------ *)
(** ** Trend detector: a prior season of zero points *)

(** C5, as stated, fails.  Bob's prior total is zero; his percentage delta
    is plus infinity, not missing; the row passes the breakout test and is
    ranked first among the breakouts, ahead of Ann's 60 percent. *)
Lemma infinite_delta_from_zero_base :
  In bob_2024 (valid_changes zero_base) /\
  prev_season_points bob_2024 = Fin 0 /\
  yoy_change_pct bob_2024 = PInf /\
  yoy_change_pct bob_2024 <> NaN /\
  breakout_mask bob_2024 = true /\
  exists ins,
    In ("QB", ins) (calculate_breakout_insights sqrt_sq zero_base) /\
    map (fun y : YoYRow => s_player_display_name y) (breakouts ins)
    = ["Bob"; "Ann"] /\
    nth_error (breakouts ins) 0 = Some bob_2024.
Proof.
  split; [vm_compute; right; left; reflexivity|].
  split; [reflexivity|]. split; [reflexivity|].
  split; [vm_compute; discriminate|]. split; [reflexivity|].
  eexists. split; [left; vm_compute; reflexivity|].
  split; vm_compute; reflexivity.
Qed.

(* ------------------------------------------------------------------ *)
(** ** Worked examples *)

(** The first player is a breakout with a delta of +60 and +60 percent, the
    second a bust with -110 and -55 percent; the two first seasons are not
    classified. *)
Example trend_examples :
  map (fun y : YoYRow =>
         (s_player_display_name y, s_season y, breakout_mask y, bust_mask y))
      (valid_changes riser_and_faller)
  = [("Ann", 2023%Z, true, false); ("Bob", 2023%Z, false, true)] /\
  Forall2 (fun (y : YoYRow) d =>
             feq (yoy_change y) (Fin (fst d)) /\
             feq (yoy_change_pct y) (Fin (snd d)))
          (valid_changes riser_and_faller)
          [(60, 60); (-110, -55)].
Proof.
  split; [vm_compute; reflexivity|].
  vm_compute. repeat constructor.
Qed.

(** With ten players and a rank of 24 the replacement value is the lowest
    total. *)
Example short_list_baseline :
  exists v,
    calculate_positional_value_insights sqrt_sq ten_backs
    = Ok [(2024%Z, [("RB", v)])] /\
    replacement_value v = Fin 10 /\
    position_depth v = 9%nat.
Proof.
  eexists. split; [vm_compute; reflexivity|]. split; reflexivity.
Qed.

(* ------------------------------------------------------------------ *)
(** ** Selections of the best rows *)

Lemma StronglySorted_app_inv {A} (R : A -> A -> Prop) (l1 l2 : list A) :
  StronglySorted R (l1 ++ l2) ->
  StronglySorted R l1 /\ StronglySorted R l2 /\
  forall x y, In x l1 -> In y l2 -> R x y.
Proof.
  induction l1 as [|a t IH]; simpl; intro H.
  - split; [constructor|]. split; [exact H|]. intros x y [].
  - inversion H as [|? ? Hs Hall]; subst.
    destruct (IH Hs) as [H1 [H2 H3]].
    rewrite Forall_forall in Hall.
    split; [|split; [exact H2|]].
    + constructor; [exact H1|]. rewrite Forall_forall.
      intros x Hx. apply Hall. apply in_or_app. now left.
    + intros x y [<-|Hx] Hy; [|now apply H3].
      apply Hall. apply in_or_app. now right.
Qed.

Lemma asc_total (x y : fval) :
  Frame.asc x y = true \/ Frame.asc y x = true.
Proof.
  destruct x as [a| | |], y as [b| | |]; simpl; auto.
  unfold Frame.asc. simpl.
  destruct (Qle_bool a b) eqn:E; [now left|right].
  apply Qle_bool_iff. apply Qlt_le_weak. apply Qnot_le_lt.
  intro H. apply Qle_bool_iff in H. congruence.
Qed.

Lemma asc_trans (x y z : fval) :
  Frame.asc x y = true -> Frame.asc y z = true -> Frame.asc x z = true.
Proof.
  destruct x as [a| | |], y as [b| | |], z as [c| | |];
    unfold Frame.asc; simpl; auto; try discriminate.
  rewrite !Qle_bool_iff. intros H1 H2. eapply Qle_trans; eauto.
Qed.

Section BestRows.
Context {A : Type}.
Variable col : A -> fval.

(** The rows selected by [nlargest] are in descending order and none of
    the rows left out is ranked before a selected row. *)
Lemma nlargest_spec (n : nat) (l : list A) :
  StronglySorted (fun a b => Frame.desc (col a) (col b) = true)
                 (Frame.nlargest n col l) /\
  exists rest,
    Permutation (Frame.nlargest n col l ++ rest) l /\
    forall x y, In x (Frame.nlargest n col l) -> In y rest ->
                Frame.desc (col x) (col y) = true.
Proof.
  unfold Frame.nlargest.
  set (s := Frame.sort_rows (fun a b => Frame.desc (col a) (col b)) l).
  assert (Hs : StronglySorted (fun a b => Frame.desc (col a) (col b) = true)
                 (firstn n s ++ skipn n s)).
  { rewrite firstn_skipn. apply (sort_values_desc_sorted col l). }
  apply StronglySorted_app_inv in Hs. destruct Hs as [H1 [_ H3]].
  split; [exact H1|]. exists (skipn n s). split; [|exact H3].
  rewrite firstn_skipn. apply sort_rows_perm.
Qed.

Lemma nsmallest_spec (n : nat) (l : list A) :
  StronglySorted (fun a b => Frame.asc (col a) (col b) = true)
                 (Frame.nsmallest n col l) /\
  exists rest,
    Permutation (Frame.nsmallest n col l ++ rest) l /\
    forall x y, In x (Frame.nsmallest n col l) -> In y rest ->
                Frame.asc (col x) (col y) = true.
Proof.
  unfold Frame.nsmallest.
  set (s := Frame.sort_rows (fun a b => Frame.asc (col a) (col b)) l).
  assert (Hs : StronglySorted (fun a b => Frame.asc (col a) (col b) = true)
                 (firstn n s ++ skipn n s)).
  { rewrite firstn_skipn.
    apply (sort_rows_sorted (fun a b => Frame.asc (col a) (col b))).
    - intros x y. apply asc_total.
    - intros x y z. apply asc_trans. }
  apply StronglySorted_app_inv in Hs. destruct Hs as [H1 [_ H3]].
  split; [exact H1|]. exists (skipn n s). split; [|exact H3].
  rewrite firstn_skipn. apply sort_rows_perm.
Qed.
End BestRows.

Lemma StronglySorted_map {A B} (R : B -> B -> Prop) (f : A -> B)
  (l : list A) :
  StronglySorted (fun a b => R (f a) (f b)) l -> StronglySorted R (map f l).
Proof.
  induction 1 as [|a t Hs IH Hall]; simpl; constructor; [exact IH|].
  rewrite Forall_forall in *. intros y Hy.
  apply in_map_iff in Hy. destruct Hy as [x [<- Hx]]. auto.
Qed.

Lemma NoDup_map_filter {A B} (f : A -> B) (g : A -> bool) (l : list A) :
  NoDup (map f l) -> NoDup (map f (filter g l)).
Proof.
  induction l as [|a t IH]; simpl; intro H; [constructor|].
  inversion H as [|? ? Hna Hnd]; subst.
  destruct (g a); simpl; [|auto].
  constructor; [|auto].
  intro Hin. apply Hna. apply in_map_iff in Hin.
  destruct Hin as [x [E Hx]]. apply filter_In in Hx.
  apply in_map_iff. exists x. tauto.
Qed.

Lemma NoDup_firstn {A} (n : nat) (l : list A) :
  NoDup l -> NoDup (firstn n l).
Proof.
  intro H. rewrite <- (firstn_skipn n l) in H.
  now apply NoDup_app_remove_r in H.
Qed.

(* ------------------------------------------------------------------ *)
(** ** Recommendation lists *)

Lemma player_metrics_names_NoDup (sqrtQ : Q -> Q)
  (recent : list Observation) (pos : string) :
  NoDup (map dplayer (player_metrics sqrtQ recent pos)).
Proof.
  unfold player_metrics. rewrite map_map. simpl.
  unfold Frame.groupby. rewrite map_map. simpl. rewrite map_id.
  apply (group_keys_NoDup _ _ _ String.eqb_eq).
Qed.

Lemma generate_draft_recommendations_In (sqrtQ : Q -> Q)
  (df : list Observation) (current_season : Z) (pos : string)
  (rec : Recommendation) :
  In (pos, rec) (generate_draft_recommendations sqrtQ df current_season) ->
  let e := experienced_players sqrtQ (recent_data df current_season) pos in
  let scored := map score_player e in
  e <> [] /\
  safe_picks rec
  = map (fun p : ScoredPlayer =>
           (dplayer p, avg_ppg p, std_ppg p, consistency_score p))
        (Frame.nlargest 5 consistency_score scored) /\
  upside_picks rec
  = map (fun p : ScoredPlayer => (dplayer p, avg_ppg p, total_points p))
        (Frame.nlargest 5 (fun p : ScoredPlayer => avg_ppg p) scored) /\
  overall_rankings rec
  = map (fun p : ScoredPlayer => (dplayer p, draft_score p, avg_ppg p))
        (Frame.nlargest 10 draft_score scored).
Proof.
  intros H e scored. unfold generate_draft_recommendations in H.
  apply by_position_In in H. destruct H as [_ H].
  unfold draft_position_recommendation in H. fold e in H.
  destruct e as [|p t] eqn:E; [discriminate H|].
  simpl Frame.empty in H. cbv iota in H. inversion H. subst rec. simpl.
  split; [discriminate|]. auto.
Qed.

(** The aggregate row of a player: mean, standard deviation and sum of
    the player's points in the window at the position, and the number of
    the player's rows. *)
Lemma player_metrics_iff (sqrtQ : Q -> Q) (recent : list Observation)
  (pos : string) (p : PlayerMetrics) :
  let rows := filter (fun r => position r =? pos) recent in
  In p (player_metrics sqrtQ recent pos) <->
  exists o,
    In o rows /\
    let g :=
      Frame.group_rows player_display_name String.eqb
        (player_display_name o) rows in
    p = mkPlayerMetrics (player_display_name o) (Frame.mean (map points g))
          (Frame.std sqrtQ (map points g)) (Frame.sum (map points g))
          (List.length g).
Proof.
  intro rows. unfold player_metrics. fold rows. rewrite in_map_iff. split.
  - intros [[k g] [<- Hg]].
    apply (groupby_In _ _ _ String.eqb_eq) in Hg.
    destruct Hg as [[o [Ho Hk]] ->]. exists o. split; [exact Ho|].
    cbv zeta. cbn [fst snd]. rewrite Hk, length_map. reflexivity.
  - intros [o [Ho ->]].
    exists (player_display_name o,
            Frame.group_rows player_display_name String.eqb
              (player_display_name o) rows).
    split; [cbn [fst snd]; now rewrite length_map|].
    apply (groupby_In _ _ _ String.eqb_eq). split; [eauto|reflexivity].
Qed.

Lemma generate_draft_recommendations_iff (sqrtQ : Q -> Q)
  (df : list Observation) (current_season : Z) (pos : string) :
  In pos positions ->
  (experienced_players sqrtQ (recent_data df current_season) pos <> [] <->
   exists rec,
     In (pos, rec) (generate_draft_recommendations sqrtQ df current_season)).
Proof.
  intro Hpos. unfold generate_draft_recommendations. split.
  - intro Hne.
    destruct (draft_position_recommendation sqrtQ
                (recent_data df current_season) pos) as [rec|] eqn:E.
    + exists rec. apply by_position_In. auto.
    + exfalso. unfold draft_position_recommendation in E.
      destruct (experienced_players sqrtQ _ pos); [congruence|discriminate].
  - intros [rec H].
    now apply generate_draft_recommendations_In in H.
Qed.

Lemma score_example (a d : fval) :
  feq a (Fin 20) -> feq d (Fin 4) ->
  feq (a / (d + Fin 1))%cell (Fin 4) /\
  feq (a * Fin (7 # 10) + a / (d + Fin 1) * Fin (3 # 10))%cell
      (Fin (152 # 10)).
Proof.
  destruct a as [a| | |]; simpl; try tauto.
  destruct d as [d| | |]; simpl; try tauto.
  intros Ha Hd.
  assert (Hnz : Qeq_bool (d + 1) 0 = false).
  { apply Qeq_bool_false_pos. rewrite Hd. reflexivity. }
  rewrite Hnz. simpl. rewrite Ha, Hd. split; reflexivity.
Qed.

(** C2. The scorer looks at the rows of the last three seasons at a
    position.  A player passes its filter with two or more rows there, and
    the position is recommended exactly when some player passes.  For every
    player that a recommendation reports, the mean and the standard
    deviation are those of the player's points in these rows, the
    consistency score is the mean divided by the standard deviation plus
    one, and the draft score is 0.7 times the mean plus 0.3 times the
    consistency score; with mean 20 and standard deviation 4 the scores are
    4 and 15.2.  Every player that passes the filter is reported with these
    scores unless the list is full. *)
Theorem draft_score_formula (sqrtQ : Q -> Q) (df : list Observation)
  (current_season : Z) (pos : string) :
  In pos positions ->
  let rows :=
    filter (fun r => position r =? pos) (recent_data df current_season) in
  let games := fun name =>
    map points (Frame.group_rows player_display_name String.eqb name rows) in
  let mean := fun name => Frame.mean (games name) in
  let sd := fun name => Frame.std sqrtQ (games name) in
  let consistency := fun name => (mean name / (sd name + Fin 1))%cell in
  let draft := fun name =>
    (mean name * Fin (7 # 10) + consistency name * Fin (3 # 10))%cell in
  let passes := fun name => (2 <= List.length (games name))%nat in
  ((exists o, In o rows /\ passes (player_display_name o)) <->
   exists rec,
     In (pos, rec) (generate_draft_recommendations sqrtQ df current_season)) /\
  forall rec,
    In (pos, rec) (generate_draft_recommendations sqrtQ df current_season) ->
    (forall name avg dev score,
       In (name, avg, dev, score) (safe_picks rec) ->
       passes name /\ avg = mean name /\ dev = sd name /\
       score = consistency name /\
       (feq avg (Fin 20) -> feq dev (Fin 4) -> feq score (Fin 4))) /\
    (forall name score avg,
       In (name, score, avg) (overall_rankings rec) ->
       passes name /\ avg = mean name /\ score = draft name /\
       feq score
           (Fin (7 # 10) * mean name + Fin (3 # 10) * consistency name)%cell /\
       (feq avg (Fin 20) -> feq (sd name) (Fin 4) ->
        feq score (Fin (152 # 10)))) /\
    (forall o, In o rows -> passes (player_display_name o) ->
       ((List.length (safe_picks rec) < 5)%nat ->
        In (player_display_name o, mean (player_display_name o),
            sd (player_display_name o), consistency (player_display_name o))
           (safe_picks rec)) /\
       ((List.length (overall_rankings rec) < 10)%nat ->
        In (player_display_name o, draft (player_display_name o),
            mean (player_display_name o))
           (overall_rankings rec))).
Proof.
  intros Hpos rows games mean sd consistency draft passes.
  set (recent := recent_data df current_season) in *.
  set (metric := fun name =>
         mkPlayerMetrics name (mean name) (sd name)
           (Frame.sum (games name))
           (List.length
              (Frame.group_rows player_display_name String.eqb name rows))).
  assert (Hexp : forall p,
            In p (experienced_players sqrtQ recent pos) <->
            exists o, In o rows /\ passes (player_display_name o) /\
                      p = metric (player_display_name o)).
  { intro p. unfold experienced_players. rewrite filter_In.
    pose proof (player_metrics_iff sqrtQ recent pos p) as Hm.
    cbv zeta in Hm. fold rows in Hm. rewrite Hm. split.
    - intros [[o [Ho ->]] Hn]. cbn [seasons_played] in Hn.
      apply Nat.leb_le in Hn. exists o. split; [exact Ho|].
      split; [unfold passes, games; now rewrite length_map|reflexivity].
    - intros [o [Ho [Hp ->]]]. split; [exists o; auto|].
      unfold metric. cbn [seasons_played]. apply Nat.leb_le.
      unfold passes, games in Hp. now rewrite length_map in Hp. }
  split.
  - rewrite <- (generate_draft_recommendations_iff sqrtQ df current_season
                  pos Hpos).
    fold recent. split.
    + intros [o [Ho Hp]] E.
      assert (Hin : In (metric (player_display_name o))
                       (experienced_players sqrtQ recent pos))
        by (apply Hexp; eauto).
      rewrite E in Hin. exact Hin.
    + intro Hne.
      destruct (experienced_players sqrtQ recent pos) as [|p t] eqn:E;
        [congruence|].
      destruct (proj1 (Hexp p)) as [o [Ho [Hp _]]]; [now left|].
      eauto.
  - intros rec Hrec.
    apply generate_draft_recommendations_In in Hrec. cbv zeta in Hrec.
    fold recent in Hrec. destruct Hrec as [_ [Hsafe [_ Hall]]].
    assert (Hscored : forall sp,
              In sp (map score_player (experienced_players sqrtQ recent pos))
              <-> exists o, In o rows /\ passes (player_display_name o) /\
                            sp = score_player (metric (player_display_name o))).
    { intro sp. rewrite in_map_iff. split.
      - intros [p [<- Hp]]. apply Hexp in Hp.
        destruct Hp as [o [Ho [Hp ->]]]. eauto.
      - intros [o [Ho [Hp ->]]]. eexists. split; [reflexivity|].
        apply Hexp. eauto. }
    split; [|split].
    + intros name avg dev score Hin. rewrite Hsafe in Hin.
      apply in_map_iff in Hin. destruct Hin as [sp [E Hsp]].
      apply nlargest_all, Hscored in Hsp.
      destruct Hsp as [o [Ho [Hp ->]]].
      unfold score_player, metric in E. cbn in E. inversion E. subst.
      split; [exact Hp|]. split; [reflexivity|]. split; [reflexivity|].
      split; [reflexivity|].
      intros Ha Hd. now apply score_example.
    + intros name score avg Hin. rewrite Hall in Hin.
      apply in_map_iff in Hin. destruct Hin as [sp [E Hsp]].
      apply nlargest_all, Hscored in Hsp.
      destruct Hsp as [o [Ho [Hp ->]]].
      unfold score_player, metric in E. cbn in E. inversion E. subst.
      split; [exact Hp|]. split; [reflexivity|]. split; [reflexivity|].
      split; [apply fadd_feq; apply fmul_comm|].
      intros Ha Hd. now apply score_example.
    + intros o Ho Hp.
      assert (Hsp : In (score_player (metric (player_display_name o)))
                       (map score_player
                            (experienced_players sqrtQ recent pos)))
        by (apply Hscored; eauto).
      split.
      * intro Hlen. rewrite Hsafe in Hlen |- *.
        rewrite length_map, nlargest_length in Hlen.
        apply in_map_iff.
        exists (score_player (metric (player_display_name o))).
        split; [reflexivity|].
        apply nlargest_short; [lia|exact Hsp].
      * intro Hlen. rewrite Hall in Hlen |- *.
        rewrite length_map, nlargest_length in Hlen.
        apply in_map_iff.
        exists (score_player (metric (player_display_name o))).
        split; [reflexivity|].
        apply nlargest_short; [lia|exact Hsp].
Qed.

Lemma draft_score_formula_witness :
  In "RB" positions /\
  exists rec score avg,
    In ("RB", rec) (generate_draft_recommendations sqrt_sq steady_back 2024) /\
    overall_rankings rec = [("Cy", score, avg)] /\
    feq avg (Fin 20) /\ feq score (Fin (152 # 10)).
Proof.
  assert (Hpos : In "RB" positions) by (simpl; tauto).
  split; [exact Hpos|].
  eexists. eexists. eexists.
  split; [left; vm_compute; reflexivity|].
  split; [reflexivity|].
  split; [vm_compute; reflexivity|].
  match goal with
  | |- feq ?sc _ =>
      destruct (proj2 (draft_score_formula sqrt_sq steady_back 2024 "RB" Hpos)
                  _ (or_introl eq_refl)) as [_ [H _]];
      destruct (H "Cy" sc _ (or_introl eq_refl)) as [_ [_ [_ [_ Hex]]]]
  end.
  apply Hex; vm_compute; reflexivity.
Defined.

(** X1. The three lists of a recommendation hold at most 5, 5 and 10 players,
    all of the filtered players when there are fewer, and no display name
    occurs twice in a list. *)
Theorem recommendation_lists_sizes (sqrtQ : Q -> Q) (df : list Observation)
  (current_season : Z) (pos : string) (rec : Recommendation) :
  In (pos, rec) (generate_draft_recommendations sqrtQ df current_season) ->
  let n :=
    List.length
      (experienced_players sqrtQ (recent_data df current_season) pos) in
  (1 <= n)%nat /\
  List.length (safe_picks rec) = Nat.min 5 n /\
  List.length (upside_picks rec) = Nat.min 5 n /\
  List.length (overall_rankings rec) = Nat.min 10 n /\
  NoDup (map (fun x => fst (fst (fst x))) (safe_picks rec)) /\
  NoDup (map (fun x => fst (fst x)) (upside_picks rec)) /\
  NoDup (map (fun x => fst (fst x)) (overall_rankings rec)).
Proof.
  intros H n. apply generate_draft_recommendations_In in H.
  cbv zeta in H. destruct H as [Hne [Hs [Hu Ho]]].
  set (e := experienced_players sqrtQ (recent_data df current_season) pos)
    in *.
  assert (Hnd : forall (col : ScoredPlayer -> fval) k,
            NoDup (map (fun p : ScoredPlayer => dplayer p)
                       (Frame.nlargest k col (map score_player e)))).
  { intros col k. unfold Frame.nlargest. rewrite <- firstn_map.
    apply NoDup_firstn.
    eapply Permutation_NoDup.
    - apply Permutation_map, Permutation_sym, sort_rows_perm.
    - rewrite map_map. simpl. unfold e, experienced_players.
      apply NoDup_map_filter, player_metrics_names_NoDup. }
  rewrite Hs, Hu, Ho. rewrite !length_map, !nlargest_length, !length_map.
  rewrite !map_map. simpl. fold n.
  split; [unfold n; destruct e; [congruence|simpl; lia]|].
  repeat split; auto.
Qed.

Lemma recommendation_lists_sizes_witness :
  exists rec,
    In ("RB", rec) (generate_draft_recommendations sqrt_sq steady_back 2024) /\
    List.length (overall_rankings rec) = 1%nat /\
    map (fun x => fst (fst x)) (overall_rankings rec) = ["Cy"].
Proof.
  eexists. split; [left; vm_compute; reflexivity|].
  match goal with
  | |- List.length (overall_rankings ?r) = _ /\ _ =>
      destruct (recommendation_lists_sizes sqrt_sq steady_back 2024 "RB" r
                  (or_introl eq_refl)) as [_ [_ [_ [Ho _]]]]
  end.
  split; [rewrite Ho; reflexivity|reflexivity].
Defined.

Lemma nlargest_best_first {A B} (col : A -> fval) (proj : A -> B)
  (score : B -> fval) (n : nat) (l : list A) :
  (forall a, score (proj a) = col a) ->
  best_first l col proj score (map proj (Frame.nlargest n col l)).
Proof.
  intro Hsc. destruct (nlargest_spec col n l) as [Hs [rest [Hp Hr]]].
  split.
  - apply StronglySorted_map.
    eapply StronglySorted_weaken with (P := fun _ => True); [| |exact Hs].
    + intros a b _ _ H. now rewrite !Hsc.
    + rewrite Forall_forall. auto.
  - intros a Ha.
    apply (Permutation_in _ (Permutation_sym Hp)) in Ha.
    apply in_app_or in Ha. destruct Ha as [Ha|Ha].
    + left. now apply in_map.
    + right. intros x Hx. apply in_map_iff in Hx.
      destruct Hx as [b [<- Hb]]. rewrite Hsc. now apply Hr.
Qed.

(** X2. Each list of a recommendation is in descending order of its score
    (consistency score, mean, draft score), and a filtered player left out
    of a list is ranked no better than any player in it. *)
Theorem recommendation_lists_ranked (sqrtQ : Q -> Q) (df : list Observation)
  (current_season : Z) (pos : string) (rec : Recommendation) :
  In (pos, rec) (generate_draft_recommendations sqrtQ df current_season) ->
  let scored :=
    map score_player
        (experienced_players sqrtQ (recent_data df current_season) pos) in
  best_first scored consistency_score
    (fun p : ScoredPlayer =>
       (dplayer p, avg_ppg p, std_ppg p, consistency_score p))
    (fun x => snd x) (safe_picks rec) /\
  best_first scored (fun p : ScoredPlayer => avg_ppg p)
    (fun p : ScoredPlayer => (dplayer p, avg_ppg p, total_points p))
    (fun x => snd (fst x)) (upside_picks rec) /\
  best_first scored draft_score
    (fun p : ScoredPlayer => (dplayer p, draft_score p, avg_ppg p))
    (fun x => snd (fst x)) (overall_rankings rec).
Proof.
  intros H scored. apply generate_draft_recommendations_In in H.
  cbv zeta in H. destruct H as [_ [Hs [Hu Ho]]].
  rewrite Hs, Hu, Ho.
  split; [|split]; apply nlargest_best_first; reflexivity.
Qed.

Lemma recommendation_lists_ranked_witness :
  exists rec,
    In ("QB", rec) (generate_draft_recommendations sqrt_sq zero_base 2024) /\
    map (fun x => fst (fst x)) (overall_rankings rec) = ["Ann"; "Bob"] /\
    StronglySorted
      (fun x y => Frame.desc (snd (fst x)) (snd (fst y)) = true)
      (overall_rankings rec).
Proof.
  eexists. split; [left; vm_compute; reflexivity|].
  split; [reflexivity|].
  match goal with
  | |- StronglySorted _ (overall_rankings ?r) =>
      destruct (recommendation_lists_ranked sqrt_sq zero_base 2024 "QB" r
                  (or_introl eq_refl)) as [_ [_ [Ho _]]]
  end.
  exact Ho.
Defined.

(* ------------------------------------------------------------------ *)
(** ** Window and scores of the recommendation scorer *)

Lemma recent_data_In (df : list Observation) (current_season : Z)
  (r : Observation) :
  In r (recent_data df current_season) <->
  In r df /\ (current_season - 2 <= season r <= current_season)%Z.
Proof.
  unfold recent_data. rewrite filter_In. simpl.
  rewrite !orb_true_iff, !Z.eqb_eq. intuition lia.
Qed.

Lemma filter_idem {A} (f : A -> bool) (l : list A) :
  filter f (filter f l) = filter f l.
Proof. apply filter_filter_absorb. auto. Qed.

(** X3. Only the rows of the current season and of the two seasons before it
    are used: older rows, and rows of later seasons, have no influence on
    the recommendations. *)
Theorem recommendations_use_window_only (sqrtQ : Q -> Q)
  (df other : list Observation) (current_season : Z) :
  (forall r, In r other ->
     (season r < current_season - 2)%Z \/ (current_season < season r)%Z) ->
  generate_draft_recommendations sqrtQ (df ++ other) current_season
  = generate_draft_recommendations sqrtQ df current_season /\
  generate_draft_recommendations sqrtQ (other ++ df) current_season
  = generate_draft_recommendations sqrtQ df current_season.
Proof.
  intro H.
  assert (Ho : recent_data other current_season = []).
  { destruct (recent_data other current_season) as [|r t] eqn:E;
      [reflexivity|].
    assert (Hr : In r (recent_data other current_season))
      by (rewrite E; now left).
    apply recent_data_In in Hr. destruct Hr as [Hr Hs].
    destruct (H r Hr); lia. }
  unfold generate_draft_recommendations.
  assert (E1 : recent_data (df ++ other) current_season
               = recent_data df current_season).
  { unfold recent_data in *. now rewrite filter_app, Ho, app_nil_r. }
  assert (E2 : recent_data (other ++ df) current_season
               = recent_data df current_season).
  { unfold recent_data in *. now rewrite filter_app, Ho. }
  now rewrite E1, E2.
Qed.

Lemma recommendations_use_window_only_witness :
  (forall r, In r [mkObs "00-03" "Cy" "RB" 2021 1 (Some 90);
                   mkObs "00-03" "Cy" "RB" 2025 1 (Some 90)] ->
     (season r < 2024 - 2)%Z \/ (2024 < season r)%Z) /\
  generate_draft_recommendations sqrt_sq
    (steady_back ++ [mkObs "00-03" "Cy" "RB" 2021 1 (Some 90);
                     mkObs "00-03" "Cy" "RB" 2025 1 (Some 90)])%list 2024
  = generate_draft_recommendations sqrt_sq steady_back 2024.
Proof.
  assert (H : forall r,
            In r [mkObs "00-03" "Cy" "RB" 2021 1 (Some 90);
                  mkObs "00-03" "Cy" "RB" 2025 1 (Some 90)] ->
            (season r < 2024 - 2)%Z \/ (2024 < season r)%Z).
  { intros r [<-|[<-|[]]]; simpl; lia. }
  split; [exact H|].
  exact (proj1 (recommendations_use_window_only sqrt_sq steady_back _ 2024 H)).
Defined.

Lemma present_map_Fin (qs : list Q) : present (map Fin qs) = qs.
Proof.
  induction qs as [|q t IH]; simpl; [reflexivity|now rewrite IH].
Qed.

Lemma no_inf_map_Fin (qs : list Q) : no_inf (map Fin qs).
Proof.
  unfold no_inf. rewrite Forall_forall. intros x Hx.
  apply in_map_iff in Hx. destruct Hx as [q [<- _]]. exact I.
Qed.

(** With two or more numbers present the standard deviation is the square
    root of a number; with fewer it is missing. *)
Lemma std_present (sqrtQ : Q -> Q) (l : list fval) :
  no_inf l ->
  (2 <= List.length (present l))%nat ->
  exists v, Frame.std sqrtQ l = Fin (sqrtQ v).
Proof.
  intros Hl Hn. unfold Frame.std. cbv zeta.
  rewrite (dropna_present l Hl), length_map.
  destruct (Nat.leb_spec (List.length (present l)) 1) as [Hle|_]; [lia|].
  assert (Hm : exists m, Frame.mean (map Fin (present l)) = Fin m).
  { rewrite (mean_present _ (no_inf_map_Fin (present l))), present_map_Fin.
    destruct (present l); [simpl in Hn; lia|eauto]. }
  destruct Hm as [m Hm]. rewrite Hm.
  rewrite map_map.
  change (map (fun x : Q => ((Fin x - Fin m) * (Fin x - Fin m))%cell)
              (present l))
    with (map (fun x : Q => Fin ((x + - m) * (x + - m))) (present l)).
  rewrite <- (map_map (fun x : Q => (x + - m) * (x + - m)) Fin).
  rewrite fold_fadd_Fin. unfold of_nat, fdiv.
  rewrite Qeq_bool_false_pos by (apply inject_nat_pos; lia).
  simpl. eauto.
Qed.

Lemma std_few (sqrtQ : Q -> Q) (l : list fval) :
  no_inf l -> (List.length (present l) < 2)%nat -> Frame.std sqrtQ l = NaN.
Proof.
  intros Hl Hn. unfold Frame.std. cbv zeta.
  rewrite (dropna_present l Hl), length_map.
  destruct (Nat.leb_spec (List.length (present l)) 1); [reflexivity|lia].
Qed.

Lemma sqrt_sq_nonneg (q : Q) : 0 <= sqrt_sq q.
Proof.
  unfold sqrt_sq, Qle. simpl.
  pose proof (Z.sqrt_nonneg (Qnum q * Z.pos (Qden q))). lia.
Qed.

Lemma damped_between (a s : Q) :
  0 <= s ->
  (0 <= a -> 0 <= a / (s + 1) /\ a / (s + 1) <= a) /\
  (a <= 0 -> a <= a / (s + 1) /\ a / (s + 1) <= 0).
Proof.
  intro Hs.
  assert (Hpos : 0 < s + 1) by lra.
  assert (Hi : 0 < / (s + 1)) by now apply Qinv_lt_0_compat.
  assert (Hone : / (s + 1) * (s + 1) == 1).
  { rewrite Qmult_comm. apply Qmult_inv_r. lra. }
  set (i := / (s + 1)) in *.
  assert (Hle : i <= 1).
  { assert (0 <= i * s) by (apply Qmult_le_0_compat; lra).
    assert (i * (s + 1) == i * s + i) by ring. lra. }
  unfold Qdiv. fold i.
  split; intro Ha.
  - split.
    + apply Qmult_le_0_compat; lra.
    + assert (0 <= a * (1 - i)) by (apply Qmult_le_0_compat; lra).
      assert (a * (1 - i) == a - a * i) by ring. lra.
  - split.
    + assert (0 <= (- a) * (1 - i)) by (apply Qmult_le_0_compat; lra).
      assert ((- a) * (1 - i) == a * i - a) by ring. lra.
    + assert (0 <= (- a) * i) by (apply Qmult_le_0_compat; lra).
      assert ((- a) * i == - (a * i)) by ring. lra.
Qed.

Lemma fdiv_NaN_r (x : fval) : (x / NaN)%cell = NaN.
Proof. now destruct x. Qed.

Lemma fadd_NaN_r (x : fval) : (x + NaN)%cell = NaN.
Proof. now destruct x. Qed.

(** X4. Scores of a filtered player.  With fewer than two scored games in the
    window the standard deviation is missing and so are both scores.  With
    two or more, and a square root that is never negative, the mean and the
    standard deviation are numbers, the division is by at least 1, and the
    consistency score lies between 0 and the mean. *)
Theorem draft_scores_defined (sqrtQ : Q -> Q) (df : list Observation)
  (current_season : Z) (pos : string) (p : PlayerMetrics) :
  (forall q, 0 <= sqrtQ q) ->
  In p (experienced_players sqrtQ (recent_data df current_season) pos) ->
  let g :=
    Frame.group_rows player_display_name String.eqb (dplayer p)
      (filter (fun r => position r =? pos) (recent_data df current_season)) in
  let k := List.length (present (map points g)) in
  ((k < 2)%nat ->
   std_ppg p = NaN /\
   consistency_score (score_player p) = NaN /\
   draft_score (score_player p) = NaN) /\
  ((2 <= k)%nat ->
   exists a s,
     avg_ppg p = Fin a /\ std_ppg p = Fin s /\ 0 <= s /\
     consistency_score (score_player p) = Fin (a / (s + 1)) /\
     draft_score (score_player p)
     = Fin (a * (7 # 10) + a / (s + 1) * (3 # 10)) /\
     (0 <= a -> 0 <= a / (s + 1) /\ a / (s + 1) <= a) /\
     (a <= 0 -> a <= a / (s + 1) /\ a / (s + 1) <= 0)).
Proof.
  intros Hsqrt Hin g k.
  unfold experienced_players in Hin. apply filter_In in Hin.
  destruct Hin as [Hin _]. apply player_metrics_In in Hin.
  cbv zeta in Hin. fold g in Hin.
  pose proof (no_inf_points_obs g) as Hg.
  split; intro Hk.
  - assert (Hs : std_ppg p = NaN).
    { rewrite Hin. simpl. now apply std_few. }
    unfold score_player. simpl. rewrite Hs. simpl.
    rewrite fdiv_NaN_r. simpl. rewrite fadd_NaN_r. auto.
  - destruct (std_present sqrtQ _ Hg Hk) as [v Hv].
    assert (Ha : exists a, avg_ppg p = Fin a).
    { rewrite Hin. simpl. rewrite (mean_present _ Hg).
      unfold k in Hk. destruct (present (map points g));
        [simpl in Hk; lia|eauto]. }
    destruct Ha as [a Ha].
    assert (Hs : std_ppg p = Fin (sqrtQ v)) by (rewrite Hin; exact Hv).
    exists a, (sqrtQ v).
    split; [exact Ha|]. split; [exact Hs|]. split; [apply Hsqrt|].
    unfold score_player. simpl. rewrite Ha, Hs. simpl.
    assert (Hnz : Qeq_bool (sqrtQ v + 1) 0 = false).
    { apply Qeq_bool_false_pos. pose proof (Hsqrt v). lra. }
    rewrite Hnz. simpl.
    split; [reflexivity|]. split; [reflexivity|].
    apply damped_between. apply Hsqrt.
Qed.

Lemma draft_scores_defined_witness :
  let p :=
    mkPlayerMetrics "Cy" (Fin (60 # 3)) (Fin (5832 # 1458)) (Fin 60) 3 in
  (forall q, 0 <= sqrt_sq q) /\
  In p (experienced_players sqrt_sq (recent_data steady_back 2024) "RB") /\
  exists a s,
    avg_ppg p = Fin a /\ std_ppg p = Fin s /\ 0 <= s /\
    consistency_score (score_player p) = Fin (a / (s + 1)).
Proof.
  intro p.
  assert (Hin : In p (experienced_players sqrt_sq
                        (recent_data steady_back 2024) "RB"))
    by (left; reflexivity).
  split; [exact sqrt_sq_nonneg|]. split; [exact Hin|].
  destruct (draft_scores_defined sqrt_sq steady_back 2024 "RB" p
              sqrt_sq_nonneg Hin) as [_ H].
  destruct H as [a [s [Ha [Hs [H0 [Hc _]]]]]].
  - vm_compute. lia.
  - exists a, s. auto.
Defined.

(* ------------------------------------------------------------------ *)
(** ** Value above replacement *)

Lemma filter_map_comm {A B} (f : A -> B) (P : B -> bool) (l : list A) :
  filter P (map f l) = map f (filter (fun x => P (f x)) l).
Proof.
  induction l as [|a t IH]; simpl; [reflexivity|].
  destruct (P (f a)); simpl; now rewrite IH.
Qed.

Lemma filter_none {A} (P : A -> bool) (l : list A) :
  (forall x, In x l -> P x = false) -> filter P l = [].
Proof.
  induction l as [|a t IH]; simpl; intro H; [reflexivity|].
  rewrite (H a) by now left. apply IH. intros; apply H; now right.
Qed.

(** The fields of a value insight in terms of the ranking it was computed
    from. *)
Lemma value_position_insight_fields (sqrtQ : Q -> Q)
  (season_data : list SeasonStat) (pos : string) (v : PositionValue) :
  value_position_insight sqrtQ season_data pos = Ok (Some v) ->
  let ranked :=
    Frame.sort_values_desc s_fantasy_points_ppr
      (filter (fun s => s_position s =? pos) season_data) in
  let scored :=
    map (fun s => mkVbdRow s (s_fantasy_points_ppr s - replacement_value v)%cell)
        ranked in
  ranked <> [] /\
  top_vbd_players v = firstn 10 scored /\
  position_depth v
  = List.length
      (filter (fun s => (s_fantasy_points_ppr s >? replacement_value v)%cell)
              ranked) /\
  avg_starter_points v
  = Frame.mean (map s_fantasy_points_ppr (firstn (replacement_ranks pos) ranked)).
Proof.
  intros H ranked scored. unfold value_position_insight in H.
  fold ranked in H.
  assert (Hne : ranked <> []).
  { intro E. rewrite E in H. simpl in H. discriminate. }
  split; [exact Hne|].
  destruct (Frame.empty ranked); [discriminate|].
  destruct (replacement_row (replacement_ranks pos) ranked) as [e|r];
    [discriminate|].
  cbn [bind] in H. inversion H. subst v. unfold scored.
  cbn [replacement_value top_vbd_players position_depth avg_starter_points].
  split; [reflexivity|]. split.
  - rewrite filter_map_comm, length_map. reflexivity.
  - unfold Frame.head. rewrite firstn_map, map_map. reflexivity.
Qed.

(** An entry of the value insight comes from the value computation of its
    season and position. *)
Lemma value_entry_inv (sqrtQ : Q -> Q) (df : list Observation)
  (ins : list (Z * list (string * PositionValue))) (s : Z)
  (pins : list (string * PositionValue)) (pos : string) (v : PositionValue) :
  calculate_positional_value_insights sqrtQ df = Ok ins ->
  In (s, pins) ins -> In (pos, v) pins ->
  In pos positions /\
  value_position_insight sqrtQ
    (filter (fun t => (s_season t =? s)%Z) (season_totals df)) pos
  = Ok (Some v).
Proof.
  unfold calculate_positional_value_insights. cbv zeta.
  set (per_season := fun s : Z => collect_positions _ positions).
  intros Hc Hs Hv.
  destruct (collect_seasons_ok per_season (sorted_seasons df)) as
    [ins' [Hins [_ Hin]]].
  { intros s' _. unfold per_season.
    destruct (collect_positions_ok
                (value_position_insight sqrtQ
                   (filter (fun t => (s_season t =? s')%Z) (season_totals df)))
                positions) as [l [Hl _]]; [|eauto].
    intros p _.
    destruct (value_position_insight_ok sqrtQ
                (filter (fun t => (s_season t =? s')%Z) (season_totals df)) p)
      as [[_ H]|[_ [v' [H _]]]]; eauto. }
  unfold Ok in *. rewrite Hc in Hins. inversion Hins. subst ins'.
  apply Hin in Hs. unfold per_season in Hs.
  destruct (collect_positions_ok
              (value_position_insight sqrtQ
                 (filter (fun t => (s_season t =? s)%Z) (season_totals df)))
              positions) as [l [Hl Hl']].
  { intros p _.
    destruct (value_position_insight_ok sqrtQ
                (filter (fun t => (s_season t =? s)%Z) (season_totals df)) p)
      as [[_ H]|[_ [v' [H _]]]]; eauto. }
  unfold Ok in *. rewrite Hs in Hl. inversion Hl. subst l.
  now apply Hl'.
Qed.

(** The ranking of a season and position: a descending list of numbers. *)
Lemma ranked_sorted_finite (df : list Observation) (s : Z) (pos : string) :
  let ranked :=
    Frame.sort_values_desc s_fantasy_points_ppr
      (filter (fun t => s_position t =? pos)
              (filter (fun t => (s_season t =? s)%Z) (season_totals df))) in
  StronglySorted total_ge ranked /\
  Forall (fun t => exists q, s_fantasy_points_ppr t = Fin q) ranked.
Proof.
  intro ranked.
  assert (Hfin : Forall (fun t => exists q, s_fantasy_points_ppr t = Fin q)
                        ranked).
  { rewrite Forall_forall. intros t Ht.
    apply sort_rows_In in Ht.
    apply filter_In in Ht. destruct Ht as [Ht _].
    apply filter_In in Ht. destruct Ht as [Ht _].
    now apply season_totals_finite in Ht. }
  split; [|exact Hfin].
  apply (StronglySorted_weaken
           (fun a b => Frame.desc (s_fantasy_points_ppr a)
                                  (s_fantasy_points_ppr b) = true)
           total_ge
           (fun t => exists q, s_fantasy_points_ppr t = Fin q) ranked).
  - intros a b [qa Ha] [qb Hb] Hd. exists qa, qb.
    rewrite Ha, Hb in Hd. unfold Frame.desc in Hd. simpl in Hd.
    apply Qle_bool_iff in Hd. auto.
  - exact Hfin.
  - apply sort_values_desc_sorted.
Qed.

Lemma present_In (l : list fval) (q : Q) : In q (present l) <-> In (Fin q) l.
Proof.
  unfold present. rewrite in_flat_map. split.
  - intros [x [Hx Hq]]. destruct x; simpl in Hq; try tauto.
    destruct Hq as [<-|[]]. exact Hx.
  - intro H. exists (Fin q). split; [exact H|now left].
Qed.

(** The ranking split at the row the replacement value is read from. *)
Lemma replacement_split (ranked : list SeasonStat) (rank : nat) (rv : fval) :
  (1 <= rank)%nat ->
  StronglySorted total_ge ranked ->
  Some rv = (if (rank <=? List.length ranked)%nat
             then nth_error (map s_fantasy_points_ppr ranked) (rank - 1)
             else nth_error (map s_fantasy_points_ppr ranked)
                            (List.length ranked - 1)) ->
  exists l1 y l2,
    ranked = (l1 ++ y :: l2)%list /\ s_fantasy_points_ppr y = rv /\
    (S (List.length l1) = rank \/
     (l2 = [] /\ (List.length ranked < rank)%nat)) /\
    (forall x, In x l1 -> total_ge x y) /\
    (forall z, In z l2 -> total_ge y z).
Proof.
  intros Hr Hs Hn.
  set (j := if (rank <=? List.length ranked)%nat
            then (rank - 1)%nat else (List.length ranked - 1)%nat).
  assert (Hj : nth_error (map s_fantasy_points_ppr ranked) j = Some rv).
  { unfold j. destruct (rank <=? List.length ranked)%nat; auto. }
  rewrite nth_error_map in Hj.
  destruct (nth_error ranked j) as [y|] eqn:Ey; [|discriminate].
  inversion Hj as [Hy]. clear Hj.
  pose proof (nth_error_split _ _ Ey) as [l1 [l2 [Hl Hlen]]].
  exists l1, y, l2. split; [exact Hl|]. split; [reflexivity|].
  rewrite Hl in Hs. split; [|split].
  - unfold j in Hlen. destruct (Nat.leb_spec rank (List.length ranked)).
    + left. lia.
    + right. split; [|assumption].
      rewrite Hl, length_app in Hlen. simpl in Hlen.
      destruct l2; [reflexivity|simpl in Hlen; lia].
  - intros x Hx. apply StronglySorted_app_inv in Hs.
    destruct Hs as [_ [_ H]]. apply H; [exact Hx|now left].
  - intros z Hz. eapply sorted_app_le; eauto.
Qed.

Lemma upper_part {A} (l1 l2 : list A) (y : A) (k : nat) (x : A) :
  (k <= S (List.length l1))%nat \/ l2 = [] ->
  In x (firstn k (l1 ++ y :: l2)) -> In x (l1 ++ [y]).
Proof.
  intros [Hk| ->] Hx.
  - replace (l1 ++ y :: l2)%list with ((l1 ++ [y]) ++ l2)%list in Hx
      by (rewrite <- app_assoc; reflexivity).
    rewrite firstn_app in Hx.
    replace (k - List.length (l1 ++ [y]))%nat with 0%nat in Hx
      by (rewrite length_app; simpl; lia).
    simpl in Hx. rewrite app_nil_r in Hx. now apply In_firstn in Hx.
  - now apply In_firstn in Hx.
Qed.

Lemma replacement_ranks_ge_10 (pos : string) :
  (10 <= replacement_ranks pos)%nat.
Proof.
  unfold replacement_ranks.
  repeat match goal with |- context [if ?b then _ else _] => destruct b end;
    lia.
Qed.

Lemma total_ge_refl_at (y : SeasonStat) (rv : Q) :
  s_fantasy_points_ppr y = Fin rv -> total_ge y y.
Proof. intro H. exists rv, rv. repeat split; auto. apply Qle_refl. Qed.

(** Everything the value insight says about one season and position,
    gathered for the statements below. *)
Lemma value_entry_ranked (sqrtQ : Q -> Q) (df : list Observation)
  (ins : list (Z * list (string * PositionValue))) (s : Z)
  (pins : list (string * PositionValue)) (pos : string) (v : PositionValue) :
  calculate_positional_value_insights sqrtQ df = Ok ins ->
  In (s, pins) ins -> In (pos, v) pins ->
  let ranked :=
    Frame.sort_values_desc s_fantasy_points_ppr (players_of df s pos) in
  exists l1 y l2 rv,
    ranked = (l1 ++ y :: l2)%list /\
    s_fantasy_points_ppr y = Fin rv /\ replacement_value v = Fin rv /\
    (S (List.length l1) = replacement_ranks pos \/
     (l2 = [] /\ (List.length ranked < replacement_ranks pos)%nat)) /\
    (forall x, In x (l1 ++ [y]) -> total_ge x y) /\
    (forall z, In z l2 -> total_ge y z) /\
    StronglySorted total_ge ranked /\
    top_vbd_players v
    = firstn 10
        (map (fun t => mkVbdRow t (s_fantasy_points_ppr t - Fin rv)%cell)
             ranked) /\
    position_depth v
    = List.length
        (filter (fun t => (s_fantasy_points_ppr t >? Fin rv)%cell) ranked) /\
    avg_starter_points v
    = Frame.mean
        (map s_fantasy_points_ppr (firstn (replacement_ranks pos) ranked)).
Proof.
  intros Hc Hs Hv ranked.
  destruct (value_entry_inv sqrtQ df ins s pins pos v Hc Hs Hv) as [_ Hvp].
  pose proof (value_position_insight_fields sqrtQ _ pos v Hvp) as Hf.
  cbv zeta in Hf. destruct Hf as [Hne [Ht [Hd Ha]]].
  pose proof (value_position_insight_ok sqrtQ
                (filter (fun t => (s_season t =? s)%Z) (season_totals df)) pos)
    as Hok.
  cbv zeta in Hok. unfold Ok in *.
  destruct Hok as [[Hnil _]|[_ [v' [Hv' Hn]]]]; [contradiction|].
  rewrite Hvp in Hv'. inversion Hv'. subst v'. clear Hv'.
  destruct (ranked_sorted_finite df s pos) as [Hsorted Hfin].
  fold (players_of df s pos) in *. fold ranked in Hne, Ht, Hd, Ha, Hn, Hsorted, Hfin.
  destruct (replacement_split ranked (replacement_ranks pos)
              (replacement_value v) (replacement_ranks_positive pos)
              Hsorted Hn) as [l1 [y [l2 [Hl [Hy [Hk [H1 H2]]]]]]].
  assert (Hyfin : exists rv, s_fantasy_points_ppr y = Fin rv).
  { rewrite Forall_forall in Hfin. apply Hfin. rewrite Hl. apply in_elt. }
  destruct Hyfin as [rv Hrv].
  exists l1, y, l2, rv.
  assert (Erv : replacement_value v = Fin rv) by congruence.
  rewrite Erv in Ht, Hd.
  assert (Hup : forall x, In x (l1 ++ [y]) -> total_ge x y).
  { intros x Hx. apply in_app_or in Hx. destruct Hx as [Hx|[<-|[]]]; auto.
    now apply (total_ge_refl_at _ rv). }
  split; [exact Hl|]. split; [exact Hrv|]. split; [exact Erv|].
  split; [exact Hk|]. split; [exact Hup|]. split; [exact H2|].
  split; [exact Hsorted|]. split; [exact Ht|]. split; [exact Hd|exact Ha].
Qed.

(** X5. The value-above-replacement table reported for a season and position
    holds ten of its players (all of them when there are fewer), best
    first: the rows are players of that season and position, each at most
    once, and no player left out has a higher total than a reported one.
    Each value is the player's total minus the replacement value, and none
    of the reported values is negative. *)
Theorem top_vbd_never_negative (sqrtQ : Q -> Q) (df : list Observation)
  (ins : list (Z * list (string * PositionValue))) (s : Z)
  (pins : list (string * PositionValue)) (pos : string) (v : PositionValue) :
  calculate_positional_value_insights sqrtQ df = Ok ins ->
  In (s, pins) ins -> In (pos, v) pins ->
  List.length (top_vbd_players v)
  = Nat.min 10 (List.length (players_of df s pos)) /\
  StronglySorted total_ge (map vstat (top_vbd_players v)) /\
  (exists rest,
     Permutation (map vstat (top_vbd_players v) ++ rest)
                 (players_of df s pos) /\
     forall x r, In x (map vstat (top_vbd_players v)) -> In r rest ->
                 total_ge x r) /\
  forall row, In row (top_vbd_players v) ->
    exists t rv,
      s_fantasy_points_ppr row = Fin t /\ replacement_value v = Fin rv /\
      vbd row = Fin (t - rv) /\ rv <= t.
Proof.
  intros Hc Hs Hv.
  destruct (value_entry_ranked sqrtQ df ins s pins pos v Hc Hs Hv)
    as [l1 [y [l2 [rv [Hl [Hy [Erv [Hk [Hup [_ [Hsorted [Ht _]]]]]]]]]]]].
  set (ranked := Frame.sort_values_desc s_fantasy_points_ppr
                   (players_of df s pos)) in *.
  rewrite Ht, firstn_map.
  assert (Eid : map vstat
                  (map (fun t => mkVbdRow t (s_fantasy_points_ppr t - Fin rv)%cell)
                       (firstn 10 ranked))
                = firstn 10 ranked).
  { rewrite map_map. simpl. apply map_id. }
  rewrite Eid.
  pose proof Hsorted as Hsplit.
  rewrite <- (firstn_skipn 10 ranked) in Hsplit.
  apply StronglySorted_app_inv in Hsplit.
  destruct Hsplit as [Hs1 [_ Hs3]].
  split; [|split; [|split]].
  - rewrite length_map, length_firstn. unfold ranked, Frame.sort_values_desc.
    now rewrite sort_rows_length.
  - exact Hs1.
  - exists (skipn 10 ranked). split; [|exact Hs3].
    rewrite firstn_skipn. unfold ranked, Frame.sort_values_desc.
    apply sort_rows_perm.
  - intros row Hrow. apply in_map_iff in Hrow.
    destruct Hrow as [x [<- Hx]]. simpl.
    assert (Hxy : total_ge x y).
    { apply Hup. rewrite Hl in Hx. apply (upper_part l1 l2 y 10 x); [|exact Hx].
      destruct Hk as [Hk|[Hk _]]; [left|now right].
      pose proof (replacement_ranks_ge_10 pos). lia. }
    destruct Hxy as [qa [qb [Ha [Hb Hle]]]].
    rewrite Hy in Hb. inversion Hb. subst qb.
    exists qa, rv. rewrite Ha. repeat split; auto.
Qed.

Lemma top_vbd_never_negative_witness :
  exists v,
    calculate_positional_value_insights sqrt_sq ten_backs
    = Ok [(2024%Z, [("RB", v)])] /\
    List.length (top_vbd_players v) = 10%nat /\
    forall row, In row (top_vbd_players v) ->
      exists t rv,
        s_fantasy_points_ppr row = Fin t /\ replacement_value v = Fin rv /\
        vbd row = Fin (t - rv) /\ rv <= t.
Proof.
  eexists. split; [vm_compute; reflexivity|].
  match goal with
  | |- List.length (top_vbd_players ?r) = _ /\ _ =>
      destruct (top_vbd_never_negative sqrt_sq ten_backs
                  [(2024%Z, [("RB", r)])] 2024 [("RB", r)] "RB" r)
        as [Hlen [_ [_ Hrows]]]
  end.
  - vm_compute. reflexivity.
  - now left.
  - now left.
  - split; [rewrite Hlen; reflexivity|exact Hrows].
Defined.

Lemma filter_length_perm {A} (f : A -> bool) (l l' : list A) :
  Permutation l l' ->
  List.length (filter f l) = List.length (filter f l').
Proof.
  induction 1 as [|x l l' _ IH|x y l|l l' l'' _ IH1 _ IH2]; simpl.
  - reflexivity.
  - destruct (f x); simpl; now rewrite IH.
  - destruct (f x), (f y); reflexivity.
  - now rewrite IH1.
Qed.

(** X6. The position depth is the number of players of the season and
    position whose total exceeds the replacement value.  It is smaller than
    the number of players and smaller than the replacement rank, and the
    average of the starters is a number. *)
Theorem depth_and_starters (sqrtQ : Q -> Q) (df : list Observation)
  (ins : list (Z * list (string * PositionValue))) (s : Z)
  (pins : list (string * PositionValue)) (pos : string) (v : PositionValue) :
  calculate_positional_value_insights sqrtQ df = Ok ins ->
  In (s, pins) ins -> In (pos, v) pins ->
  position_depth v
  = List.length
      (filter (fun t => (s_fantasy_points_ppr t >? replacement_value v)%cell)
              (players_of df s pos)) /\
  (position_depth v < List.length (players_of df s pos))%nat /\
  (position_depth v < replacement_ranks pos)%nat /\
  exists m, avg_starter_points v = Fin m.
Proof.
  intros Hc Hs Hv.
  destruct (value_entry_ranked sqrtQ df ins s pins pos v Hc Hs Hv)
    as [l1 [y [l2 [rv [Hl [Hy [Erv [Hk [Hup [Hlow [_ [_ [Hd Ha]]]]]]]]]]]]].
  set (ranked := Frame.sort_values_desc s_fantasy_points_ppr
                   (players_of df s pos)) in *.
  assert (Hn : List.length ranked = List.length (players_of df s pos)).
  { unfold ranked, Frame.sort_values_desc. apply sort_rows_length. }
  assert (Hdepth : (position_depth v <= List.length l1)%nat).
  { rewrite Hd, Hl, filter_app.
    rewrite (filter_none _ (y :: l2)).
    - rewrite app_nil_r. apply filter_length_le.
    - intros z Hz.
      assert (Hyz : total_ge y z).
      { destruct Hz as [<-|Hz]; [now apply (total_ge_refl_at _ rv)|auto]. }
      destruct Hyz as [qa [qb [Ea [Eb Hle]]]].
      rewrite Hy in Ea. inversion Ea. subst qa. rewrite Eb.
      apply not_true_is_false. intro E. apply fgtb_Fin in E.
      apply (Qlt_irrefl rv). eapply Qlt_le_trans; eauto. }
  assert (Hlen : List.length ranked
                 = (List.length l1 + S (List.length l2))%nat).
  { rewrite Hl, length_app. reflexivity. }
  split.
  { rewrite Hd, Erv. apply filter_length_perm.
    unfold ranked, Frame.sort_values_desc. apply sort_rows_perm. }
  split; [lia|]. split.
  { destruct Hk as [Hk|[-> Hk]]; simpl in *; lia. }
  set (xs := firstn (replacement_ranks pos) ranked) in *.
  assert (Hxs : forall x, In x xs -> total_ge x y).
  { intros x Hx. apply Hup. unfold xs in Hx. rewrite Hl in Hx.
    apply (upper_part l1 l2 y (replacement_ranks pos) x); [|exact Hx].
    destruct Hk as [Hk|[Hk _]]; [left; lia|now right]. }
  assert (Hni : no_inf (map s_fantasy_points_ppr xs)).
  { unfold no_inf. rewrite Forall_forall. intros c Hc'.
    apply in_map_iff in Hc'. destruct Hc' as [x [<- Hx]].
    destruct (Hxs x Hx) as [qa [_ [-> _]]]. exact I. }
  assert (Hsome : present (map s_fantasy_points_ppr xs) <> []).
  { assert (Hx : exists x, In x xs).
    { unfold xs. pose proof (replacement_ranks_positive pos) as Hr.
      destruct (replacement_ranks pos) as [|k]; [lia|].
      rewrite Hl. destruct l1 as [|a l1']; simpl; eauto. }
    destruct Hx as [x Hx]. destruct (Hxs x Hx) as [qa [_ [Ea _]]].
    intro E.
    assert (Hin : In qa (present (map s_fantasy_points_ppr xs))).
    { apply present_In. rewrite <- Ea. now apply in_map. }
    rewrite E in Hin. exact Hin. }
  rewrite Ha, (mean_present _ Hni).
  destruct (present (map s_fantasy_points_ppr xs)) as [|q0 qs] eqn:E;
    [congruence|].
  eexists. reflexivity.
Qed.

Lemma depth_and_starters_witness :
  exists v,
    calculate_positional_value_insights sqrt_sq ten_backs
    = Ok [(2024%Z, [("RB", v)])] /\
    position_depth v = 9%nat /\
    exists m, avg_starter_points v = Fin m.
Proof.
  eexists. split; [vm_compute; reflexivity|].
  split; [reflexivity|].
  match goal with
  | |- exists m, avg_starter_points ?r = _ =>
      destruct (depth_and_starters sqrt_sq ten_backs
                  [(2024%Z, [("RB", r)])] 2024 [("RB", r)] "RB" r)
        as [_ [_ [_ H]]]
  end.
  - vm_compute. reflexivity.
  - now left.
  - now left.
  - exact H.
Defined.

(* ------------------------------------------------------------------ *)
(** ** Breakout and bust lists *)

Lemma masks_exclusive (y : YoYRow) :
  breakout_mask y = true -> bust_mask y = false.
Proof.
  unfold breakout_mask, bust_mask. rewrite andb_true_iff. intros [H _].
  apply andb_false_iff. left.
  destruct (yoy_change y) as [q| | |]; simpl in *; try discriminate; auto.
  apply Qltb_true in H. apply Qltb_false. lra.
Qed.

Lemma filter_exclusive_length {A} (f g : A -> bool) (l : list A) :
  (forall x, f x = true -> g x = false) ->
  (List.length (filter f l) + List.length (filter g l) <= List.length l)%nat.
Proof.
  intro H. induction l as [|a t IH]; simpl; [lia|].
  destruct (f a) eqn:Ef.
  - rewrite (H a Ef). simpl. lia.
  - destruct (g a); simpl; lia.
Qed.

Lemma calculate_breakout_insights_In (sqrtQ : Q -> Q)
  (df : list Observation) (pos : string) (ins : BreakoutInsight) :
  In (pos, ins) (calculate_breakout_insights sqrtQ df) ->
  let pos_data :=
    filter (fun r : YoYRow => s_position r =? pos) (valid_changes df) in
  pos_data <> [] /\
  breakouts ins
  = Frame.nlargest 10 yoy_change_pct (filter breakout_mask pos_data) /\
  busts ins
  = Frame.nsmallest 10 yoy_change_pct (filter bust_mask pos_data) /\
  avg_yoy_change ins = Frame.mean (map yoy_change pos_data) /\
  breakout_rate ins
  = rate (List.length (breakouts ins)) (List.length pos_data) /\
  bust_rate ins = rate (List.length (busts ins)) (List.length pos_data).
Proof.
  intros H pos_data. apply by_position_In in H. destruct H as [_ H].
  unfold breakout_position_insight in H. fold pos_data in H.
  destruct pos_data as [|r t] eqn:E; [discriminate H|].
  cbn [Frame.empty] in H. inversion H. subst ins.
  cbn [breakouts busts avg_yoy_change breakout_rate bust_rate].
  split; [discriminate|]. auto 10.
Qed.

Lemma desc_PInf_inv (x : fval) : Frame.desc x PInf = true -> x = PInf.
Proof. destruct x; simpl; try discriminate; reflexivity. Qed.

Lemma asc_NInf_inv (x : fval) : Frame.asc x NInf = true -> x = NInf.
Proof. destruct x; simpl; try discriminate; reflexivity. Qed.

(** A row whose key is the best possible one, in a selection of the ten
    best rows. *)
Lemma extreme_rank (ord : fval -> fval -> bool) (inf : fval)
  (top rest all : list YoYRow) (y : YoYRow) :
  (forall x, ord x inf = true -> x = inf) ->
  StronglySorted
    (fun a b => ord (yoy_change_pct a) (yoy_change_pct b) = true) top ->
  Permutation (top ++ rest) all ->
  (forall x r, In x top -> In r rest ->
               ord (yoy_change_pct x) (yoy_change_pct r) = true) ->
  List.length top = Nat.min 10 (List.length all) ->
  In y all -> yoy_change_pct y = inf ->
  ranked_with_infinity inf y top.
Proof.
  intros Hinf Hs Hp Hr Hlen Hy Hpct. split.
  - apply (Permutation_in _ (Permutation_sym Hp)) in Hy.
    apply in_app_or in Hy. destruct Hy as [Hy|Hy]; [now left|right].
    split.
    + apply Permutation_length in Hp. rewrite length_app in Hp.
      assert (0 < List.length rest)%nat
        by (destruct rest; [destruct Hy|simpl; lia]).
      lia.
    + intros z Hz. apply Hinf. rewrite <- Hpct. now apply Hr.
  - intros l1 l2 E z Hz. rewrite E in Hs.
    apply StronglySorted_app_inv in Hs. destruct Hs as [_ [_ H]].
    apply Hinf. rewrite <- Hpct. apply H; [exact Hz|now left].
Qed.

(** C5, amended.  For a valid change whose prior total is zero the
    percentage delta is never an error, and it is missing only when the
    current total is zero as well.  With a positive current total it is
    plus infinity: the row passes the breakout test exactly when the
    current total exceeds 50; it is then listed among the breakouts unless
    ten rows with an infinite percentage fill the list, and only rows with
    an infinite percentage are listed ahead of it.  With a negative current
    total it is minus infinity: the row passes the bust test exactly when
    the current total is below -50 and is ranked among the busts in the
    same way. *)
Theorem zero_base_delta (sqrtQ : Q -> Q) (df : list Observation)
  (pos : string) (ins : BreakoutInsight) (y : YoYRow) (qp : Q) :
  In (pos, ins) (calculate_breakout_insights sqrtQ df) ->
  In y (valid_changes df) -> s_position y = pos ->
  prev_season_points y = Fin qp -> qp == 0 ->
  exists qt,
    s_fantasy_points_ppr y = Fin qt /\
    yoy_change y = Fin (qt - qp) /\
    (qt == 0 ->
     yoy_change_pct y = NaN /\
     breakout_mask y = false /\ bust_mask y = false /\
     ~ In y (breakouts ins) /\ ~ In y (busts ins)) /\
    (0 < qt ->
     yoy_change_pct y = PInf /\
     bust_mask y = false /\ ~ In y (busts ins) /\
     (breakout_mask y = true <-> 50 < qt) /\
     (In y (breakouts ins) -> 50 < qt) /\
     (50 < qt -> ranked_with_infinity PInf y (breakouts ins))) /\
    (qt < 0 ->
     yoy_change_pct y = NInf /\
     breakout_mask y = false /\ ~ In y (breakouts ins) /\
     (bust_mask y = true <-> qt < -50) /\
     (In y (busts ins) -> qt < -50) /\
     (qt < -50 -> ranked_with_infinity NInf y (busts ins))).
Proof.
  intros Hins Hin Hpos Hprev Hzero.
  apply calculate_breakout_insights_In in Hins. cbv zeta in Hins.
  destruct Hins as [_ [Hb [Hu _]]].
  set (pd := filter (fun r : YoYRow => s_position r =? pos)
                    (valid_changes df)) in *.
  assert (Hpd : In y pd)
    by (apply filter_In; split; [exact Hin|now apply String.eqb_eq]).
  assert (Hbo : In y (breakouts ins) -> breakout_mask y = true).
  { rewrite Hb. intro H. apply nlargest_all, filter_In in H. tauto. }
  assert (Hbu : In y (busts ins) -> bust_mask y = true).
  { rewrite Hu. intro H. apply nsmallest_all, filter_In in H. tauto. }
  unfold valid_changes in Hin. apply filter_In in Hin.
  destruct Hin as [Hin _]. apply with_yoy_In in Hin.
  destruct Hin as [Ht [Hy _]].
  destruct (player_season_stats_finite df _ Ht) as [qt Hqt].
  exists qt. split; [exact Hqt|].
  assert (Hc : yoy_change y = Fin (qt - qp)).
  { rewrite Hy. unfold yoy_row. cbn [yoy_change]. rewrite Hqt, Hprev.
    reflexivity. }
  assert (Hpct : yoy_change_pct y
                 = match (qt ?= 0)%Q with
                   | Gt => PInf | Lt => NInf | Eq => NaN
                   end).
  { rewrite Hy. unfold yoy_row. cbn [yoy_change_pct]. rewrite Hqt, Hprev.
    cbn [fsub fneg fadd]. unfold fdiv.
    rewrite (Qeq_eq_bool _ _ Hzero). unfold signed_inf.
    change (qt + - qp) with (qt - qp).
    assert (Hd : qt - qp == qt) by (rewrite Hzero; ring).
    rewrite Hd.
    destruct (qt ?= 0)%Q; reflexivity. }
  assert (Hd : qt - qp == qt) by (rewrite Hzero; ring).
  split; [exact Hc|]. split; [|split].
  - intro Hq. rewrite (proj1 (Qeq_alt qt 0) Hq) in Hpct.
    assert (Hm1 : breakout_mask y = false).
    { unfold breakout_mask. rewrite Hpct. apply andb_false_r. }
    assert (Hm2 : bust_mask y = false).
    { unfold bust_mask. rewrite Hpct. apply andb_false_r. }
    split; [exact Hpct|]. split; [exact Hm1|]. split; [exact Hm2|].
    split; intro H; [apply Hbo in H|apply Hbu in H]; congruence.
  - intro Hq. rewrite (proj1 (Qgt_alt qt 0) Hq) in Hpct.
    assert (Hm1 : breakout_mask y = true <-> 50 < qt).
    { unfold breakout_mask. rewrite Hpct, Hc.
      change ((Fin (qt - qp) >? Fin 50)%cell && true = true <-> 50 < qt).
      rewrite andb_true_r, fgtb_Fin. now rewrite Hd. }
    assert (Hm2 : bust_mask y = false).
    { unfold bust_mask. rewrite Hpct. apply andb_false_r. }
    split; [exact Hpct|]. split; [exact Hm2|].
    split; [intro H; apply Hbu in H; congruence|].
    split; [exact Hm1|]. split; [intro H; now apply Hm1, Hbo|].
    intro H50. rewrite Hb.
    destruct (nlargest_spec yoy_change_pct 10 (filter breakout_mask pd))
      as [Hs [rest [Hp Hr]]].
    apply (extreme_rank Frame.desc PInf _ rest (filter breakout_mask pd)).
    + exact desc_PInf_inv.
    + exact Hs.
    + exact Hp.
    + exact Hr.
    + apply nlargest_length.
    + apply filter_In. split; [exact Hpd|now apply Hm1].
    + exact Hpct.
  - intro Hq. rewrite (proj1 (Qlt_alt qt 0) Hq) in Hpct.
    assert (Hm1 : bust_mask y = true <-> qt < -50).
    { unfold bust_mask. rewrite Hpct, Hc.
      change ((Fin (qt - qp) <? Fin (-50))%cell && true = true
              <-> qt < -50).
      rewrite andb_true_r. unfold fltb. rewrite Qltb_true. now rewrite Hd. }
    assert (Hm2 : breakout_mask y = false).
    { unfold breakout_mask. rewrite Hpct. apply andb_false_r. }
    split; [exact Hpct|]. split; [exact Hm2|].
    split; [intro H; apply Hbo in H; congruence|].
    split; [exact Hm1|]. split; [intro H; now apply Hm1, Hbu|].
    intro H50. rewrite Hu.
    destruct (nsmallest_spec yoy_change_pct 10 (filter bust_mask pd))
      as [Hs [rest [Hp Hr]]].
    apply (extreme_rank Frame.asc NInf _ rest (filter bust_mask pd)).
    + exact asc_NInf_inv.
    + exact Hs.
    + exact Hp.
    + exact Hr.
    + apply nsmallest_length.
    + apply filter_In. split; [exact Hpd|now apply Hm1].
    + exact Hpct.
Qed.

Lemma zero_base_delta_witness :
  exists ins,
    In ("QB", ins) (calculate_breakout_insights sqrt_sq zero_base) /\
    In bob_2024 (valid_changes zero_base) /\
    s_position bob_2024 = "QB" /\
    prev_season_points bob_2024 = Fin 0 /\ 0 == 0 /\
    yoy_change_pct bob_2024 = PInf /\
    ranked_with_infinity PInf bob_2024 (breakouts ins).
Proof.
  assert (Hin : In bob_2024 (valid_changes zero_base))
    by (vm_compute; right; left; reflexivity).
  assert (Hzero : 0 == 0) by reflexivity.
  eexists. split; [left; vm_compute; reflexivity|].
  split; [exact Hin|]. split; [reflexivity|]. split; [reflexivity|].
  split; [exact Hzero|].
  match goal with
  | |- _ /\ ranked_with_infinity _ _ (breakouts ?i) =>
      destruct (zero_base_delta sqrt_sq zero_base "QB" i bob_2024 0
                  (or_introl eq_refl) Hin eq_refl eq_refl Hzero)
        as [qt [Hqt [_ [_ [Hpos _]]]]]
  end.
  assert (E : qt = 60) by (cbn in Hqt; congruence).
  subst qt.
  destruct Hpos as [Hpct [_ [_ [_ [_ Hrank]]]]]; [reflexivity|].
  split; [exact Hpct|]. apply Hrank. reflexivity.
Defined.

(** X7. No row is reported both as a breakout and as a bust: the two lists of
    a position together hold at most as many rows as the position has valid
    changes, and each of the two rates is a number between 0 and 100. *)
Theorem breakouts_and_busts_exclusive (sqrtQ : Q -> Q)
  (df : list Observation) (pos : string) (ins : BreakoutInsight) :
  In (pos, ins) (calculate_breakout_insights sqrtQ df) ->
  (forall y, In y (breakouts ins) -> ~ In y (busts ins)) /\
  (List.length (breakouts ins) + List.length (busts ins)
   <= List.length
        (filter (fun r : YoYRow => (s_position r =? pos)%string)
                (valid_changes df)))%nat /\
  exists b u,
    breakout_rate ins = Fin b /\ bust_rate ins = Fin u /\
    0 <= b <= 100 /\ 0 <= u <= 100.
Proof.
  intro H. apply calculate_breakout_insights_In in H. cbv zeta in H.
  destruct H as [Hne [Hb [Hu [_ [Hrb Hru]]]]].
  set (pd := filter (fun r : YoYRow => s_position r =? pos)
                    (valid_changes df)) in *.
  assert (Hn : (0 < List.length pd)%nat)
    by (destruct pd; [congruence|simpl; lia]).
  assert (Hsum : (List.length (breakouts ins) + List.length (busts ins)
                  <= List.length pd)%nat).
  { rewrite Hb, Hu, nlargest_length, nsmallest_length.
    pose proof (filter_exclusive_length breakout_mask bust_mask pd
                  masks_exclusive). lia. }
  split; [|split; [exact Hsum|]].
  - intros y Hy Hy'. rewrite Hb in Hy. rewrite Hu in Hy'.
    apply nlargest_all, filter_In in Hy.
    apply nsmallest_all, filter_In in Hy'.
    destruct Hy as [_ Hy]. destruct Hy' as [_ Hy'].
    apply masks_exclusive in Hy. congruence.
  - rewrite Hrb, Hru, !rate_positive by exact Hn.
    set (a := inject_Z (Z.of_nat (List.length (breakouts ins)))).
    set (c := inject_Z (Z.of_nat (List.length (busts ins)))).
    set (n := inject_Z (Z.of_nat (List.length pd))).
    assert (Ha : 0 <= a) by (unfold a; rewrite <- (Zle_Qle 0); lia).
    assert (Hc : 0 <= c) by (unfold c; rewrite <- (Zle_Qle 0); lia).
    assert (Hac : a + c <= n).
    { unfold a, c, n. rewrite <- inject_Z_plus, <- Zle_Qle. lia. }
    assert (Hpos : 0 < n) by (now apply inject_nat_pos).
    assert (Hi : 0 < / n) by now apply Qinv_lt_0_compat.
    assert (Hone : n * / n == 1) by (apply Qmult_inv_r; lra).
    exists (a / n * 100), (c / n * 100).
    split; [reflexivity|]. split; [reflexivity|].
    unfold Qdiv.
    assert (Hai : 0 <= a * / n) by (apply Qmult_le_0_compat; lra).
    assert (Hci : 0 <= c * / n) by (apply Qmult_le_0_compat; lra).
    assert (Hle : (a + c) * / n <= n * / n)
      by (apply Qmult_le_compat_r; lra).
    assert (E : (a + c) * / n == a * / n + c * / n) by ring.
    repeat split; lra.
Qed.

Lemma breakouts_and_busts_exclusive_witness :
  exists ins,
    In ("WR", ins) (calculate_breakout_insights sqrt_sq riser_and_faller) /\
    feq (breakout_rate ins) (Fin 50) /\ feq (bust_rate ins) (Fin 50) /\
    forall y, In y (breakouts ins) -> ~ In y (busts ins).
Proof.
  eexists. split; [left; vm_compute; reflexivity|].
  split; [vm_compute; reflexivity|]. split; [vm_compute; reflexivity|].
  match goal with
  | |- forall y, In y (breakouts ?i) -> _ =>
      exact (proj1 (breakouts_and_busts_exclusive sqrt_sq riser_and_faller
                      "WR" i (or_introl eq_refl)))
  end.
Defined.

(** X8. The breakouts are listed by descending percentage and the busts by
    ascending percentage; a row that passes a test but is left out of the
    list of ten is ranked no better than any row in the list. *)
Theorem breakout_lists_ranked (sqrtQ : Q -> Q) (df : list Observation)
  (pos : string) (ins : BreakoutInsight) :
  In (pos, ins) (calculate_breakout_insights sqrtQ df) ->
  let pos_data :=
    filter (fun r : YoYRow => s_position r =? pos) (valid_changes df) in
  StronglySorted
    (fun a b => Frame.desc (yoy_change_pct a) (yoy_change_pct b) = true)
    (breakouts ins) /\
  StronglySorted
    (fun a b => Frame.asc (yoy_change_pct a) (yoy_change_pct b) = true)
    (busts ins) /\
  (forall y, In y pos_data -> breakout_mask y = true ->
     In y (breakouts ins) \/
     forall x, In x (breakouts ins) ->
               Frame.desc (yoy_change_pct x) (yoy_change_pct y) = true) /\
  (forall y, In y pos_data -> bust_mask y = true ->
     In y (busts ins) \/
     forall x, In x (busts ins) ->
               Frame.asc (yoy_change_pct x) (yoy_change_pct y) = true).
Proof.
  intros H pos_data. apply calculate_breakout_insights_In in H.
  cbv zeta in H. fold pos_data in H. destruct H as [_ [Hb [Hu _]]].
  rewrite Hb, Hu.
  destruct (nlargest_spec yoy_change_pct 10 (filter breakout_mask pos_data))
    as [Hs1 [r1 [Hp1 Hr1]]].
  destruct (nsmallest_spec yoy_change_pct 10 (filter bust_mask pos_data))
    as [Hs2 [r2 [Hp2 Hr2]]].
  split; [exact Hs1|]. split; [exact Hs2|]. split.
  - intros y Hy Hm.
    assert (Hin : In y (filter breakout_mask pos_data))
      by (apply filter_In; auto).
    apply (Permutation_in _ (Permutation_sym Hp1)) in Hin.
    apply in_app_or in Hin. destruct Hin as [Hin|Hin]; [now left|right].
    intros x Hx. now apply Hr1.
  - intros y Hy Hm.
    assert (Hin : In y (filter bust_mask pos_data))
      by (apply filter_In; auto).
    apply (Permutation_in _ (Permutation_sym Hp2)) in Hin.
    apply in_app_or in Hin. destruct Hin as [Hin|Hin]; [now left|right].
    intros x Hx. now apply Hr2.
Qed.

Lemma breakout_lists_ranked_witness :
  exists ins,
    In ("QB", ins) (calculate_breakout_insights sqrt_sq eleven_breakouts) /\
    List.length (breakouts ins) = 10%nat /\
    StronglySorted
      (fun a b => Frame.desc (yoy_change_pct a) (yoy_change_pct b) = true)
      (breakouts ins).
Proof.
  eexists. split; [left; vm_compute; reflexivity|].
  split; [vm_compute; reflexivity|].
  match goal with
  | |- StronglySorted _ (breakouts ?i) =>
      exact (proj1 (breakout_lists_ranked sqrt_sq eleven_breakouts "QB" i
                      (or_introl eq_refl)))
  end.
Defined.

(* ------------------------------------------------------------------ *)
(** ** Rookie insights *)

Lemma df_with_rookie_obs (df : list Observation) (r : RookieRow) :
  In r (df_with_rookie df) -> In (obs r) df /\ r = rookie_label df (obs r).
Proof.
  rewrite df_with_rookie_unfold. intro H. apply in_map_iff in H.
  destruct H as [o [<- Ho]]. simpl. auto.
Qed.

(** X9. The rookie insight has an entry for each of the four positions, in the
    fixed order, whatever the table holds.  For a position without any row
    the averages and the performance gap are missing, no top rookie is
    listed, and the gap percentage and the adaptation improvement are 0. *)
Theorem rookie_insights_every_position (df : list Observation) :
  map fst (calculate_rookie_insights df) = ["QB"; "RB"; "WR"; "TE"] /\
  forall pos ins,
    In (pos, ins) (calculate_rookie_insights df) ->
    (forall o, In o df -> position o <> pos) ->
    rookie_avg ins = NaN /\ veteran_avg ins = NaN /\
    performance_gap ins = NaN /\ gap_percentage ins = Fin 0 /\
    top_rookies ins = [] /\
    early_season_avg ins = NaN /\ late_season_avg ins = NaN /\
    adaptation_improvement ins = Fin 0.
Proof.
  split; [reflexivity|].
  intros pos ins Hin Hnone.
  apply calculate_rookie_insights_In in Hin. destruct Hin as [_ ->].
  unfold rookie_position_insight.
  assert (E : filter (fun r : RookieRow => position r =? pos)
                     (df_with_rookie df) = []).
  { apply filter_none. intros r Hr. apply df_with_rookie_obs in Hr.
    apply String.eqb_neq. apply Hnone. tauto. }
  rewrite E. cbv. repeat split.
Qed.

Lemma rookie_insights_every_position_witness :
  (forall o, In o rookies_only -> position o <> "TE") /\
  exists ins,
    In ("TE", ins) (calculate_rookie_insights rookies_only) /\
    rookie_avg ins = NaN /\ gap_percentage ins = Fin 0 /\
    adaptation_improvement ins = Fin 0.
Proof.
  assert (H : forall o, In o rookies_only -> position o <> "TE").
  { intros o [<-|[]]. simpl. discriminate. }
  split; [exact H|].
  eexists. split; [right; right; right; left; reflexivity|].
  match goal with
  | |- rookie_avg ?i = _ /\ _ =>
      destruct (proj2 (rookie_insights_every_position rookies_only) "TE" i)
        as [H1 [_ [_ [H4 [_ [_ [_ H8]]]]]]]
  end.
  - right; right; right; left; reflexivity.
  - exact H.
  - auto.
Defined.

(** X10. A row marked rookie stays marked when the table is filtered: if the
    filter keeps the row, the filtered table labels it rookie again (only a
    veteran row can change its label, when the earlier seasons of the
    player are filtered away). *)
Theorem rookie_kept_by_filter (f : Observation -> bool)
  (df : list Observation) (r : RookieRow) :
  In r (df_with_rookie df) -> is_rookie r = true -> f r = true ->
  In r (df_with_rookie (filter f df)).
Proof.
  intros Hr Hrook Hf. apply df_with_rookie_obs in Hr.
  destruct Hr as [Ho Er].
  assert (Ho' : In (obs r) (filter f df)) by (apply filter_In; auto).
  destruct (rookie_label_min df (obs r) Ho) as [m [Hm [Hi [_ Hmin]]]].
  destruct (rookie_label_min (filter f df) (obs r) Ho')
    as [m' [Hm' [Hi' [[o' [Hin' [Hp' Hs']]] Hmin']]]].
  rewrite <- Er in Hm, Hi. rewrite Hrook in Hi.
  symmetry in Hi. apply Z.eqb_eq in Hi.
  assert (Hmm : m' = m).
  { apply filter_In in Hin'. destruct Hin' as [Hin' _].
    pose proof (Hmin o' Hin' Hp'). pose proof (Hmin' (obs r) Ho' eq_refl).
    lia. }
  subst m'.
  assert (E : rookie_label (filter f df) (obs r) = r).
  { destruct (rookie_label (filter f df) (obs r)) as [o2 rs2 ir2] eqn:E2.
    assert (Eo : o2 = obs r).
    { change o2 with (obs (mkRookieRow o2 rs2 ir2)). rewrite <- E2.
      reflexivity. }
    simpl in Hm', Hi'. subst o2 rs2.
    rewrite Hmm in *. rewrite Hi, Z.eqb_refl in Hi'. subst ir2.
    destruct r as [o rs ir]. simpl in *. congruence. }
  rewrite df_with_rookie_unfold. apply in_map_iff.
  exists (obs r). auto.
Qed.

Lemma rookie_kept_by_filter_witness :
  let r := mkRookieRow (mkObs "00-01" "Ann" "QB" 2023 1 (Some 10))
                       (Some 2023%Z) true in
  let f := fun o : Observation => (week o =? 1)%Z in
  In r (df_with_rookie veteran_scoring_zero) /\
  is_rookie r = true /\ f r = true /\
  In r (df_with_rookie (filter f veteran_scoring_zero)).
Proof.
  intros r f.
  assert (H1 : In r (df_with_rookie veteran_scoring_zero))
    by (left; reflexivity).
  assert (H2 : is_rookie r = true) by reflexivity.
  assert (H3 : f r = true) by reflexivity.
  split; [exact H1|]. split; [exact H2|]. split; [exact H3|].
  exact (rookie_kept_by_filter f veteran_scoring_zero r H1 H2 H3).
Defined.

(** X11. The adaptation improvement is never missing: it is the late average
    minus the early average when both are numbers and 0 otherwise, and the
    performance gap is the veteran average minus the rookie average, missing
    as soon as one of the two is. *)
Theorem adaptation_improvement_guarded (df : list Observation)
  (pos : string) (ins : RookieInsight) :
  In (pos, ins) (calculate_rookie_insights df) ->
  match early_season_avg ins, late_season_avg ins with
  | Fin e, Fin l => adaptation_improvement ins = Fin (l - e)
  | Fin _, NaN | NaN, Fin _ | NaN, NaN => adaptation_improvement ins = Fin 0
  | _, _ => False
  end /\
  match veteran_avg ins, rookie_avg ins with
  | Fin v, Fin r => performance_gap ins = Fin (v - r)
  | Fin _, NaN | NaN, Fin _ | NaN, NaN => performance_gap ins = NaN
  | _, _ => False
  end.
Proof.
  intro H. apply calculate_rookie_insights_In in H. destruct H as [_ ->].
  unfold rookie_position_insight. cbv zeta.
  cbn [early_season_avg late_season_avg adaptation_improvement
       veteran_avg rookie_avg performance_gap].
  set (pd := filter _ (df_with_rookie df)).
  split.
  - pose proof (mean_fin_or_na _
                  (no_inf_points (fun r : RookieRow => obs r)
                     (filter (fun r : RookieRow =>
                                is_rookie r && (week r <=? 4)%Z) pd))) as He.
    pose proof (mean_fin_or_na _
                  (no_inf_points (fun r : RookieRow => obs r)
                     (filter (fun r : RookieRow =>
                                is_rookie r && (4 <? week r)%Z) pd))) as Hl.
    cbv beta in He, Hl.
    set (e := Frame.mean _) in He |- *. set (l := Frame.mean _) in Hl |- *.
    clearbody e l.
    destruct He as [->|[qe ->]]; destruct Hl as [->|[ql ->]]; reflexivity.
  - pose proof (mean_fin_or_na _
                  (no_inf_points (fun r : RookieRow => obs r)
                     (filter (fun r : RookieRow => negb (is_rookie r)) pd)))
      as Hv.
    pose proof (mean_fin_or_na _
                  (no_inf_points (fun r : RookieRow => obs r)
                     (filter is_rookie pd))) as Hr.
    cbv beta in Hv, Hr.
    set (v := Frame.mean _) in Hv |- *. set (r := Frame.mean _) in Hr |- *.
    clearbody v r.
    destruct Hv as [->|[qv ->]]; destruct Hr as [->|[qr ->]]; reflexivity.
Qed.

Lemma adaptation_improvement_guarded_witness :
  exists ins,
    In ("QB", ins) (calculate_rookie_insights veteran_scoring_zero) /\
    late_season_avg ins = NaN /\ adaptation_improvement ins = Fin 0.
Proof.
  eexists. split; [left; reflexivity|].
  split; [vm_compute; reflexivity|].
  match goal with
  | |- adaptation_improvement ?i = _ =>
      pose proof (proj1 (adaptation_improvement_guarded veteran_scoring_zero
                           "QB" i (or_introl eq_refl))) as H
  end.
  vm_compute in H. vm_compute. exact H.
Defined.

(* ------------------------------------------------------------------ *)
(** ** Consistency insights *)

Lemma calculate_consistency_insights_In (sqrtQ : Q -> Q)
  (df : list Observation) (pos : string) (ins : ConsistencyInsight) :
  In (pos, ins) (calculate_consistency_insights sqrtQ df) <->
  In pos positions /\
  let analysed :=
    map consistency_row
        (filter (fun p => (16 <=? games p)%nat)
                (player_consistency sqrtQ df pos)) in
  analysed <> [] /\
  ins = mkConsistencyInsight (Frame.mean (map cv analysed))
          (Frame.nsmallest 5 cv analysed)
          (Frame.nlargest 5 ceiling analysed)
          (Frame.nlargest 5 floor analysed)
          (List.length analysed).
Proof.
  unfold calculate_consistency_insights. rewrite by_position_In.
  unfold consistency_position_insight. cbv zeta.
  destruct (filter _ (player_consistency sqrtQ df pos)) as [|p t] eqn:E.
  - simpl. split; [intros [_ H]; discriminate|].
    intros [_ [H _]]. congruence.
  - cbn [Frame.empty]. split.
    + intros [Hp H]. inversion H. split; [exact Hp|].
      split; [discriminate|reflexivity].
    + intros [Hp [_ ->]]. split; [exact Hp|reflexivity].
Qed.

(** X12. A position has a consistency entry exactly when it is one of the four
    positions and some player has sixteen or more scored games there.  The
    entry counts these players, and each of its three lists holds the
    smaller of five and that count, all of them players with sixteen or
    more scored games. *)
Theorem consistency_entry_sizes (sqrtQ : Q -> Q) (df : list Observation)
  (pos : string) :
  let analysed :=
    filter (fun p => (16 <=? games p)%nat) (player_consistency sqrtQ df pos) in
  ((exists ins, In (pos, ins) (calculate_consistency_insights sqrtQ df)) <->
   In pos positions /\ exists p, In p analysed) /\
  forall ins, In (pos, ins) (calculate_consistency_insights sqrtQ df) ->
    total_players_analyzed ins = List.length analysed /\
    (1 <= total_players_analyzed ins)%nat /\
    List.length (most_consistent ins)
    = Nat.min 5 (total_players_analyzed ins) /\
    List.length (highest_ceiling ins)
    = Nat.min 5 (total_players_analyzed ins) /\
    List.length (highest_floor ins)
    = Nat.min 5 (total_players_analyzed ins) /\
    forall x,
      In x (most_consistent ins) \/ In x (highest_ceiling ins) \/
      In x (highest_floor ins) ->
      (16 <= games x)%nat /\
      games x
      = List.length
          (present
             (map points
                (Frame.group_rows player_display_name String.eqb (player x)
                   (filter (fun r => (position r =? pos)%string) df)))).
Proof.
  intro analysed. split.
  - split.
    + intros [ins H]. apply calculate_consistency_insights_In in H.
      cbv zeta in H. fold analysed in H. destruct H as [Hp [Hne _]].
      split; [exact Hp|].
      destruct analysed as [|p t]; [simpl in Hne; congruence|].
      exists p. now left.
    + intros [Hp [p Hin]]. eexists.
      apply calculate_consistency_insights_In. split; [exact Hp|].
      cbv zeta. fold analysed. split; [|reflexivity].
      destruct analysed; [destruct Hin|discriminate].
  - intros ins H. apply calculate_consistency_insights_In in H.
    cbv zeta in H. fold analysed in H. destruct H as [_ [Hne ->]].
    cbn [total_players_analyzed most_consistent highest_ceiling
         highest_floor].
    rewrite nsmallest_length, !nlargest_length, !length_map.
    split; [reflexivity|]. split.
    { destruct analysed; [simpl in Hne; congruence|simpl; lia]. }
    split; [reflexivity|]. split; [reflexivity|]. split; [reflexivity|].
    intros x Hx.
    assert (Hin : In x (map consistency_row analysed)).
    { destruct Hx as [Hx|[Hx|Hx]].
      - now apply nsmallest_all in Hx.
      - now apply nlargest_all in Hx.
      - now apply nlargest_all in Hx. }
    apply in_map_iff in Hin. destruct Hin as [p [<- Hp]].
    unfold analysed in Hp. apply filter_In in Hp. destruct Hp as [Hp Hg].
    apply Nat.leb_le in Hg. split; [exact Hg|].
    apply player_consistency_In in Hp. cbv zeta in Hp.
    cbn [agg consistency_row player games].
    rewrite Hp at 1. cbn [games].
    apply count_present. apply no_inf_points_obs.
Qed.

Lemma fold_fmin_Fin (t : list Q) (x : Q) :
  exists m,
    fold_left fmin (map Fin t) (Fin x) = Fin m /\ m <= x /\
    forall q, In q t -> m <= q.
Proof.
  revert x. induction t as [|y t IH]; intro x; simpl.
  - exists x. split; [reflexivity|]. split; [apply Qle_refl|tauto].
  - unfold fmin at 2. simpl.
    destruct (Qltb y x) eqn:E.
    + apply Qltb_true in E. destruct (IH y) as [m [Hm [Hy Ht]]].
      exists m. split; [exact Hm|]. split; [lra|].
      intros q [<-|Hq]; auto.
    + apply Qltb_false in E. destruct (IH x) as [m [Hm [Hx Ht]]].
      exists m. split; [exact Hm|]. split; [exact Hx|].
      intros q [<-|Hq]; [lra|auto].
Qed.

Lemma fold_fmax_Fin (t : list Q) (x : Q) :
  exists m,
    fold_left fmax (map Fin t) (Fin x) = Fin m /\ x <= m /\
    forall q, In q t -> q <= m.
Proof.
  revert x. induction t as [|y t IH]; intro x; simpl.
  - exists x. split; [reflexivity|]. split; [apply Qle_refl|tauto].
  - unfold fmax at 2. simpl.
    destruct (Qltb x y) eqn:E.
    + apply Qltb_true in E. destruct (IH y) as [m [Hm [Hy Ht]]].
      exists m. split; [exact Hm|]. split; [lra|].
      intros q [<-|Hq]; auto.
    + apply Qltb_false in E. destruct (IH x) as [m [Hm [Hx Ht]]].
      exists m. split; [exact Hm|]. split; [exact Hx|].
      intros q [<-|Hq]; [lra|auto].
Qed.

(** Minimum, mean and maximum of a column that holds at least one number
    and no infinity: all three are numbers, and every number of the column
    lies between the minimum and the maximum. *)
Lemma min_mean_max (l : list fval) :
  no_inf l -> present l <> [] ->
  exists lo a hi,
    Frame.min l = Fin lo /\ Frame.mean l = Fin a /\ Frame.max l = Fin hi /\
    lo <= hi /\ forall q, In q (present l) -> lo <= q <= hi.
Proof.
  intros Hl Hne. unfold Frame.min, Frame.max.
  rewrite (mean_present l Hl), (dropna_present l Hl).
  destruct (present l) as [|x t] eqn:E; [congruence|]. simpl map.
  destruct (fold_fmin_Fin t x) as [lo [Hlo [Hlx Hlt]]].
  destruct (fold_fmax_Fin t x) as [hi [Hhi [Hhx Hht]]].
  exists lo. eexists. exists hi.
  split; [exact Hlo|]. split; [reflexivity|]. split; [exact Hhi|].
  split; [lra|].
  intros q [<-|Hq]; split; auto.
Qed.

(** X13. For every player the consistency insight reports, given a square root
    that is never negative: the player has sixteen or more scored games;
    minimum, mean, maximum and standard deviation are numbers, every game
    the player scored at the position lies between the minimum and the
    maximum, and floor <= mean <= ceiling, floor and ceiling being the
    mean minus and plus the standard deviation.  The coefficient of
    variation is std / mean when the mean is not zero; with a zero mean it
    is plus infinity, or missing when the standard deviation is zero
    too. *)
Theorem consistency_rows_defined (sqrtQ : Q -> Q) (df : list Observation)
  (pos : string) (ins : ConsistencyInsight) (x : ConsistencyRow) :
  (forall q, 0 <= sqrtQ q) ->
  In (pos, ins) (calculate_consistency_insights sqrtQ df) ->
  In x (most_consistent ins) \/ In x (highest_ceiling ins) \/
  In x (highest_floor ins) ->
  (16 <= games x)%nat /\
  exists lo a hi s,
    min_points x = Fin lo /\ avg_points x = Fin a /\
    max_points x = Fin hi /\ std_points x = Fin s /\
    lo <= hi /\ 0 <= s /\
    (forall o q, In o df -> position o = pos ->
       player_display_name o = player x ->
       fantasy_points_ppr o = Some q -> lo <= q <= hi) /\
    floor x = Fin (a - s) /\ ceiling x = Fin (a + s) /\
    a - s <= a /\ a <= a + s /\
    (~ a == 0 -> cv x = Fin (s / a)) /\
    (a == 0 -> 0 < s -> cv x = PInf) /\
    (a == 0 -> s == 0 -> cv x = NaN).
Proof.
  intros Hsqrt Hin Hx.
  apply calculate_consistency_insights_In in Hin. cbv zeta in Hin.
  destruct Hin as [_ [_ ->]].
  cbn [most_consistent highest_ceiling highest_floor] in Hx.
  assert (Hrow : In x (map consistency_row
                         (filter (fun p => (16 <=? games p)%nat)
                                 (player_consistency sqrtQ df pos)))).
  { destruct Hx as [Hx|[Hx|Hx]].
    - now apply nsmallest_all in Hx.
    - now apply nlargest_all in Hx.
    - now apply nlargest_all in Hx. }
  apply in_map_iff in Hrow. destruct Hrow as [p [<- Hp]].
  apply filter_In in Hp. destruct Hp as [Hp Hg]. apply Nat.leb_le in Hg.
  apply player_consistency_In in Hp. cbv zeta in Hp.
  set (v := map points _) in Hp.
  pose proof (no_inf_points_obs
                (Frame.group_rows player_display_name String.eqb (player p)
                   (filter (fun r => position r =? pos) df))) as Hv.
  fold v in Hv.
  assert (Hcount : games p = List.length (present v)).
  { rewrite Hp at 1. cbn [games]. now apply count_present. }
  destruct (min_mean_max v Hv) as [lo [a [hi [Hlo [Ha [Hhi [H1 H2]]]]]]].
  { intro E. rewrite E in Hcount. simpl in Hcount. lia. }
  destruct (std_present sqrtQ v Hv) as [w Hw]; [lia|].
  split; [exact Hg|].
  exists lo, a, hi, (sqrtQ w).
  assert (Emin : min_points p = Fin lo) by (rewrite Hp; exact Hlo).
  assert (Eavg : avg_points p = Fin a) by (rewrite Hp; exact Ha).
  assert (Emax : max_points p = Fin hi) by (rewrite Hp; exact Hhi).
  assert (Estd : std_points p = Fin (sqrtQ w)) by (rewrite Hp; exact Hw).
  pose proof (Hsqrt w) as Hs.
  unfold consistency_row. cbn [agg cv floor ceiling].
  rewrite Emin, Eavg, Emax, Estd.
  split; [reflexivity|]. split; [reflexivity|]. split; [reflexivity|].
  split; [reflexivity|]. split; [exact H1|].
  split; [exact Hs|]. split.
  { intros o q Ho Hpos Hname Hq. apply H2. apply present_In.
    unfold v. apply in_map_iff. exists o.
    split; [unfold points; now rewrite Hq|].
    apply (group_rows_In _ _ String.eqb_eq). split; [|exact Hname].
    apply filter_In. split; [exact Ho|now apply String.eqb_eq]. }
  split; [reflexivity|]. split; [reflexivity|].
  split; [lra|]. split; [lra|].
  unfold fdiv. split; [|split].
  - intro Hnz. destruct (Qeq_bool a 0) eqn:E; [|reflexivity].
    apply Qeq_bool_eq in E. contradiction.
  - intros Hz Hpos. rewrite (Qeq_eq_bool _ _ Hz). unfold signed_inf.
    apply Qgt_alt in Hpos. now rewrite Hpos.
  - intros Hz Hzs. rewrite (Qeq_eq_bool _ _ Hz). unfold signed_inf.
    apply Qeq_alt in Hzs. now rewrite Hzs.
Qed.

Lemma consistency_rows_defined_witness :
  exists ins x,
    (forall q, 0 <= sqrt_sq q) /\
    In ("WR", ins) (calculate_consistency_insights sqrt_sq full_season) /\
    most_consistent ins = [x] /\ player x = "Flo" /\ games x = 16%nat /\
    exists lo a hi s,
      min_points x = Fin lo /\ avg_points x = Fin a /\
      max_points x = Fin hi /\ std_points x = Fin s /\
      lo <= hi /\ 0 <= s.
Proof.
  eexists. eexists. split; [exact sqrt_sq_nonneg|].
  split; [left; vm_compute; reflexivity|].
  split; [reflexivity|]. split; [reflexivity|]. split; [reflexivity|].
  match goal with
  | |- exists lo a hi s, min_points ?r = _ /\ _ =>
      destruct (consistency_rows_defined sqrt_sq full_season "WR" _ r
                  sqrt_sq_nonneg (or_introl eq_refl)
                  (or_introl (or_introl eq_refl)))
        as [_ [lo [a [hi [s [H1 [H2 [H3 [H4 [H5 [H6 _]]]]]]]]]]]
  end.
  exists lo, a, hi, s. auto 10.
Defined.

(* ------------------------------------------------------------------ *)
(** ** Weekly trends *)

Lemma sort_rows_nil {A} (leb : A -> A -> bool) (l : list A) :
  Frame.sort_rows leb l = [] -> l = [].
Proof.
  intro H. pose proof (sort_rows_length leb l) as E. rewrite H in E.
  destruct l; [reflexivity|discriminate].
Qed.

Lemma groupby_nil {A K} (key : A -> K) (keqb kleb : K -> K -> bool)
  (l : list A) :
  Frame.groupby key keqb kleb l = [] <-> l = [].
Proof.
  split.
  - unfold Frame.groupby. intro H. apply map_eq_nil, sort_rows_nil in H.
    destruct l; [reflexivity|discriminate].
  - intros ->. reflexivity.
Qed.

(** The mean of the points of some rows is a number exactly when one of
    the rows has points recorded. *)
Lemma mean_points_notna (l : list Observation) :
  notna (Frame.mean (map points l)) = true <->
  exists o, In o l /\ fantasy_points_ppr o <> None.
Proof.
  rewrite (mean_present _ (no_inf_points_obs l)).
  split.
  - destruct (present (map points l)) as [|q t] eqn:E; [discriminate|].
    intros _.
    assert (Hq : In q (present (map points l))) by (rewrite E; now left).
    apply present_In, in_map_iff in Hq. destruct Hq as [o [Ho Hin]].
    exists o. split; [exact Hin|].
    unfold points in Ho. destruct (fantasy_points_ppr o); [|discriminate].
    discriminate.
  - intros [o [Hin Ho]].
    destruct (fantasy_points_ppr o) as [q|] eqn:Eq; [|congruence].
    assert (Hq : In q (present (map points l))).
    { apply present_In, in_map_iff. exists o. split; [|exact Hin].
      unfold points. now rewrite Eq. }
    destruct (present (map points l)); [destruct Hq|reflexivity].
Qed.

Lemma arg_best_error (better : fval -> fval -> bool) (s : list (Z * fval)) :
  ((forall kv, In kv s -> notna (snd kv) = false) /\
   arg_best better s = inl ValueError) \/
  ((exists kv, In kv s /\ notna (snd kv) = true) /\
   exists w, arg_best better s = inr w).
Proof.
  unfold arg_best.
  destruct (filter (fun kv => notna (snd kv)) s) as [|kv t] eqn:E.
  - left. split; [|reflexivity]. intros kv Hkv.
    apply not_true_is_false. intro Hn.
    assert (Hin : In kv (filter (fun kv => notna (snd kv)) s))
      by (apply filter_In; auto).
    rewrite E in Hin. exact Hin.
  - right. split; [|eauto]. exists kv.
    apply (filter_In (fun kv => notna (snd kv))). rewrite E. now left.
Qed.

(** The weekly insight of a position fails exactly when the table has no
    row at that position with points recorded. *)
Lemma weekly_position_insight_error (sqrtQ : Q -> Q)
  (df : list Observation) (pos : string) :
  ((forall o, In o df -> position o = pos -> fantasy_points_ppr o = None) /\
   weekly_position_insight sqrtQ df pos = inl ValueError) \/
  ((exists o, In o df /\ position o = pos /\ fantasy_points_ppr o <> None) /\
   exists ins, weekly_position_insight sqrtQ df pos = inr ins).
Proof.
  unfold weekly_position_insight. cbv zeta.
  set (pd := filter (fun r => position r =? pos) df).
  set (wa := map _ (Frame.groupby week Z.eqb Z.leb pd)).
  assert (Hwa : forall kv, In kv wa ->
            (notna (snd kv) = true <->
             exists o, In o df /\ position o = pos /\ week o = fst kv /\
                       fantasy_points_ppr o <> None)).
  { intros kv Hkv. unfold wa in Hkv. apply in_map_iff in Hkv.
    destruct Hkv as [[k g] [<- Hg]]. cbn [fst snd].
    apply (groupby_In _ _ _ Z.eqb_eq) in Hg. destruct Hg as [_ ->].
    rewrite mean_points_notna. split.
    - intros [o [Ho Hp]].
      apply (group_rows_In _ _ Z.eqb_eq) in Ho. destruct Ho as [Ho Hw].
      apply filter_In in Ho. destruct Ho as [Ho Hpos].
      apply String.eqb_eq in Hpos. exists o. auto.
    - intros [o [Ho [Hpos [Hw Hp]]]]. exists o. split; [|exact Hp].
      apply (group_rows_In _ _ Z.eqb_eq). split; [|exact Hw].
      apply filter_In. split; [exact Ho|now apply String.eqb_eq]. }
  unfold idxmax, idxmin.
  destruct (arg_best_error fgtb wa) as [[Hnone ->]|[[kv [Hkv Hn]] [w1 ->]]].
  - left. split; [|reflexivity].
    intros o Ho Hpos.
    destruct (fantasy_points_ppr o) as [q|] eqn:Eq; [exfalso|reflexivity].
    set (kv := (week o,
                Frame.mean (map points (Frame.group_rows week Z.eqb (week o) pd)))).
    assert (Hkv : In kv wa).
    { unfold wa. apply in_map_iff.
      exists (week o, Frame.group_rows week Z.eqb (week o) pd).
      split; [reflexivity|].
      apply (groupby_In _ _ _ Z.eqb_eq). split; [|reflexivity].
      exists o. split; [|reflexivity].
      apply filter_In. split; [exact Ho|now apply String.eqb_eq]. }
    pose proof (Hnone kv Hkv) as Hf.
    assert (Ht : notna (snd kv) = true).
    { apply (Hwa kv Hkv). exists o. cbn [fst kv].
      repeat split; auto. congruence. }
    congruence.
  - right. split.
    + apply (Hwa kv Hkv) in Hn. destruct Hn as [o [Ho [Hpos [_ Hp]]]].
      exists o. auto.
    + destruct (arg_best_error fltb wa) as [[Hnone _]|[_ [w2 ->]]].
      * rewrite (Hnone kv Hkv) in Hn. discriminate.
      * eauto.
Qed.

Lemma weekly_trends_loop_spec (f : string -> trend_error + WeeklyInsight)
  (ps : list string) :
  ((exists p, In p ps /\ f p = inl ValueError) /\
   weekly_trends_loop f ps = inl ValueError) \/
  ((forall p, In p ps -> exists a, f p = inr a) /\
   exists l, weekly_trends_loop f ps = inr l /\ map fst l = ps /\
             forall p a, In (p, a) l -> f p = inr a).
Proof.
  induction ps as [|p t IH]; simpl.
  - right. split; [tauto|]. exists []. repeat split. intros p a [].
  - destruct (f p) as [[]|a] eqn:E.
    + left. split; [|reflexivity]. exists p. auto.
    + destruct IH as [[[q [Hq Hf]] ->]|[Hall [l [-> [Hm Hl]]]]].
      * left. split; [|reflexivity]. exists q. auto.
      * right. split.
        -- intros q [<-|Hq]; eauto.
        -- eexists. split; [reflexivity|]. split; [simpl; now f_equal|].
           intros q b [H|H]; [inversion H; subst; exact E|auto].
Qed.

(** X14. The weekly trend insight needs a scored game at all four positions.
    When one of them has no row with points recorded (an empty table, a
    table of quarterbacks only, or a position whose only rows lack the
    points), the peak week cannot be determined: the whole computation ends
    with a value error and no position is reported.  Otherwise all four
    positions are reported, in the fixed order. *)
Theorem weekly_trends_need_every_position (sqrtQ : Q -> Q)
  (df : list Observation) :
  ((exists pos, In pos positions /\
                forall o, In o df -> position o = pos ->
                          fantasy_points_ppr o = None) ->
   calculate_weekly_trends_insights sqrtQ df = inl ValueError) /\
  ((forall pos, In pos positions ->
                exists o, In o df /\ position o = pos /\
                          fantasy_points_ppr o <> None) ->
   exists ins,
     calculate_weekly_trends_insights sqrtQ df = inr ins /\
     map fst ins = ["QB"; "RB"; "WR"; "TE"] /\
     forall pos i, In (pos, i) ins ->
       weekly_position_insight sqrtQ df pos = inr i).
Proof.
  unfold calculate_weekly_trends_insights.
  destruct (weekly_trends_loop_spec (weekly_position_insight sqrtQ df)
              positions) as [[[p [Hp Hf]] Hl]|[Hall [l [Hl [Hm Hin]]]]].
  - split; [intros _; exact Hl|].
    intro H. destruct (H p Hp) as [o [Ho [Hpos Hpts]]].
    destruct (weekly_position_insight_error sqrtQ df p)
      as [[Hnone _]|[_ [i Hi]]].
    + exfalso. now apply Hpts, Hnone.
    + congruence.
  - split.
    + intros [pos [Hpos Hnone]]. destruct (Hall pos Hpos) as [a Ha].
      destruct (weekly_position_insight_error sqrtQ df pos)
        as [[_ He]|[[o [Ho [Hp Hpts]]] _]].
      * congruence.
      * exfalso. now apply Hpts, Hnone.
    + intros _. exists l. auto.
Qed.

(** The table [four_positions] has a row at every position, but the only
    tight-end row has no points: the computation raises. *)
Example unscored_position_raises :
  calculate_weekly_trends_insights sqrt_sq four_positions = inl ValueError.
Proof. vm_compute. reflexivity. Qed.

Lemma weekly_position_insight_fields (sqrtQ : Q -> Q)
  (df : list Observation) (pos : string) (ins : WeeklyInsight) :
  weekly_position_insight sqrtQ df pos = inr ins ->
  let pos_data := filter (fun r => position r =? pos) df in
  let weekly_avg :=
    map (fun g => (fst g, Frame.mean (map points (snd g))))
        (Frame.groupby week Z.eqb Z.leb pos_data) in
  weekly_averages ins = weekly_avg /\
  idxmax weekly_avg = inr (peak_week ins) /\
  idxmin weekly_avg = inr (valley_week ins) /\
  playoff_boost ins = playoff_minus_regular pos_data.
Proof.
  intros H pos_data weekly_avg. unfold weekly_position_insight in H.
  cbv zeta in H. fold pos_data in H. fold weekly_avg in H.
  destruct (idxmax weekly_avg) as [e|peak]; [discriminate|].
  destruct (idxmin weekly_avg) as [e|valley]; [discriminate|].
  inversion H. subst ins.
  cbn [weekly_averages peak_week valley_week playoff_boost]. auto.
Qed.

Section BestWeek.
Variable better : fval -> fval -> bool.
(** [above a b]: the order in which [better] prefers [b] to [a]. *)
Variable above : Q -> Q -> Prop.
Hypothesis above_refl : forall a, above a a.
Hypothesis above_trans : forall a b c, above a b -> above b c -> above a c.
Hypothesis better_true :
  forall a b, better (Fin a) (Fin b) = true -> above b a.
Hypothesis better_false :
  forall a b, better (Fin a) (Fin b) = false -> above a b.

Lemma fold_best (t : list (Z * fval)) (kv : Z * fval) :
  (forall x, In x (kv :: t) -> exists a, snd x = Fin a) ->
  let r :=
    fold_left (fun best kv' =>
                 if better (snd kv') (snd best) then kv' else best) t kv in
  In r (kv :: t) /\
  forall x, In x (kv :: t) ->
    exists a b, snd x = Fin a /\ snd r = Fin b /\ above a b.
Proof.
  revert kv. induction t as [|y t IH]; intros kv Hfin; cbv zeta.
  - simpl. split; [now left|]. intros x [<-|[]].
    destruct (Hfin kv (or_introl eq_refl)) as [a Ha].
    exists a, a. auto.
  - simpl fold_left.
    destruct (Hfin kv (or_introl eq_refl)) as [a Ha].
    destruct (Hfin y (or_intror (or_introl eq_refl))) as [b Hb].
    set (b' := if better (snd y) (snd kv) then y else kv).
    assert (Hb' : (b' = y \/ b' = kv) /\
                  exists c, snd b' = Fin c /\ above a c /\ above b c).
    { unfold b'. rewrite Ha, Hb. destruct (better (Fin b) (Fin a)) eqn:E.
      - split; [now left|]. exists b. rewrite Hb.
        split; [reflexivity|]. split; [now apply better_true|auto].
      - split; [now right|]. exists a. rewrite Ha.
        split; [reflexivity|]. split; [auto|now apply better_false]. }
    destruct Hb' as [Hor [c [Hc [Hac Hbc]]]].
    destruct (IH b') as [Hin Hall].
    { intros x [<-|Hx]; [eauto|]. apply Hfin. right. now right. }
    cbv zeta in Hin, Hall. split.
    + destruct Hin as [Hin|Hin].
      * rewrite <- Hin. destruct Hor as [->| ->]; [right; now left|now left].
      * right. now right.
    + destruct (Hall b' (or_introl eq_refl)) as [c' [d [Hc' [Hd Hcd]]]].
      rewrite Hc in Hc'. inversion Hc'. subst c'.
      intros x [<-|[<-|Hx]].
      * exists a, d. split; [exact Ha|]. split; [exact Hd|].
        eapply above_trans; eauto.
      * exists b, d. split; [exact Hb|]. split; [exact Hd|].
        eapply above_trans; eauto.
      * apply Hall. now right.
Qed.

Lemma arg_best_spec (s : list (Z * fval)) (w : Z) :
  no_inf (map snd s) ->
  arg_best better s = inr w ->
  exists b, In (w, Fin b) s /\
            forall w' a, In (w', Fin a) s -> above a b.
Proof.
  intros Hs H. unfold arg_best in H.
  destruct (filter (fun kv => notna (snd kv)) s) as [|kv t] eqn:E;
    [discriminate|].
  inversion H as [Ho]. clear H.
  - assert (Hfin : forall x, In x (kv :: t) -> exists a, snd x = Fin a).
    { intros x Hx. rewrite <- E in Hx. apply filter_In in Hx.
      destruct Hx as [Hx Hn].
      unfold no_inf in Hs. rewrite Forall_forall in Hs.
      specialize (Hs (snd x) (in_map snd _ _ Hx)).
      destruct (snd x); simpl in *; try discriminate; try tauto. eauto. }
    destruct (fold_best t kv Hfin) as [Hin Hall]. cbv zeta in Hin, Hall.
    set (r := fold_left _ t kv) in *.
    destruct (Hfin r Hin) as [b Hb].
    exists b. split.
    + rewrite <- E in Hin. apply filter_In in Hin. destruct Hin as [Hin _].
      destruct r as [w0 v]. simpl in *. subst v. exact Hin.
    + intros w' a Ha.
      assert (Hf : In (w', Fin a) (kv :: t)).
      { rewrite <- E. apply filter_In. split; [exact Ha|reflexivity]. }
      destruct (Hall _ Hf) as [a' [b' [Ea [Eb Hab]]]]. simpl in Ea.
      inversion Ea. subst a'. rewrite Hb in Eb. inversion Eb. subst b'.
      exact Hab.
Qed.
End BestWeek.

Lemma weekly_avg_no_inf (l : list Observation) :
  no_inf (map snd
            (map (fun g => (fst g, Frame.mean (map points (snd g))))
                 (Frame.groupby week Z.eqb Z.leb l))).
Proof.
  unfold no_inf. rewrite Forall_forall. intros x Hx.
  rewrite map_map in Hx. apply in_map_iff in Hx.
  destruct Hx as [g [<- _]]. simpl.
  destruct (mean_fin_or_na _ (no_inf_points_obs (snd g))) as [->|[q ->]];
    exact I.
Qed.

(** X15. The weekly averages hold one entry per week in which the position has
    a row, the mean of the points scored in that week.  The peak week is a
    week of the table whose average is a number that no other week exceeds,
    and the valley week one whose average no other week undercuts. *)
Theorem peak_and_valley_weeks (sqrtQ : Q -> Q) (df : list Observation)
  (pos : string) (ins : WeeklyInsight) :
  weekly_position_insight sqrtQ df pos = inr ins ->
  (forall w a, In (w, a) (weekly_averages ins) <->
     (exists o, In o df /\ position o = pos /\ week o = w) /\
     a = Frame.mean
           (map points
              (filter (fun o => (week o =? w)%Z)
                      (filter (fun o => position o =? pos) df)))) /\
  (exists b, In (peak_week ins, Fin b) (weekly_averages ins) /\
             forall w' a, In (w', Fin a) (weekly_averages ins) -> a <= b) /\
  (exists b, In (valley_week ins, Fin b) (weekly_averages ins) /\
             forall w' a, In (w', Fin a) (weekly_averages ins) -> b <= a).
Proof.
  intro H. apply weekly_position_insight_fields in H. cbv zeta in H.
  destruct H as [Hw [Hmax [Hmin _]]]. rewrite Hw.
  set (pd := filter (fun r => position r =? pos) df) in *.
  split; [|split].
  - intros w a. rewrite in_map_iff. split.
    + intros [[k g] [E Hg]]. inversion E. subst.
      apply (groupby_In _ _ _ Z.eqb_eq) in Hg.
      destruct Hg as [[r [Hr Hk]] ->]. split; [|reflexivity].
      apply filter_In in Hr. destruct Hr as [Hr Hp].
      apply String.eqb_eq in Hp. exists r. auto.
    + intros [[o [Ho [Hp Hwk]]] ->].
      exists (w, Frame.group_rows week Z.eqb w pd). split; [reflexivity|].
      apply (groupby_In _ _ _ Z.eqb_eq). split; [|reflexivity].
      exists o. split; [|exact Hwk].
      apply filter_In. split; [exact Ho|now apply String.eqb_eq].
  - apply (arg_best_spec fgtb (fun a b => a <= b)).
    + intros. apply Qle_refl.
    + intros a b c. apply Qle_trans.
    + intros a b E. apply fgtb_Fin in E. lra.
    + intros a b E. unfold fgtb, fltb in E. apply Qltb_false in E. exact E.
    + apply weekly_avg_no_inf.
    + exact Hmax.
  - apply (arg_best_spec fltb (fun a b => b <= a)).
    + intros. apply Qle_refl.
    + intros a b c H1 H2. eapply Qle_trans; eauto.
    + intros a b E. unfold fltb in E. apply Qltb_true in E. lra.
    + intros a b E. unfold fltb in E. apply Qltb_false in E. exact E.
    + apply weekly_avg_no_inf.
    + exact Hmin.
Qed.

Lemma peak_and_valley_weeks_witness :
  exists ins,
    weekly_position_insight sqrt_sq four_positions "QB" = inr ins /\
    peak_week ins = 18%Z /\ valley_week ins = 1%Z /\
    exists b, In (18%Z, Fin b) (weekly_averages ins) /\
              forall w' a, In (w', Fin a) (weekly_averages ins) -> a <= b.
Proof.
  eexists. split; [vm_compute; reflexivity|].
  split; [reflexivity|]. split; [reflexivity|].
  match goal with
  | |- exists b, In (_, Fin b) (weekly_averages ?i) /\ _ =>
      pose proof (proj1 (proj2 (peak_and_valley_weeks sqrt_sq four_positions
                                  "QB" i eq_refl))) as H
  end.
  exact H.
Defined.

Lemma playoff_week_spec (o : Observation) :
  playoff_week o = true <-> (15 <= week o <= 17)%Z.
Proof.
  unfold playoff_week. simpl. rewrite !orb_true_iff, !Z.eqb_eq. lia.
Qed.

Lemma regular_week_spec (o : Observation) :
  regular_week o = true <-> (1 <= week o <= 14)%Z.
Proof.
  unfold regular_week. rewrite andb_true_iff, Z.leb_le, Z.ltb_lt. lia.
Qed.

(** X16. The playoff boost compares the mean over weeks 15 to 17 with the mean
    over weeks 1 to 14.  It is a number when both groups hold a scored game
    and missing otherwise, and rows of other weeks (week 18 for instance)
    have no influence on it. *)
Theorem playoff_boost_weeks (sqrtQ : Q -> Q) (df : list Observation)
  (pos : string) (ins : WeeklyInsight) :
  weekly_position_insight sqrtQ df pos = inr ins ->
  let at_pos := filter (fun o => position o =? pos) df in
  let late :=
    present (map points
               (filter (fun o => (15 <=? week o)%Z && (week o <=? 17)%Z)
                       at_pos)) in
  let early :=
    present (map points
               (filter (fun o => (1 <=? week o)%Z && (week o <=? 14)%Z)
                       at_pos)) in
  (late <> [] -> early <> [] ->
   playoff_boost ins
   = Fin (Qsum late / inject_Z (Z.of_nat (List.length late))
          - Qsum early / inject_Z (Z.of_nat (List.length early)))) /\
  (late = [] \/ early = [] -> playoff_boost ins = NaN) /\
  forall other ins',
    (forall o, In o other -> (week o < 1)%Z \/ (17 < week o)%Z) ->
    weekly_position_insight sqrtQ (df ++ other) pos = inr ins' ->
    playoff_boost ins' = playoff_boost ins.
Proof.
  intros H at_pos late early.
  apply weekly_position_insight_fields in H. cbv zeta in H.
  destruct H as [_ [_ [_ Hb]]]. fold at_pos in Hb.
  assert (El : filter playoff_week at_pos
               = filter (fun o => (15 <=? week o)%Z && (week o <=? 17)%Z)
                        at_pos).
  { apply filter_ext. intro o.
    apply eq_true_iff_eq. rewrite playoff_week_spec, andb_true_iff.
    rewrite !Z.leb_le. tauto. }
  assert (Ee : filter regular_week at_pos
               = filter (fun o => (1 <=? week o)%Z && (week o <=? 14)%Z)
                        at_pos).
  { apply filter_ext. intro o.
    apply eq_true_iff_eq. rewrite regular_week_spec, andb_true_iff.
    rewrite !Z.leb_le. tauto. }
  assert (Hval : playoff_boost ins
                 = (match late with
                    | [] => NaN
                    | q :: l =>
                        Fin (Qsum (q :: l)
                             / inject_Z (Z.of_nat (List.length (q :: l))))
                    end
                    - match early with
                      | [] => NaN
                      | q :: l =>
                          Fin (Qsum (q :: l)
                               / inject_Z (Z.of_nat (List.length (q :: l))))
                      end)%cell).
  { rewrite Hb. unfold playoff_minus_regular.
    rewrite !mean_present by apply no_inf_points_obs.
    rewrite El, Ee. reflexivity. }
  split; [|split].
  - intros Hl He. rewrite Hval.
    destruct late; [congruence|]. destruct early; [congruence|]. reflexivity.
  - intros [Hl|He]; rewrite Hval.
    + rewrite Hl. reflexivity.
    + rewrite He. apply fsub_NaN.
  - intros other ins' Hother H'.
    apply weekly_position_insight_fields in H'. cbv zeta in H'.
    destruct H' as [_ [_ [_ Hb']]]. rewrite Hb', Hb.
    unfold playoff_minus_regular, at_pos.
    rewrite !filter_app.
    set (extra := filter (fun r => position r =? pos) other).
    assert (Hex : forall o, In o extra ->
                            (week o < 1)%Z \/ (17 < week o)%Z).
    { intros o Ho. apply filter_In in Ho. apply Hother. tauto. }
    rewrite (filter_none playoff_week extra), (filter_none regular_week extra).
    + now rewrite !app_nil_r.
    + intros o Ho. apply not_true_is_false. rewrite regular_week_spec.
      destruct (Hex o Ho); lia.
    + intros o Ho. apply not_true_is_false. rewrite playoff_week_spec.
      destruct (Hex o Ho); lia.
Qed.

Lemma playoff_boost_weeks_witness :
  exists ins,
    weekly_position_insight sqrt_sq four_positions "QB" = inr ins /\
    feq (playoff_boost ins) (Fin 15) /\
    forall other ins',
      (forall o, In o other -> (week o < 1)%Z \/ (17 < week o)%Z) ->
      weekly_position_insight sqrt_sq (four_positions ++ other) "QB"
      = inr ins' ->
      playoff_boost ins' = playoff_boost ins.
Proof.
  eexists. split; [vm_compute; reflexivity|].
  split; [vm_compute; reflexivity|].
  match goal with
  | |- forall other ins', _ -> _ -> _ = playoff_boost ?i =>
      exact (proj2 (proj2 (playoff_boost_weeks sqrt_sq four_positions
                             "QB" i eq_refl)))
  end.
Defined.

(* ------------------------------------------------------------------ *)
(** ** Columns needed by the summary *)

Lemma require_all_first_missing (df : DataFrame) (cols : list string) :
  require_all df cols
  = match first_missing df cols with
    | Some c => Err (KeyError c)
    | None => Ok tt
    end.
Proof.
  induction cols as [|c t IH]; simpl; [reflexivity|].
  unfold require at 1.
  destruct (existsb (String.eqb c) (columns df)); simpl; [exact IH|].
  reflexivity.
Qed.

Lemma first_missing_none (df : DataFrame) (cols : list string) :
  first_missing df cols = None <->
  forall c, In c cols -> existsb (String.eqb c) (columns df) = true.
Proof.
  unfold first_missing. split.
  - intros H c Hc.
    pose proof (find_none _ _ H c Hc) as E. simpl in E.
    now apply negb_false_iff in E.
  - intro H. apply find_all_false. intros c Hc.
    apply negb_false_iff. auto.
Qed.

Lemma existsb_eqb_In (c : string) (cols : list string) :
  existsb (String.eqb c) cols = true <-> In c cols.
Proof.
  rewrite existsb_exists. split.
  - intros [x [Hx E]]. apply String.eqb_eq in E. now subst.
  - intro H. exists c. split; [exact H|apply String.eqb_refl].
Qed.

Lemma require_all_ok (df : DataFrame) (cols : list string) :
  require_all df cols = Ok tt <-> forall c, In c cols -> In c (columns df).
Proof.
  rewrite require_all_first_missing.
  destruct (first_missing df cols) as [c|] eqn:E.
  - split; [discriminate|]. intro H. exfalso.
    unfold first_missing in E. apply find_some in E. destruct E as [Hc E].
    apply negb_true_iff in E.
    apply H, existsb_eqb_In in Hc. congruence.
  - split; [|reflexivity]. intros _ c Hc.
    apply existsb_eqb_In. now apply (proj1 (first_missing_none df cols) E).
Qed.

Lemma require_all_cases (df : DataFrame) (cols : list string) :
  require_all df cols = Ok tt \/
  exists c, In c cols /\ ~ In c (columns df) /\
            require_all df cols = Err (KeyError c).
Proof.
  rewrite require_all_first_missing.
  destruct (first_missing df cols) as [c|] eqn:E; [right|now left].
  unfold first_missing in E. apply find_some in E. destruct E as [Hc E].
  apply negb_true_iff in E. exists c. split; [exact Hc|].
  split; [|reflexivity]. intro H. apply existsb_eqb_In in H. congruence.
Qed.

(** The rookie computation succeeds exactly on a table that has the six
    columns it reads and no column named [rookie_season]. *)
Lemma rookie_insights_ok (df : DataFrame) :
  (forall c, In c ["player_id"; "season"; "position"; "fantasy_points_ppr";
                   "player_display_name"; "week"] -> In c (columns df)) /\
  ~ In "rookie_season" (columns df) <->
  Raw.calculate_rookie_insights df
  = Ok (calculate_rookie_insights (rows df)).
Proof.
  unfold Raw.calculate_rookie_insights, Raw.read_merged_rookie_season.
  split.
  - intros [Hall Hno].
    rewrite (proj2 (require_all_ok df Raw.rookie_columns_before_merge))
      by (intros c Hc; apply Hall; simpl in Hc |- *; tauto).
    cbn [bind].
    destruct (existsb (String.eqb "rookie_season") (columns df)) eqn:E;
      [apply existsb_eqb_In in E; contradiction|].
    cbn [bind].
    rewrite (proj2 (require_all_ok df Raw.rookie_columns_after_merge))
      by (intros c Hc; apply Hall; simpl in Hc |- *; tauto).
    reflexivity.
  - intro H.
    destruct (require_all_cases df Raw.rookie_columns_before_merge)
      as [E1|[c [_ [_ E1]]]]; rewrite E1 in H; [|discriminate].
    cbn [bind] in H.
    destruct (existsb (String.eqb "rookie_season") (columns df)) eqn:E;
      [discriminate|].
    cbn [bind] in H.
    destruct (require_all_cases df Raw.rookie_columns_after_merge)
      as [E2|[c [_ [_ E2]]]]; rewrite E2 in H; [|discriminate].
    split.
    + intros c Hc.
      pose proof (proj1 (require_all_ok df _) E1) as H1.
      pose proof (proj1 (require_all_ok df _) E2) as H2.
      simpl in Hc.
      destruct Hc as [<-|[<-|Hc]];
        [apply H1; simpl; tauto|apply H1; simpl; tauto|].
      apply H2. exact Hc.
    + intro Hin. apply existsb_eqb_In in Hin. congruence.
Qed.

(** X17. The summary is delivered exactly when the table has the six columns
    player_id, season, position, fantasy_points_ppr, player_display_name
    and week and no column named rookie_season, which would clash with the
    column the rookie computation merges in.  Whenever the summary fails
    the error is that of the rookie computation: it reads every column the
    other two read, so they succeed whenever it does. *)
Theorem summary_needs_six_columns (sqrtQ : Q -> Q) (df : DataFrame) :
  let six := ["player_id"; "season"; "position"; "fantasy_points_ppr";
              "player_display_name"; "week"] in
  ((exists s, Raw.display_insights_summary sqrtQ df = Ok s) <->
   (forall c, In c six -> In c (columns df)) /\
   ~ In "rookie_season" (columns df)) /\
  (forall e, Raw.display_insights_summary sqrtQ df = Err e <->
             Raw.calculate_rookie_insights df = Err e) /\
  (forall r, Raw.calculate_rookie_insights df = Ok r ->
     Raw.calculate_consistency_insights sqrtQ df
     = Ok (calculate_consistency_insights sqrtQ (rows df)) /\
     Raw.calculate_breakout_insights sqrtQ df
     = Ok (calculate_breakout_insights sqrtQ (rows df)) /\
     Raw.display_insights_summary sqrtQ df
     = Ok (mkSummary r (calculate_consistency_insights sqrtQ (rows df))
                     (calculate_breakout_insights sqrtQ (rows df)))) /\
  ((forall c, In c six -> In c (columns df)) ->
   In "rookie_season" (columns df) ->
   Raw.display_insights_summary sqrtQ df = Err (KeyError "rookie_season")).
Proof.
  intro six.
  assert (Hothers : (forall c, In c six -> In c (columns df)) ->
            Raw.calculate_consistency_insights sqrtQ df
            = Ok (calculate_consistency_insights sqrtQ (rows df)) /\
            Raw.calculate_breakout_insights sqrtQ df
            = Ok (calculate_breakout_insights sqrtQ (rows df))).
  { intro Hall.
    unfold Raw.calculate_consistency_insights,
      Raw.calculate_breakout_insights.
    rewrite (proj2 (require_all_ok df Raw.consistency_columns))
      by (intros c Hc; apply Hall; simpl in Hc |- *; tauto).
    rewrite (proj2 (require_all_ok df Raw.breakout_columns))
      by (intros c Hc; apply Hall; simpl in Hc |- *; tauto).
    split; reflexivity. }
  assert (Hok : forall r, Raw.calculate_rookie_insights df = Ok r ->
            (forall c, In c six -> In c (columns df)) /\
            ~ In "rookie_season" (columns df)).
  { intros r Hr.
    assert (E : r = calculate_rookie_insights (rows df)).
    { unfold Raw.calculate_rookie_insights in Hr.
      destruct (require_all df Raw.rookie_columns_before_merge);
        [discriminate|].
      cbn [bind] in Hr.
      destruct (Raw.read_merged_rookie_season df); [discriminate|].
      cbn [bind] in Hr.
      destruct (require_all df Raw.rookie_columns_after_merge);
        [discriminate|].
      cbn [bind] in Hr. unfold Ok in Hr. congruence. }
    subst r. now apply rookie_insights_ok. }
  assert (Hsum : forall r, Raw.calculate_rookie_insights df = Ok r ->
            Raw.calculate_consistency_insights sqrtQ df
            = Ok (calculate_consistency_insights sqrtQ (rows df)) /\
            Raw.calculate_breakout_insights sqrtQ df
            = Ok (calculate_breakout_insights sqrtQ (rows df)) /\
            Raw.display_insights_summary sqrtQ df
            = Ok (mkSummary r (calculate_consistency_insights sqrtQ (rows df))
                            (calculate_breakout_insights sqrtQ (rows df)))).
  { intros r Hr. destruct (Hok r Hr) as [Hall _].
    destruct (Hothers Hall) as [Hc Hb].
    split; [exact Hc|]. split; [exact Hb|].
    unfold Raw.display_insights_summary. rewrite Hr, Hc, Hb. reflexivity. }
  assert (Herr : forall e, Raw.calculate_rookie_insights df = Err e ->
            Raw.display_insights_summary sqrtQ df = Err e).
  { intros e He. unfold Raw.display_insights_summary. now rewrite He. }
  split; [|split; [|split]].
  - split.
    + intros [s Hs].
      destruct (Raw.calculate_rookie_insights df) as [e|r] eqn:Er.
      * rewrite (Herr e eq_refl) in Hs. discriminate.
      * now apply (Hok r).
    + intro H. apply rookie_insights_ok in H.
      destruct (Hsum _ H) as [_ [_ Hs]]. eauto.
  - intro e. split.
    + intro Hs.
      destruct (Raw.calculate_rookie_insights df) as [e'|r] eqn:Er.
      * rewrite (Herr e' eq_refl) in Hs. unfold Err in *. congruence.
      * destruct (Hsum r eq_refl) as [_ [_ Hs']].
        rewrite Hs' in Hs. discriminate.
    + apply Herr.
  - exact Hsum.
  - intros Hall Hin. apply Herr.
    unfold Raw.calculate_rookie_insights, Raw.read_merged_rookie_season.
    rewrite (proj2 (require_all_ok df Raw.rookie_columns_before_merge))
      by (intros c Hc; apply Hall; simpl in Hc |- *; tauto).
    cbn [bind]. apply existsb_eqb_In in Hin. rewrite Hin. reflexivity.
Qed.

(** A table with the six columns and a column [rookie_season] of its
    own: the summary ends with a key error for the merged column. *)
Example rookie_season_column_clash :
  Raw.display_insights_summary sqrt_sq
    (mkDataFrame
       ["player_id"; "player_display_name"; "position"; "season"; "week";
        "fantasy_points_ppr"; "rookie_season"]
       one_game_table)
  = Err (KeyError "rookie_season").
Proof. reflexivity. Qed.

(* ------------------------------------------------------------------ *)
(** ** Number of valid year-over-year changes *)

Lemma filter_filter_and {A} (f g : A -> bool) (l : list A) :
  filter f (filter g l) = filter (fun x => g x && f x) l.
Proof.
  induction l as [|a t IH]; simpl; [reflexivity|].
  destruct (g a); simpl; [destruct (f a); now rewrite IH|exact IH].
Qed.

Lemma prev_of_seen (seen : list SeasonStat) (r : SeasonStat) :
  (forall p, In p seen -> exists q, s_fantasy_points_ppr p = Fin q) ->
  notna (prev_of seen r)
  = existsb (String.eqb (s_player_id r)) (map s_player_id seen).
Proof.
  intro Hfin. unfold prev_of.
  induction seen as [|p t IH]; simpl; [reflexivity|].
  rewrite (String.eqb_sym (s_player_id r) (s_player_id p)).
  destruct (s_player_id p =? s_player_id r) eqn:E; simpl.
  - destruct (Hfin p (or_introl eq_refl)) as [q ->]. reflexivity.
  - apply IH. intros; apply Hfin; now right.
Qed.

Lemma yoy_row_notna (r : SeasonStat) (prev : fval) (q : Q) :
  s_fantasy_points_ppr r = Fin q ->
  (prev = NaN \/ exists p, prev = Fin p) ->
  notna (yoy_change (yoy_row r prev)) = notna prev.
Proof.
  intros Hq [->|[p ->]]; unfold yoy_row; simpl; rewrite Hq; reflexivity.
Qed.

Lemma prev_of_shape (seen : list SeasonStat) (r : SeasonStat) :
  (forall p, In p seen -> exists q, s_fantasy_points_ppr p = Fin q) ->
  prev_of seen r = NaN \/ exists p, prev_of seen r = Fin p.
Proof.
  intro Hfin. unfold prev_of.
  destruct (find _ seen) as [p|] eqn:E; [right|now left].
  apply find_some in E. destruct E as [Hp _]. now apply Hfin.
Qed.

Lemma valid_count_from (seen l : list SeasonStat) :
  (forall p, In p seen -> exists q, s_fantasy_points_ppr p = Fin q) ->
  (forall p, In p l -> exists q, s_fantasy_points_ppr p = Fin q) ->
  (List.length
     (filter (fun y : YoYRow => notna (yoy_change y)) (yoy_from seen l))
   + List.length
       (filter (fun k => negb (existsb (String.eqb k) (map s_player_id seen)))
               (Frame.unique String.eqb (map s_player_id l)))
   = List.length l)%nat.
Proof.
  revert seen. induction l as [|r t IH]; intros seen Hs Hl; [reflexivity|].
  destruct (Hl r (or_introl eq_refl)) as [q Hq].
  assert (IH' := IH (r :: seen)).
  assert (Hs' : forall p, In p (r :: seen) ->
                          exists q, s_fantasy_points_ppr p = Fin q).
  { intros p [<-|Hp]; eauto. }
  specialize (IH' Hs' (fun p Hp => Hl p (or_intror Hp))).
  cbn [yoy_from map Frame.unique filter].
  rewrite (yoy_row_notna r _ q Hq (prev_of_shape seen r Hs)).
  rewrite (prev_of_seen seen r Hs).
  rewrite filter_filter_and.
  assert (E : filter
                (fun x => negb (s_player_id r =? x)
                          && negb (existsb (String.eqb x)
                                           (map s_player_id seen)))
                (Frame.unique String.eqb (map s_player_id t))
              = filter
                  (fun k => negb (existsb (String.eqb k)
                                          (map s_player_id (r :: seen))))
                  (Frame.unique String.eqb (map s_player_id t))).
  { apply filter_ext. intro k. simpl.
    rewrite negb_orb, (String.eqb_sym k). reflexivity. }
  rewrite E.
  destruct (existsb (String.eqb (s_player_id r)) (map s_player_id seen));
    cbn [negb List.length]; lia.
Qed.

(** X18. Each player of the per-season table loses exactly one row, the first:
    the valid changes and the players of the table together are as many as
    the player-season rows. *)
Theorem valid_changes_count (df : list Observation) :
  (List.length (valid_changes df)
   + List.length
       (Frame.unique String.eqb
          (map s_player_id (player_season_stats df)))
   = List.length (player_season_stats df))%nat.
Proof.
  unfold valid_changes, with_yoy. rewrite with_yoy_from.
  pose proof (valid_count_from [] (player_season_stats df)) as H.
  simpl in H. rewrite <- H.
  - f_equal. clear H.
    induction (Frame.unique _ _) as [|a t IH]; simpl;
      [reflexivity|now rewrite <- IH].
  - tauto.
  - intros p Hp. now apply player_season_stats_finite in Hp.
Qed.

(* ------------------------------------------------------------------ *)
(** ** Seasons and scarcity of the value insight *)

Lemma value_insights_seasons (sqrtQ : Q -> Q) (df : list Observation)
  (ins : list (Z * list (string * PositionValue))) :
  calculate_positional_value_insights sqrtQ df = Ok ins ->
  map fst ins = sorted_seasons df.
Proof.
  unfold calculate_positional_value_insights. cbv zeta.
  set (per_season := fun s : Z => collect_positions _ positions).
  intro Hc.
  destruct (collect_seasons_ok per_season (sorted_seasons df)) as
    [ins' [Hins [Hm _]]].
  { intros s' _. unfold per_season.
    destruct (collect_positions_ok
                (value_position_insight sqrtQ
                   (filter (fun t => (s_season t =? s')%Z) (season_totals df)))
                positions) as [l [Hl _]]; [|eauto].
    intros p _.
    destruct (value_position_insight_ok sqrtQ
                (filter (fun t => (s_season t =? s')%Z) (season_totals df)) p)
      as [[_ H]|[_ [v' [H _]]]]; eauto. }
  unfold Ok in *. rewrite Hc in Hins. inversion Hins. now subst.
Qed.

Lemma StronglySorted_NoDup_lt (l : list Z) :
  StronglySorted (fun a b => (a <=? b)%Z = true) l -> NoDup l ->
  StronglySorted Z.lt l.
Proof.
  induction 1 as [|a t Hs IH Hall]; intro Hnd; constructor.
  - apply IH. now inversion Hnd.
  - inversion Hnd as [|? ? Hna _]; subst.
    rewrite Forall_forall in *. intros b Hb.
    specialize (Hall b Hb). apply Z.leb_le in Hall.
    assert (a <> b) by (intros ->; contradiction). lia.
Qed.

(** X19. The value insight reports every season that occurs in the table,
    each once, in ascending order; a season in which none of the four
    positions has a player is reported with no position. *)
Theorem value_insight_seasons_ascending (sqrtQ : Q -> Q)
  (df : list Observation) (ins : list (Z * list (string * PositionValue))) :
  calculate_positional_value_insights sqrtQ df = Ok ins ->
  StronglySorted Z.lt (map fst ins) /\
  (forall s, In s (map fst ins) <-> exists o, In o df /\ season o = s) /\
  forall s pins, In (s, pins) ins ->
    (forall o, In o df -> season o = s -> ~ In (position o) positions) ->
    pins = [].
Proof.
  intro Hc. pose proof (value_insights_seasons sqrtQ df ins Hc) as Hm.
  rewrite Hm. unfold sorted_seasons. split; [|split].
  - apply StronglySorted_NoDup_lt.
    + apply (sort_rows_sorted Z.leb).
      * intros x y. rewrite !Z.leb_le. lia.
      * intros x y z. rewrite !Z.leb_le. lia.
    + apply (group_keys_NoDup season Z.eqb Z.leb Z.eqb_eq).
  - intro s. apply (group_keys_In season Z.eqb Z.leb Z.eqb_eq).
  - intros s pins Hs Hnone.
    destruct pins as [|[pos v] t]; [reflexivity|exfalso].
    destruct (value_entry_inv sqrtQ df ins s _ pos v Hc Hs (or_introl eq_refl))
      as [Hpos Hv].
    apply value_position_insight_fields in Hv. cbv zeta in Hv.
    destruct Hv as [Hne _]. apply Hne.
    destruct (Frame.sort_values_desc _ _) as [|x xs] eqn:E; [reflexivity|].
    exfalso.
    assert (Hx : In x (Frame.sort_values_desc s_fantasy_points_ppr
                         (filter (fun s0 => s_position s0 =? pos)
                            (filter (fun t0 => (s_season t0 =? s)%Z)
                                    (season_totals df)))))
      by (rewrite E; now left).
    apply sort_rows_In in Hx. apply filter_In in Hx. destruct Hx as [Hx Hp].
    apply filter_In in Hx. destruct Hx as [Hx Hse].
    apply String.eqb_eq in Hp. apply Z.eqb_eq in Hse.
    unfold season_totals in Hx. apply in_map_iff in Hx.
    destruct Hx as [[k g] [<- Hg]].
    apply (groupby_In _ _ _ stat_key_eqb_spec) in Hg.
    destruct Hg as [[o [Ho Hk]] _]. simpl in Hp, Hse. subst k.
    simpl in Hp, Hse. apply (Hnone o Ho Hse). now rewrite Hp.
Qed.

Lemma value_insight_seasons_ascending_witness :
  exists ins,
    calculate_positional_value_insights sqrt_sq zero_base = Ok ins /\
    map fst ins = [2023; 2024]%Z /\
    StronglySorted Z.lt (map fst ins).
Proof.
  eexists. split; [vm_compute; reflexivity|].
  split; [reflexivity|].
  match goal with
  | |- StronglySorted _ (map fst ?i) =>
      assert (Hc : calculate_positional_value_insights sqrt_sq zero_base
                   = Ok i) by (vm_compute; reflexivity);
      exact (proj1 (value_insight_seasons_ascending sqrt_sq zero_base i Hc))
  end.
Defined.

Lemma present_all_fin (l : list fval) :
  (forall x, In x l -> exists q, x = Fin q) ->
  no_inf l /\ List.length (present l) = List.length l.
Proof.
  intro H. split.
  - unfold no_inf. rewrite Forall_forall. intros x Hx.
    destruct (H x Hx) as [q ->]. exact I.
  - induction l as [|x t IH]; [reflexivity|].
    destruct (H x (or_introl eq_refl)) as [q ->]. simpl.
    rewrite IH; [reflexivity|]. intros; apply H; now right.
Qed.

Lemma value_position_insight_scarcity (sqrtQ : Q -> Q)
  (season_data : list SeasonStat) (pos : string) (v : PositionValue) :
  value_position_insight sqrtQ season_data pos = Ok (Some v) ->
  scarcity_score v
  = Frame.std sqrtQ
      (map s_fantasy_points_ppr
         (firstn 5
            (Frame.sort_values_desc s_fantasy_points_ppr
               (filter (fun s => s_position s =? pos) season_data)))).
Proof.
  intro H. unfold value_position_insight in H.
  set (ranked := Frame.sort_values_desc _ _) in *.
  destruct (Frame.empty ranked); [discriminate|].
  destruct (replacement_row (replacement_ranks pos) ranked) as [e|r];
    [discriminate|].
  cbn [bind] in H.
  assert (E : forall x y : PositionValue,
             @Ok (option PositionValue) (Some x) = Ok (Some y) -> x = y)
    by (intros x y E; unfold Ok in E; congruence).
  apply E in H. rewrite <- H. cbn [scarcity_score].
  unfold Frame.head. rewrite firstn_map, map_map. reflexivity.
Qed.

(** X20. The scarcity score of a season and position, the standard
    deviation of the five best totals, is missing when the position has a
    single player and the square root of a number otherwise. *)
Theorem scarcity_needs_two_players (sqrtQ : Q -> Q) (df : list Observation)
  (ins : list (Z * list (string * PositionValue))) (s : Z)
  (pins : list (string * PositionValue)) (pos : string) (v : PositionValue) :
  calculate_positional_value_insights sqrtQ df = Ok ins ->
  In (s, pins) ins -> In (pos, v) pins ->
  let n := List.length (players_of df s pos) in
  (1 <= n)%nat /\
  (n = 1%nat -> scarcity_score v = NaN) /\
  ((2 <= n)%nat -> exists w, scarcity_score v = Fin (sqrtQ w)).
Proof.
  intros Hc Hs Hv n.
  destruct (value_entry_inv sqrtQ df ins s pins pos v Hc Hs Hv) as [_ Hvp].
  pose proof (value_position_insight_scarcity sqrtQ _ pos v Hvp) as Hsc.
  pose proof (value_position_insight_fields sqrtQ _ pos v Hvp) as Hf.
  cbv zeta in Hf. destruct Hf as [Hne _].
  destruct (ranked_sorted_finite df s pos) as [_ Hfin].
  fold (players_of df s pos) in *.
  set (ranked := Frame.sort_values_desc s_fantasy_points_ppr
                   (players_of df s pos)) in *.
  assert (Hn : List.length ranked = n).
  { unfold ranked, Frame.sort_values_desc. apply sort_rows_length. }
  assert (Hall : forall x, In x (map s_fantasy_points_ppr (firstn 5 ranked)) ->
                           exists q, x = Fin q).
  { intros x Hx. apply in_map_iff in Hx. destruct Hx as [t [<- Ht]].
    apply In_firstn in Ht. rewrite Forall_forall in Hfin. auto. }
  destruct (present_all_fin _ Hall) as [Hni Hlen].
  rewrite length_map, length_firstn, Hn in Hlen.
  split; [|split].
  - rewrite <- Hn. destruct ranked; [congruence|simpl; lia].
  - intro H1. rewrite Hsc. apply std_few; [exact Hni|]. lia.
  - intro H2. rewrite Hsc. apply std_present; [exact Hni|]. lia.
Qed.

Lemma scarcity_needs_two_players_witness :
  exists v,
    calculate_positional_value_insights sqrt_sq rookies_only
    = Ok [(2024%Z, [("QB", v)])] /\
    List.length (players_of rookies_only 2024 "QB") = 1%nat /\
    scarcity_score v = NaN.
Proof.
  eexists. split; [vm_compute; reflexivity|].
  split; [reflexivity|].
  match goal with
  | |- scarcity_score ?r = _ =>
      destruct (scarcity_needs_two_players sqrt_sq rookies_only
                  [(2024%Z, [("QB", r)])] 2024 [("QB", r)] "QB" r)
        as [_ [H _]]
  end.
  - vm_compute. reflexivity.
  - now left.
  - now left.
  - apply H. reflexivity.
Defined.

(* ------------------------------------------------------------------ *)
(** ** Average and volatility of the year-over-year changes *)

Lemma valid_change_finite (df : list Observation) (y : YoYRow) :
  In y (valid_changes df) -> exists d, yoy_change y = Fin d.
Proof.
  unfold valid_changes. intro H. apply filter_In in H.
  destruct H as [H Hn]. apply with_yoy_In in H.
  destruct H as [Ht [Hy Hprev]].
  destruct (player_season_stats_finite df _ Ht) as [q Hq].
  destruct Hprev as [Hp|[p [Hp [_ Hpp]]]].
  - rewrite Hy in Hn. unfold yoy_row in Hn. simpl in Hn.
    rewrite Hp, fsub_NaN in Hn. discriminate.
  - destruct (player_season_stats_finite df _ Hp) as [qp Hqp].
    rewrite Hy. unfold yoy_row. simpl. rewrite Hpp, Hq, Hqp. simpl. eauto.
Qed.

Lemma calculate_breakout_insights_stats (sqrtQ : Q -> Q)
  (df : list Observation) (pos : string) (ins : BreakoutInsight) :
  In (pos, ins) (calculate_breakout_insights sqrtQ df) ->
  let pos_data :=
    filter (fun r : YoYRow => s_position r =? pos) (valid_changes df) in
  pos_data <> [] /\
  avg_yoy_change ins = Frame.mean (map yoy_change pos_data) /\
  yoy_volatility ins = Frame.std sqrtQ (map yoy_change pos_data).
Proof.
  intros H pos_data. apply by_position_In in H. destruct H as [_ H].
  unfold breakout_position_insight in H. fold pos_data in H.
  destruct pos_data as [|r t] eqn:E; [discriminate H|].
  cbn [Frame.empty] in H. inversion H. subst ins.
  cbn [avg_yoy_change yoy_volatility].
  split; [discriminate|]. auto.
Qed.

(** X21. For a position with valid year-over-year changes the average
    change is a number; the volatility, their standard deviation, is missing
    when the position has a single valid change and the square root of a
    number otherwise. *)
Theorem yoy_average_and_volatility (sqrtQ : Q -> Q) (df : list Observation)
  (pos : string) (ins : BreakoutInsight) :
  In (pos, ins) (calculate_breakout_insights sqrtQ df) ->
  let n :=
    List.length
      (filter (fun r : YoYRow => s_position r =? pos) (valid_changes df)) in
  (1 <= n)%nat /\
  (exists a, avg_yoy_change ins = Fin a) /\
  (n = 1%nat -> yoy_volatility ins = NaN) /\
  ((2 <= n)%nat -> exists w, yoy_volatility ins = Fin (sqrtQ w)).
Proof.
  intros H n. apply calculate_breakout_insights_stats in H.
  cbv zeta in H. destruct H as [Hne [Ha Hv]].
  set (pd := filter (fun r : YoYRow => s_position r =? pos)
                    (valid_changes df)) in *.
  assert (Hall : forall x, In x (map yoy_change pd) -> exists q, x = Fin q).
  { intros x Hx. apply in_map_iff in Hx. destruct Hx as [y [<- Hy]].
    apply filter_In in Hy. destruct Hy as [Hy _].
    now apply valid_change_finite in Hy. }
  destruct (present_all_fin _ Hall) as [Hni Hlen].
  rewrite length_map in Hlen. fold n in Hlen.
  assert (Hn : (1 <= n)%nat)
    by (unfold n; destruct pd; [congruence|simpl; lia]).
  split; [exact Hn|]. split; [|split].
  - rewrite Ha, (mean_present _ Hni).
    destruct (present (map yoy_change pd)); [simpl in Hlen; lia|eauto].
  - intro H1. rewrite Hv. apply std_few; [exact Hni|lia].
  - intro H2. rewrite Hv. apply std_present; [exact Hni|lia].
Qed.

Lemma yoy_average_and_volatility_witness :
  exists ins,
    In ("WR", ins) (calculate_breakout_insights sqrt_sq riser_and_faller) /\
    feq (avg_yoy_change ins) (Fin (-25)) /\
    exists w, yoy_volatility ins = Fin (sqrt_sq w).
Proof.
  eexists. split; [left; vm_compute; reflexivity|].
  split; [vm_compute; reflexivity|].
  match goal with
  | |- exists w, yoy_volatility ?i = _ =>
      destruct (yoy_average_and_volatility sqrt_sq riser_and_faller "WR" i
                  (or_introl eq_refl)) as [_ [_ [_ H]]]
  end.
  apply H. vm_compute. lia.
Defined.

(* ------------------------------------------------------------------ *)
(** ** Best rookies of a position *)

Lemma opt_eqb_spec (a b : option Z) : Key.opt_eqb a b = true <-> a = b.
Proof.
  destruct a as [x|], b as [y|]; simpl; try rewrite Z.eqb_eq;
    split; intro H; try discriminate; try reflexivity;
    [now subst|now inversion H].
Qed.

Lemma groupby_keys {A K} (key : A -> K) (keqb kleb : K -> K -> bool)
  (l : list A) :
  map fst (Frame.groupby key keqb kleb l)
  = Frame.sort_rows kleb (Frame.unique keqb (map key l)).
Proof.
  unfold Frame.groupby. rewrite map_map. simpl. apply map_id.
Qed.

Lemma rookie_position_insight_top (dfr : list RookieRow) (pos : string) :
  top_rookies (rookie_position_insight dfr pos)
  = Frame.nlargest 5 tr_fantasy_points_ppr
      (map (fun g => mkTopRookie (fst (fst g)) (snd (fst g))
                       (Frame.sum (map (fun r : RookieRow => points r) (snd g))))
           (Frame.groupby
              (fun r : RookieRow => (player_display_name r, rookie_season r))
              (Key.pair_eqb String.eqb Key.opt_eqb)
              (Key.pair_leb String.eqb String.leb Key.opt_leb)
              (filter is_rookie
                 (filter (fun r : RookieRow => position r =? pos) dfr)))).
Proof. reflexivity. Qed.

(** X22. The best rookies of a position are at most five, no name and rookie
    season is listed twice, every total is a number (the missing points of
    a rookie are skipped by the sum), and the list is in descending order of
    the totals. *)
Theorem top_rookies_ranked (df : list Observation) (pos : string)
  (ins : RookieInsight) :
  In (pos, ins) (calculate_rookie_insights df) ->
  (List.length (top_rookies ins) <= 5)%nat /\
  NoDup (map (fun t => (tr_player_display_name t, tr_rookie_season t))
             (top_rookies ins)) /\
  (forall t, In t (top_rookies ins) ->
     exists q, tr_fantasy_points_ppr t = Fin q) /\
  StronglySorted
    (fun a b =>
       Frame.desc (tr_fantasy_points_ppr a) (tr_fantasy_points_ppr b) = true)
    (top_rookies ins).
Proof.
  intro H. apply calculate_rookie_insights_In in H. destruct H as [_ ->].
  rewrite rookie_position_insight_top.
  set (rows := filter is_rookie _).
  set (G := Frame.groupby _ _ _ rows).
  set (mk := fun g : (string * option Z) * list RookieRow => _).
  split; [|split; [|split]].
  - rewrite nlargest_length. apply Nat.le_min_l.
  - unfold Frame.nlargest. rewrite <- firstn_map. apply NoDup_firstn.
    eapply Permutation_NoDup.
    + apply Permutation_map, Permutation_sym, sort_rows_perm.
    + rewrite map_map.
      rewrite (map_ext _ fst) by (intros [[a b] g]; reflexivity).
      unfold G. rewrite groupby_keys. apply group_keys_NoDup.
      apply pair_eqb_spec; [apply String.eqb_eq|apply opt_eqb_spec].
  - intros t Ht. unfold Frame.nlargest in Ht. apply In_firstn in Ht.
    apply sort_rows_In in Ht. apply in_map_iff in Ht.
    destruct Ht as [g [<- _]]. unfold mk. cbn [tr_fantasy_points_ppr].
    rewrite (sum_present _ (no_inf_points obs (snd g))). eauto.
  - apply (nlargest_spec tr_fantasy_points_ppr 5 (map mk G)).
Qed.

Lemma top_rookies_ranked_witness :
  exists ins,
    In ("WR", ins) (calculate_rookie_insights riser_and_faller) /\
    map tr_player_display_name (top_rookies ins) = ["Bob"; "Ann"] /\
    NoDup (map (fun t => (tr_player_display_name t, tr_rookie_season t))
               (top_rookies ins)).
Proof.
  eexists. split; [right; right; left; vm_compute; reflexivity|].
  split; [vm_compute; reflexivity|].
  match goal with
  | |- NoDup (map _ (top_rookies ?i)) =>
      destruct (top_rookies_ranked riser_and_faller "WR" i) as [_ [H _]]
  end.
  - right; right; left; reflexivity.
  - exact H.
Defined.
